(** * Binary distillation column solver (McCabe-Thiele): a shallow embedding

    The program is the JavaScript formula module of the distillation
    simulator.  Every quantity of the source is a JavaScript number, that
    is an IEEE-754 double.  The embedding keeps the special values of that
    type and their arithmetic rules (NaN, the two infinities, division by
    zero) and takes the finite values to be real numbers: arithmetic on
    finite values is exact, it neither rounds nor overflows, and zero has
    no sign (it behaves as +0).  Tray counts and tray indices, which the
    source only ever uses as loop bounds and array indices, are integers.

    The [while] loops of the equilibrium solves have no iteration cap in
    the source; they are run with a fuel argument that bounds the number
    of times the loop condition is evaluated, and [OutOfFuel] is the
    result of a run that needs more.

    A property that holds of the formulas but not of their binary64
    evaluation says so: it is stated over exact real arithmetic.  The two
    operating lines, which use only [+], [*] and [/], are embedded a
    second time on the kernel's binary64 floats (module [Binary64]), where
    rounding can be computed. *)

From Corelib Require Import PrimFloat.
From stdpp Require Import base list.
From Stdlib Require Import Reals Lra Lia ZArith.

Open Scope R_scope.

(** ** JavaScript numbers *)

Inductive num : Type :=
| Fin (r : R)
| PInf
| NInf
| NaN.

Module Num.

Definition zero : num := Fin 0.
Definition one : num := Fin 1.
Definition two : num := Fin 2.

(** [Number.isFinite]. *)
Definition isFinite (a : num) : bool :=
  match a with Fin _ => true | _ => false end.

Definition isNaN (a : num) : bool :=
  match a with NaN => true | _ => false end.

(** Unary minus. *)
Definition neg (a : num) : num :=
  match a with
  | Fin x => Fin (- x)
  | PInf => NInf
  | NInf => PInf
  | NaN => NaN
  end.

(** [a + b]. *)
Definition add (a b : num) : num :=
  match a, b with
  | NaN, _ | _, NaN => NaN
  | Fin x, Fin y => Fin (x + y)
  | PInf, NInf | NInf, PInf => NaN
  | PInf, _ | _, PInf => PInf
  | NInf, _ | _, NInf => NInf
  end.

(** [a - b]. *)
Definition sub (a b : num) : num := add a (neg b).

(** The product of an infinity with the finite value [x]: [pos] when [x]
    is positive, [neg] when it is negative, NaN when it is zero. *)
Definition bySign (x : R) (pos neg : num) : num :=
  if Rlt_dec 0 x then pos else if Rlt_dec x 0 then neg else NaN.

(** [a * b]. *)
Definition mul (a b : num) : num :=
  match a, b with
  | NaN, _ | _, NaN => NaN
  | Fin x, Fin y => Fin (x * y)
  | Fin x, PInf | PInf, Fin x => bySign x PInf NInf
  | Fin x, NInf | NInf, Fin x => bySign x NInf PInf
  | PInf, PInf | NInf, NInf => PInf
  | PInf, NInf | NInf, PInf => NInf
  end.

(** [a / b].  A finite non-zero value over zero is an infinity of the
    sign of the numerator, 0/0 is NaN, a finite value over an infinity is
    zero, and an infinity over a finite value keeps or flips its sign
    with the sign of the denominator (zero counting as positive). *)
Definition div (a b : num) : num :=
  match a, b with
  | NaN, _ | _, NaN => NaN
  | Fin x, Fin y =>
      if Req_dec_T y 0 then bySign x PInf NInf else Fin (x / y)
  | Fin _, PInf | Fin _, NInf => Fin 0
  | PInf, Fin y => if Rlt_dec y 0 then NInf else PInf
  | NInf, Fin y => if Rlt_dec y 0 then PInf else NInf
  | PInf, PInf | PInf, NInf | NInf, PInf | NInf, NInf => NaN
  end.

(** [a < b]; every comparison with NaN is false. *)
Definition ltb (a b : num) : bool :=
  match a, b with
  | NaN, _ | _, NaN => false
  | Fin x, Fin y => if Rlt_dec x y then true else false
  | NInf, Fin _ | NInf, PInf | Fin _, PInf => true
  | _, _ => false
  end.

(** [a > b]. *)
Definition gtb (a b : num) : bool := ltb b a.

(** [a <= b]. *)
Definition leb (a b : num) : bool :=
  match a, b with
  | NaN, _ | _, NaN => false
  | Fin x, Fin y => if Rle_dec x y then true else false
  | NInf, _ | _, PInf => true
  | _, _ => false
  end.

(** [a === b] on numbers: NaN differs from everything, itself included. *)
Definition strictEq (a b : num) : bool :=
  match a, b with
  | Fin x, Fin y => if Req_dec_T x y then true else false
  | PInf, PInf | NInf, NInf => true
  | _, _ => false
  end.

(** [Math.abs]. *)
Definition abs (a : num) : num :=
  match a with
  | Fin x => Fin (Rabs x)
  | PInf | NInf => PInf
  | NaN => NaN
  end.

(** [Math.sign]. *)
Definition sign (a : num) : num :=
  match a with
  | Fin x => if Rlt_dec 0 x then Fin 1 else if Rlt_dec x 0 then Fin (-1) else Fin 0
  | PInf => Fin 1
  | NInf => Fin (-1)
  | NaN => NaN
  end.

(** [Math.max] of two arguments: NaN as soon as one argument is NaN. *)
Definition max (a b : num) : num :=
  match a, b with
  | NaN, _ | _, NaN => NaN
  | Fin x, Fin y => Fin (Rmax x y)
  | PInf, _ | _, PInf => PInf
  | NInf, c | c, NInf => c
  end.

(** [Math.log10]. *)
Definition log10 (a : num) : num :=
  match a with
  | Fin x =>
      if Rlt_dec 0 x then Fin (ln x / ln 10)
      else if Rlt_dec x 0 then NaN else NInf
  | PInf => PInf
  | NInf => NaN
  | NaN => NaN
  end.

(** [10 ** a], the only use of exponentiation in the source. *)
Definition pow10 (a : num) : num :=
  match a with
  | Fin x => Fin (Rpower 10 x)
  | PInf => PInf
  | NInf => Fin 0
  | NaN => NaN
  end.

(** [Math.log], the natural logarithm. *)
Definition log (a : num) : num :=
  match a with
  | Fin x =>
      if Rlt_dec 0 x then Fin (ln x)
      else if Rlt_dec x 0 then NaN else NInf
  | PInf => PInf
  | NInf => NaN
  | NaN => NaN
  end.

(** [Math.sqrt]. *)
Definition sqrt (a : num) : num :=
  match a with
  | Fin x => if Rlt_dec x 0 then NaN else Fin (R_sqrt.sqrt x)
  | PInf => PInf
  | NInf => NaN
  | NaN => NaN
  end.

End Num.

Declare Scope num_scope.
Delimit Scope num_scope with num.
Bind Scope num_scope with num.
Infix "+" := Num.add : num_scope.
Infix "-" := Num.sub : num_scope.
Infix "*" := Num.mul : num_scope.
Infix "/" := Num.div : num_scope.
Infix "<?" := Num.ltb : num_scope.
Infix ">?" := Num.gtb : num_scope.
Infix "<=?" := Num.leb : num_scope.
Infix "===" := Num.strictEq (at level 70) : num_scope.
Coercion Fin : R >-> num.

(** ** Outcomes of a computation *)

(** A call returns a value, needs more fuel than it was given, or throws
  the [RangeError] of [new Array] on a negative length. *)
Inductive res (X : Type) : Type :=
| Ok (x : X)
| OutOfFuel
| RangeError.
Arguments Ok {X} x.
Arguments OutOfFuel {X}.
Arguments RangeError {X}.

#[global] Instance res_bind : MBind res := fun X Y k c =>
match c with
| Ok x => k x
| OutOfFuel => OutOfFuel
| RangeError => RangeError
end.

(** ** Global constants *)

Definition MAXITERATIONS : nat := 100.
Definition TOL : num := Fin 0.001.

(** ** Antoine equation constants *)

Record AntoineConstants : Type := mkConstants {
A : R;
B : R;
C : R;
mol_wt : R;
hVap : R
}.

Definition propaneConstants : AntoineConstants :=
{| A := 4.53678; B := 1149.36; C := 24.906;
   mol_wt := 44.097; hVap := 6986.24159 |}.

Definition butaneConstants : AntoineConstants :=
{| A := 4.35576; B := 1175.581; C := -2.071;
   mol_wt := 58.12; hVap := 9630.26533 |}.

Open Scope num_scope.

(** ** Utility functions *)

Definition molarToMass (molarRate composition : num)
    (lightConsts heavyConsts : AntoineConstants) : num :=
  let combinedMolWt :=
    composition * Fin (mol_wt lightConsts)
    + (Fin 1 - composition) * Fin (mol_wt heavyConsts) in
  combinedMolWt * molarRate.

Definition massToMolar (massRate composition : num)
    (lightConsts heavyConsts : AntoineConstants) : num :=
  let combinedMolWt :=
    composition * Fin (mol_wt lightConsts)
    + (Fin 1 - composition) * Fin (mol_wt heavyConsts) in
  massRate / combinedMolWt.

Definition calculateDuty (vaporizationRate liqComp : num)
    (lightAntConsts heavyAntConsts : AntoineConstants) : num :=
  let approxLatentHeat :=
    liqComp * Fin (hVap lightAntConsts)
    + (Fin 1 - liqComp) * Fin (hVap heavyAntConsts) in
  vaporizationRate * approxLatentHeat / Fin 1000.

(** ** Vapor-liquid equilibrium functions *)

Definition boilingPointTemperature (pressure : num) (antConsts : AntoineConstants) : num :=
  let pbar := pressure / Fin 14.503773773 in
  let logP := Num.log10 pbar in
  let tempK := Fin (B antConsts) / (Fin (A antConsts) - logP) - Fin (C antConsts) in
  (tempK - Fin 273.15) * Fin 9 / Fin 5 + Fin 32.

Definition vaporPressure (temperature : num) (antConsts : AntoineConstants) : num :=
  let tempK := (temperature - Fin 32) * Fin 5 / Fin 9 + Fin 273.15 in
  let logP := Fin (A antConsts) - (Fin (B antConsts) / (tempK + Fin (C antConsts))) in
  let Pbar := Num.pow10 logP in
  Pbar * Fin 14.503773773.

Definition binaryequilibriumEquationFromX
    (temperature pressure liqMolFrac : num) (lightAntConsts heavyAntConsts : AntoineConstants) : num :=
  let param1 := liqMolFrac * vaporPressure temperature lightAntConsts in
  let param2 := (Fin 1 - liqMolFrac) * vaporPressure temperature heavyAntConsts in
  pressure - (param1 + param2).

Definition binaryequilibriumEquationFromY
    (temperature pressure vaporMolFrac : num) (lightAntConsts heavyAntConsts : AntoineConstants) : num :=
  let param1 := vaporMolFrac * pressure / vaporPressure temperature lightAntConsts in
  let param2 := (Fin 1 - vaporMolFrac) * pressure / vaporPressure temperature heavyAntConsts in
  param1 + param2 - Fin 1.


(** The two equilibrium solves run the same bisection loop on different
    residual functions.  The loop variables are [minT], [maxT] and
    [tempGuess]; [residual] is the function evaluated in the loop
    condition. *)
Record bisection : Type := mkBisection {
  minT : num;
  maxT : num;
  tempGuess : num
}.

(** One evaluation of the loop condition followed, when the condition
    holds, by the loop body; [None] when the loop exits. *)
Definition bisectionStep (residual : num -> num) (s : bisection) : option bisection :=
  let result := residual (tempGuess s) in
  if Num.abs result >? TOL then
    if result >? Fin 0 then
      Some {| minT := minT s; maxT := tempGuess s;
              tempGuess := (minT s + tempGuess s) / Fin 2 |}
    else
      Some {| minT := tempGuess s; maxT := maxT s;
              tempGuess := (maxT s + tempGuess s) / Fin 2 |}
  else None.

Fixpoint bisectionLoop (fuel : nat) (residual : num -> num) (s : bisection) : res num :=
  match fuel with
  | O => OutOfFuel
  | S fuel' =>
      match bisectionStep residual s with
      | None => Ok (tempGuess s)
      | Some s' => bisectionLoop fuel' residual s'
      end
  end.

(** The loop variables before the first evaluation of the condition. *)
Definition bracket (pressure : num) (lightAntConsts heavyAntConsts : AntoineConstants) : bisection :=
  let maxT := boilingPointTemperature pressure lightAntConsts in
  let minT := boilingPointTemperature pressure heavyAntConsts in
  {| minT := minT; maxT := maxT; tempGuess := (maxT + minT) / Fin 2 |}.

Definition equilibriumTemperatureFromX (fuel : nat)
    (pressure liquidMolFrac : num) (lightAntConsts heavyAntConsts : AntoineConstants) : res num :=
  bisectionLoop fuel
    (fun tempGuess => binaryequilibriumEquationFromX tempGuess pressure liquidMolFrac lightAntConsts heavyAntConsts)
    (bracket pressure lightAntConsts heavyAntConsts).

Definition equilibriumTemperatureFromY (fuel : nat)
    (pressure vaporMolFrac : num) (lightAntConsts heavyAntConsts : AntoineConstants) : res num :=
  bisectionLoop fuel
    (fun tempGuess => binaryequilibriumEquationFromY tempGuess pressure vaporMolFrac lightAntConsts heavyAntConsts)
    (bracket pressure lightAntConsts heavyAntConsts).

Definition liqMolFraction (fuel : nat)
    (pressure vaporMolFrac : num) (lightAntConsts heavyAntConsts : AntoineConstants) : res num :=
  temperature ← equilibriumTemperatureFromY fuel pressure vaporMolFrac lightAntConsts heavyAntConsts;
  Ok (vaporMolFrac * pressure / vaporPressure temperature lightAntConsts).

Definition vapMolFraction (fuel : nat)
    (pressure liquidMolFrac : num) (lightAntConsts heavyAntConsts : AntoineConstants) : res num :=
  temperature ← equilibriumTemperatureFromX fuel pressure liquidMolFrac lightAntConsts heavyAntConsts;
  Ok (liquidMolFrac * vaporPressure temperature lightAntConsts / pressure).

(** ** Distillation material balance equations *)

Definition productRates (feedRate feedXp distillateXp bottomsXp : num) : num * num :=
  let distillateRate := feedRate * (feedXp - bottomsXp) / (distillateXp - bottomsXp) in
  let bottomsRate := feedRate - distillateRate in
  (distillateRate, bottomsRate).

Definition boilUpRatio (refluxRatio distillateRate bottomsRate : num) : num :=
  (refluxRatio + Fin 1) * distillateRate / bottomsRate.

Definition rectifyingOperatingLine (refluxRatio distillateMolFrac liquidMolFrac : num) : num :=
  refluxRatio / (refluxRatio + Fin 1) * liquidMolFrac + distillateMolFrac / (refluxRatio + Fin 1).

Definition strippingOperatingLine (boilUpRatio bottomsMolFrac vaporMolFraction : num) : num :=
  (vaporMolFraction + bottomsMolFrac / boilUpRatio) * boilUpRatio / (boilUpRatio + Fin 1).

(** ** Column stepping *)

(** The body of the [for] loop of [rectifyingSection], run [count] times
    on the loop variable [liqMolFrac]. *)
Fixpoint rectifyingLoop (count fuel : nat)
    (refluxRatio pressure distillateMolFrac : num)
    (lightAntConsts heavyAntConsts : AntoineConstants) (liqMolFrac : num) : res num :=
  match count with
  | O => Ok liqMolFrac
  | S count' =>
      let vapMolFrac := rectifyingOperatingLine refluxRatio distillateMolFrac liqMolFrac in
      liqMolFrac' ← liqMolFraction fuel pressure vapMolFrac lightAntConsts heavyAntConsts;
      rectifyingLoop count' fuel refluxRatio pressure distillateMolFrac
        lightAntConsts heavyAntConsts liqMolFrac'
  end.

(** [for (let i = 2; i <= feedTray; i++)] runs its body [feedTray - 1]
    times, and not at all when [feedTray < 2]. *)
Definition rectifyingSection (fuel : nat)
    (refluxRatio pressure distillateMolFrac : num) (feedTray : Z)
    (lightAntConsts heavyAntConsts : AntoineConstants) : res num :=
  liqMolFrac ← liqMolFraction fuel pressure distillateMolFrac lightAntConsts heavyAntConsts;
  rectifyingLoop (Z.to_nat (feedTray - 1)) fuel refluxRatio pressure distillateMolFrac
    lightAntConsts heavyAntConsts liqMolFrac.

(** The body of the [for] loop of [strippingSection], run [count] times on
    the loop variables [liqMolFrac] and [vapMolFrac]; the value of
    [liqMolFrac] after the loop is returned. *)
Fixpoint strippingLoop (count fuel : nat)
    (boilUpRatio pressure bottomsMolFrac : num)
    (lightAntConsts heavyAntConsts : AntoineConstants) (liqMolFrac vapMolFrac : num) : res num :=
  match count with
  | O => Ok liqMolFrac
  | S count' =>
      let liqMolFrac' := strippingOperatingLine boilUpRatio bottomsMolFrac vapMolFrac in
      vapMolFrac' ← vapMolFraction fuel pressure liqMolFrac' lightAntConsts heavyAntConsts;
      strippingLoop count' fuel boilUpRatio pressure bottomsMolFrac
        lightAntConsts heavyAntConsts liqMolFrac' vapMolFrac'
  end.

(** [for (let i = totalTrays; i >= feedTray; i--)] runs its body
    [totalTrays - feedTray + 1] times, and not at all when
    [totalTrays < feedTray]. *)
Definition strippingSection (fuel : nat)
    (boilUpRatio pressure bottomsMolFrac : num) (feedTray totalTrays : Z)
    (lightAntConsts heavyAntConsts : AntoineConstants) : res num :=
  let liqMolFrac := bottomsMolFrac in
  vapMolFrac ← vapMolFraction fuel pressure liqMolFrac lightAntConsts heavyAntConsts;
  strippingLoop (Z.to_nat (totalTrays - feedTray + 1)) fuel boilUpRatio pressure bottomsMolFrac
    lightAntConsts heavyAntConsts liqMolFrac vapMolFrac.

Definition feedTrayDelta (fuel : nat)
    (guessR feedRate xFeed xDistillate xBottoms pressure : num) (feedTray totalTrays : Z)
    (lightAntConsts heavyAntConsts : AntoineConstants) : res num :=
  let '(distillateRate, bottomsRate) := productRates feedRate xFeed xDistillate xBottoms in
  xRectifying ← rectifyingSection fuel guessR pressure xDistillate feedTray lightAntConsts heavyAntConsts;
  let boilUp := boilUpRatio guessR distillateRate bottomsRate in
  xStripping ← strippingSection fuel boilUp pressure xBottoms feedTray totalTrays lightAntConsts heavyAntConsts;
  Ok (xRectifying - xStripping).

Definition minimumRefluxRatio (fuel : nat)
    (feedXp distillateXp pressure : num) (lightAntConsts heavyAntConsts : AntoineConstants) : res num :=
  equilibriumYp ← vapMolFraction fuel pressure feedXp lightAntConsts heavyAntConsts;
  let slope := (distillateXp - equilibriumYp) / (distillateXp - feedXp) in
  Ok (slope / (Fin 1 - slope)).

(** ** Reflux-ratio solver *)

(** How the upper-bound search of [columnSolver] ends: by the [return]
    inside the loop, by its [break], or with the loop counter at
    [MAXITERATIONS]. *)
Inductive discovery : Type :=
| Returned (maxR : num)
| Broke (maxR residualHi : num)
| Exhausted (maxR residualHi : num).

(** The doubling loop; [k] is the number of iterations left and [delta]
    is [feedTrayDelta] at the arguments of [columnSolver]. *)
Fixpoint upperBoundLoop (k : nat) (delta : num -> res num)
    (residualLo maxR residualHi : num) : res discovery :=
  match k with
  | O => Ok (Exhausted maxR residualHi)
  | S k' =>
      let maxR := maxR * Fin 2 in
      residualHi ← delta maxR;
      if negb (Num.isFinite residualHi) then
        upperBoundLoop k' delta residualLo maxR residualHi
      else if Num.abs residualHi <? TOL then Ok (Returned maxR)
      else if negb (Num.sign residualHi === Num.sign residualLo) then
        Ok (Broke maxR residualHi)
      else upperBoundLoop k' delta residualLo maxR residualHi
  end.

(** The bisection loop on the reflux ratio; [i] is the number of
    iterations left. *)
Fixpoint refineLoop (i : nat) (delta : num -> res num) (minR maxR guessR : num) : res num :=
  match i with
  | O => Ok (Fin (-1))
  | S i' =>
      error ← delta guessR;
      if Num.abs error <? TOL then Ok guessR
      else if error <? Fin 0 then
        let maxR := guessR in
        refineLoop i' delta minR maxR ((maxR + minR) / Fin 2)
      else
        let minR := guessR in
        refineLoop i' delta minR maxR ((maxR + minR) / Fin 2)
  end.

Definition columnSolver (fuel : nat)
    (feedRate xFeed xDistillate xBottoms pressure : num) (feedTray totalTrays : Z)
    (lightAntConsts heavyAntConsts : AntoineConstants) : res num :=
  let delta := fun guessR =>
    feedTrayDelta fuel guessR feedRate xFeed xDistillate xBottoms pressure
      feedTray totalTrays lightAntConsts heavyAntConsts in
  minR ← minimumRefluxRatio fuel xFeed xDistillate pressure lightAntConsts heavyAntConsts;
  let minR := Num.max (Fin 1e-8) minR in
  residualLo ← delta minR;
  if Num.abs residualLo <? TOL then Ok minR
  else
    found ← upperBoundLoop MAXITERATIONS delta residualLo minR residualLo;
    match found with
    | Returned maxR => Ok maxR
    | Broke maxR residualHi | Exhausted maxR residualHi =>
        if negb (Num.isFinite residualHi) || (Num.sign residualHi === Num.sign residualLo)
        then Ok (Fin (-1))
        else refineLoop MAXITERATIONS delta minR maxR ((minR + maxR) / Fin 2)
    end.

(** ** Feasibility check *)

Definition minimumTrays (fuel : nat)
    (distillateXp bottomsXp pressure : num)
    (lightAntConsts heavyAntConsts : AntoineConstants) : res num :=
  topTemp ← equilibriumTemperatureFromX fuel pressure distillateXp lightAntConsts heavyAntConsts;
  let alphaTop := vaporPressure topTemp lightAntConsts / vaporPressure topTemp heavyAntConsts in
  bottomTemp ← equilibriumTemperatureFromX fuel pressure bottomsXp lightAntConsts heavyAntConsts;
  let alphaBottom :=
    vaporPressure bottomTemp lightAntConsts / vaporPressure bottomTemp heavyAntConsts in
  let averageAlpha := Num.sqrt (alphaTop * alphaBottom) in
  Ok (Num.log (distillateXp / (Fin 1 - distillateXp) * (Fin 1 - bottomsXp) / bottomsXp)
      / Num.log averageAlpha).

(** ** Tray data *)

Record Tray : Type := createTrayObject {
  trayNumber : Z;
  temperature : num;
  liqComp : num;
  vapComp : num;
  refluxRatio : num;
  boilUp : num
}.

(** A JavaScript array of trays; [None] is a slot that was never
    assigned. *)
Abbreviation trayArray := (list (option Tray)).

(** [new Array(n)] for an integer [n]: [n] empty slots, and a
    [RangeError] when [n] is negative or above the largest array length,
    [2^32 - 1]. *)
Definition newArray (n : Z) : res trayArray :=
  if ((n <? 0) || (4294967295 <? n))%Z then RangeError
  else Ok (replicate (Z.to_nat n) None).

(** [trays[i] = v].  An index past the end extends the array, leaving
    the slots in between empty; a negative index names a property and
    leaves the elements as they are. *)
Definition arraySet (trays : trayArray) (i : Z) (v : Tray) : trayArray :=
  if (i <? 0)%Z then trays
  else
    let n := Z.to_nat i in
    if (n <? length trays)%nat then <[n := Some v]> trays
    else trays ++ replicate (n - length trays) None ++ [Some v].

(** The variables the two loops of [generateColumnData] update. *)
Record columnData : Type := mkColumnData {
  cd_vapComp : num;
  cd_liqComp : num;
  cd_temp : num;
  cd_trays : trayArray
}.

(** The body of the first loop, [for (let i = 1; i <= feedTray; i++)],
    run [count] times from the index [i]. *)
Fixpoint rectifyingTrays (count fuel : nat) (i : Z)
    (xDistillate pressure refluxRatio boilUp : num)
    (lightAntConsts heavyAntConsts : AntoineConstants) (s : columnData) : res columnData :=
  match count with
  | O => Ok s
  | S count' =>
      let vapComp := rectifyingOperatingLine refluxRatio xDistillate (cd_liqComp s) in
      liqComp ← liqMolFraction fuel pressure vapComp lightAntConsts heavyAntConsts;
      temp ← equilibriumTemperatureFromX fuel pressure liqComp lightAntConsts heavyAntConsts;
      let trays := arraySet (cd_trays s) (i - 1)
                     (createTrayObject i temp liqComp vapComp refluxRatio boilUp) in
      rectifyingTrays count' fuel (i + 1) xDistillate pressure refluxRatio boilUp
        lightAntConsts heavyAntConsts
        {| cd_vapComp := vapComp; cd_liqComp := liqComp; cd_temp := temp; cd_trays := trays |}
  end.

(** The body of the second loop,
    [for (let i = totalTrays + 1; i > feedTray; i--)], run [count] times
    from the index [i]. *)
Fixpoint strippingTrays (count fuel : nat) (i : Z)
    (xBottoms pressure refluxRatio boilUp : num)
    (lightAntConsts heavyAntConsts : AntoineConstants) (s : columnData) : res columnData :=
  match count with
  | O => Ok s
  | S count' =>
      let liqComp := strippingOperatingLine boilUp xBottoms (cd_vapComp s) in
      vapComp ← vapMolFraction fuel pressure liqComp lightAntConsts heavyAntConsts;
      temp ← equilibriumTemperatureFromX fuel pressure liqComp lightAntConsts heavyAntConsts;
      let trays := arraySet (cd_trays s) (i - 1)
                     (createTrayObject i temp liqComp vapComp refluxRatio boilUp) in
      strippingTrays count' fuel (i - 1) xBottoms pressure refluxRatio boilUp
        lightAntConsts heavyAntConsts
        {| cd_vapComp := vapComp; cd_liqComp := liqComp; cd_temp := temp; cd_trays := trays |}
  end.

Definition generateColumnData (fuel : nat)
    (feedRate xFeed xDistillate xBottoms pressure : num) (feedTray totalTrays : Z)
    (refluxRatio : num) (lightAntConsts heavyAntConsts : AntoineConstants) : res trayArray :=
  let '(distillateRate, bottomsRate) := productRates feedRate xFeed xDistillate xBottoms in
  let boilUp := boilUpRatio refluxRatio distillateRate bottomsRate in
  trays ← newArray (totalTrays + 1);
  let s := {| cd_vapComp := Fin 0; cd_liqComp := xDistillate; cd_temp := Fin 0; cd_trays := trays |} in
  s ← rectifyingTrays (Z.to_nat feedTray) fuel 1 xDistillate pressure refluxRatio boilUp
         lightAntConsts heavyAntConsts s;
  let s := {| cd_vapComp := xBottoms; cd_liqComp := cd_liqComp s;
              cd_temp := cd_temp s; cd_trays := cd_trays s |} in
  s ← strippingTrays (Z.to_nat (totalTrays + 1 - feedTray)) fuel (totalTrays + 1)
         xBottoms pressure refluxRatio boilUp lightAntConsts heavyAntConsts s;
  Ok (cd_trays s).

Close Scope num_scope.

(** * The operating lines in binary64

    The two operating lines use only [+], [*] and [/], which the kernel's
    primitive floats compute as JavaScript does: IEEE 754 binary64,
    rounding to nearest, ties to even.  The equilibrium functions are not
    embedded here: [Math.log10] and [**] have no primitive counterpart.
    A decimal literal denotes the binary64 value nearest to it, as in
    JavaScript. *)

Set Warnings "-inexact-float".

Module Binary64.

Definition rectifyingOperatingLine (refluxRatio distillateMolFrac liquidMolFrac : float) : float :=
  (refluxRatio / (refluxRatio + 1) * liquidMolFrac + distillateMolFrac / (refluxRatio + 1))%float.

Definition strippingOperatingLine (boilUpRatio bottomsMolFrac vaporMolFraction : float) : float :=
  ((vaporMolFraction + bottomsMolFrac / boilUpRatio) * boilUpRatio / (boilUpRatio + 1))%float.

End Binary64.

(** * Properties *)

(** ** Arithmetic of finite values *)

Section FiniteArithmetic.

Variables a b : R.

Lemma add_fin : (Fin a + Fin b)%num = Fin (a + b).
Proof. reflexivity. Qed.

Lemma sub_fin : (Fin a - Fin b)%num = Fin (a - b).
Proof. reflexivity. Qed.

Lemma mul_fin : (Fin a * Fin b)%num = Fin (a * b).
Proof. reflexivity. Qed.

Lemma div_fin : b <> 0 -> (Fin a / Fin b)%num = Fin (a / b).
Proof.
  intros Hb. unfold Num.div. destruct (Req_dec_T b 0); [contradiction | reflexivity].
Qed.

Lemma ltb_fin : (Fin a <? Fin b)%num = true <-> a < b.
Proof.
  unfold Num.ltb. destruct (Rlt_dec a b); split; intros; try easy.
Qed.

Lemma ltb_fin_false : (Fin a <? Fin b)%num = false <-> b <= a.
Proof.
  unfold Num.ltb. destruct (Rlt_dec a b); split; intros; try easy; lra.
Qed.

Lemma gtb_fin : (Fin a >? Fin b)%num = true <-> b < a.
Proof.
  unfold Num.gtb, Num.ltb. destruct (Rlt_dec b a); split; intros; try easy.
Qed.

Lemma gtb_fin_false : (Fin a >? Fin b)%num = false <-> a <= b.
Proof.
  unfold Num.gtb, Num.ltb. destruct (Rlt_dec b a); split; intros; try easy; lra.
Qed.

End FiniteArithmetic.

Create Rewrite HintDb fin.
#[global] Hint Rewrite add_fin sub_fin mul_fin : fin.
#[global] Hint Rewrite div_fin using lra : fin.

(** ** Material balance *)

(** C5.  For compositions ordered [xB < xF < xD], the distillate and
    bottoms rates computed by [productRates] conserve total mass and the
    mass of the light component: [D + B = F] and [D*xD + B*xB = F*xF],
    with the operations of the program on exact finite values. *)
Theorem productRates_mass_conservation (F xF xD xB : R) :
  xB < xF < xD ->
  let '(D, Bo) := productRates (Fin F) (Fin xF) (Fin xD) (Fin xB) in
  (D + Bo)%num = Fin F /\
  (D * Fin xD + Bo * Fin xB)%num = (Fin F * Fin xF)%num.
Proof.
  intros [HBF HFD]. unfold productRates.
  autorewrite with fin. split; f_equal; field; lra.
Qed.

Lemma productRates_mass_conservation_witness :
  0.05 < 0.5 < 0.95 /\
  let '(D, Bo) := productRates (Fin 1000) (Fin 0.5) (Fin 0.95) (Fin 0.05) in
  (D + Bo)%num = Fin 1000 /\
  (D * Fin 0.95 + Bo * Fin 0.05)%num = (Fin 1000 * Fin 0.5)%num.
Proof.
  split; [lra | apply (productRates_mass_conservation 1000 0.5 0.95 0.05); lra].
Defined.

(** ** Antoine equation *)

Lemma ln_10_pos : 0 < ln 10.
Proof. rewrite <- ln_1. apply ln_increasing; lra. Qed.

Lemma log10_pow10 (x : R) : Num.log10 (Num.pow10 (Fin x)) = Fin x.
Proof.
  simpl. destruct (Rlt_dec 0 (Rpower 10 x)) as [_ | Hn].
  - f_equal. unfold Rpower. rewrite ln_exp. field.
    pose proof ln_10_pos; lra.
  - exfalso. apply Hn. unfold Rpower. apply exp_pos.
Qed.

(** The temperature in kelvin of a temperature in degrees Fahrenheit, as
    [vaporPressure] computes it. *)
Definition kelvin (T : R) : R := (T - 32) * 5 / 9 + 273.15.

(** The value of [vaporPressure] at a finite temperature where the
    Antoine expression is defined. *)
Lemma vaporPressure_fin (T : R) (c : AntoineConstants) :
  kelvin T + C c <> 0 ->
  vaporPressure (Fin T) c
  = Fin (Rpower 10 (A c - B c / (kelvin T + C c)) * 14.503773773).
Proof.
  intros Hd. unfold vaporPressure, kelvin in *.
  autorewrite with fin. reflexivity.
Qed.

(** C4.  [boilingPointTemperature] inverts [vaporPressure]: at every
    finite temperature [T] and for every constants record for which the
    two Antoine expressions are defined ([T_K + C] is not zero, and [B] is
    not zero so that [A - log10 P] is not zero either), the boiling point
    at the vapor pressure of [T] is [T] itself, exactly. *)
Theorem boilingPoint_of_vaporPressure (T : R) (c : AntoineConstants) :
  kelvin T + C c <> 0 ->
  B c <> 0 ->
  boilingPointTemperature (vaporPressure (Fin T) c) c = Fin T.
Proof.
  intros Hd HB. rewrite vaporPressure_fin by exact Hd.
  unfold boilingPointTemperature.
  set (L := A c - B c / (kelvin T + C c)).
  rewrite div_fin by lra.
  replace (Rpower 10 L * 14.503773773 / 14.503773773) with (Rpower 10 L) by (field; lra).
  change (Fin (Rpower 10 L)) with (Num.pow10 (Fin L)).
  rewrite log10_pow10. rewrite sub_fin.
  assert (HAL : A c - L = B c / (kelvin T + C c)) by (unfold L; ring).
  assert (Hq : B c / (kelvin T + C c) <> 0).
  { unfold Rdiv. apply Rmult_integral_contrapositive_currified; [exact HB|].
    apply Rinv_neq_0_compat; exact Hd. }
  rewrite HAL. rewrite div_fin by exact Hq.
  autorewrite with fin. f_equal. unfold kelvin in *. field.
  split; [intros Hz; apply Hd; lra | exact HB].
Qed.

Lemma boilingPoint_of_vaporPressure_witness :
  boilingPointTemperature (vaporPressure (Fin 100) propaneConstants) propaneConstants
  = Fin 100.
Proof.
  apply (boilingPoint_of_vaporPressure 100 propaneConstants);
    unfold kelvin; simpl; lra.
Defined.

(** ** Reflux-ratio solver: what it can return *)

Lemma bind_Ok {X Y : Type} (c : res X) (k : X -> res Y) (y : Y) :
  (x ← c; k x) = Ok y -> exists x, c = Ok x /\ k x = Ok y.
Proof.
  destruct c as [x | |]; simpl; intros H; try discriminate.
  exists x. split; [reflexivity | exact H].
Qed.

Tactic Notation "bind_inv" hyp(H) "as" ident(x) ident(Hx) :=
  apply bind_Ok in H; destruct H as (x & Hx & H).

(** A reflux ratio at which the residual [delta] is within tolerance. *)
Definition converged (delta : num -> res num) (r : num) : Prop :=
  exists d : num, delta r = Ok d /\ (Num.abs d <? TOL)%num = true.

Section SolverLoops.

Variable delta : num -> res num.

Lemma upperBoundLoop_Returned (k : nat) (residualLo maxR residualHi r : num) :
  upperBoundLoop k delta residualLo maxR residualHi = Ok (Returned r) ->
  converged delta r.
Proof.
  revert maxR residualHi.
  induction k as [| k IH]; intros maxR residualHi H; simpl in H.
  - discriminate.
  - bind_inv H as x Hx.
    destruct (negb (Num.isFinite x)); [eauto |].
    destruct (Num.abs x <? TOL)%num eqn:Htol.
    + injection H as <-. exists x. split; assumption.
    + destruct (negb (Num.sign x === Num.sign residualLo)%num); [discriminate | eauto].
Qed.

Lemma refineLoop_result (i : nat) (minR maxR guessR r : num) :
  refineLoop i delta minR maxR guessR = Ok r ->
  r = Fin (-1) \/ converged delta r.
Proof.
  revert minR maxR guessR.
  induction i as [| i IH]; intros minR maxR guessR H; simpl in H.
  - injection H as <-. left; reflexivity.
  - bind_inv H as x Hx.
    destruct (Num.abs x <? TOL)%num eqn:Htol.
    + injection H as <-. right. exists x. split; assumption.
    + destruct (x <? Fin 0)%num; eauto.
Qed.

Lemma sign_strictEq_refl (x : num) :
  Num.isFinite x = true -> (Num.sign x === Num.sign x)%num = true.
Proof.
  destruct x as [r | | |]; simpl; try discriminate. intros _.
  destruct (Rlt_dec 0 r); [| destruct (Rlt_dec r 0)]; simpl;
    match goal with |- context [Req_dec_T ?u ?v] => destruct (Req_dec_T u v) end;
    congruence.
Qed.

(** The trial reflux ratio after [j] runs of [maxR *= 2]. *)
Fixpoint doubled (maxR : num) (j : nat) : num :=
  match j with
  | O => maxR
  | S j' => doubled (maxR * Fin 2)%num j'
  end.

(** A residual that does not end the search for an upper bound: it is
    not finite, or it is beyond the tolerance and has the sign of the
    residual at the lower bound. *)
Definition skips (residualLo d : num) : Prop :=
  Num.isFinite d = false \/
  ((Num.abs d <? TOL)%num = false /\ (Num.sign d === Num.sign residualLo)%num = true).

Lemma skips_sentinel_test (residualLo d : num) :
  skips residualLo d ->
  negb (Num.isFinite d) || (Num.sign d === Num.sign residualLo)%num = true.
Proof.
  intros [Hf | [_ Hs]]; [rewrite Hf; reflexivity | rewrite Hs; apply orb_true_r].
Qed.

(** After [n] residuals that skip, the search is at the ratio doubled
    [n] times, with as many iterations less to run. *)
Lemma upperBoundLoop_skips (n : nat) :
  forall (k : nat) (residualLo maxR residualHi : num) (r : nat -> num),
    (forall j : nat, (1 <= j <= n)%nat ->
       delta (doubled maxR j) = Ok (r j) /\ skips residualLo (r j)) ->
    upperBoundLoop (n + k) delta residualLo maxR residualHi
    = upperBoundLoop k delta residualLo (doubled maxR n)
        (match n with O => residualHi | S _ => r n end).
Proof.
  induction n as [| n IH]; intros k residualLo maxR residualHi r Hskip; [reflexivity |].
  destruct (Hskip 1%nat) as [Hd Hs]; [lia |].
  cbn [doubled] in Hd. cbn [Nat.add upperBoundLoop]. cbv zeta.
  rewrite Hd. cbn [mbind res_bind].
  assert (Hnext : (if negb (Num.isFinite (r 1%nat))
                   then upperBoundLoop (n + k) delta residualLo (maxR * Fin 2)%num (r 1%nat)
                   else if (Num.abs (r 1%nat) <? TOL)%num then Ok (Returned (maxR * Fin 2)%num)
                   else if negb (Num.sign (r 1%nat) === Num.sign residualLo)%num
                   then Ok (Broke (maxR * Fin 2)%num (r 1%nat))
                   else upperBoundLoop (n + k) delta residualLo (maxR * Fin 2)%num (r 1%nat))
                  = upperBoundLoop (n + k) delta residualLo (maxR * Fin 2)%num (r 1%nat)).
  { destruct Hs as [Hf | [Ht Hsg]].
    - rewrite Hf. reflexivity.
    - rewrite Ht, Hsg. destruct (negb (Num.isFinite (r 1%nat))); reflexivity. }
  rewrite Hnext.
  rewrite (IH k residualLo (maxR * Fin 2)%num (r 1%nat) (fun j => r (S j))).
  - cbn [doubled]. destruct n; reflexivity.
  - intros j Hj. apply (Hskip (S j)). lia.
Qed.

(** The search ends at the first residual that does not skip: by its
    [return] when that residual is within the tolerance, by its [break]
    otherwise, in both cases at the ratio doubled as many times as
    residuals were evaluated. *)
Lemma upperBoundLoop_stops (n k : nat) (residualLo maxR residualHi d : num) (r : nat -> num) :
  (forall j : nat, (1 <= j <= n)%nat ->
     delta (doubled maxR j) = Ok (r j) /\ skips residualLo (r j)) ->
  delta (doubled maxR (S n)) = Ok d ->
  Num.isFinite d = true ->
  upperBoundLoop (n + S k) delta residualLo maxR residualHi
  = if (Num.abs d <? TOL)%num then Ok (Returned (doubled maxR (S n)))
    else if negb (Num.sign d === Num.sign residualLo)%num
         then Ok (Broke (doubled maxR (S n)) d)
         else upperBoundLoop k delta residualLo (doubled maxR (S n)) d.
Proof.
  intros Hskip Hd Hf.
  rewrite (upperBoundLoop_skips n (S k) residualLo maxR residualHi r Hskip).
  cbn [upperBoundLoop]. cbv zeta.
  assert (Hshift : forall (m : num) (i : nat),
             doubled (m * Fin 2)%num i = (doubled m i * Fin 2)%num).
  { intros m i. revert m. induction i as [| i IHi]; intros m; [reflexivity |].
    cbn [doubled]. apply IHi. }
  assert (Hnext : (doubled maxR n * Fin 2)%num = doubled maxR (S n)).
  { cbn [doubled]. symmetry. apply Hshift. }
  rewrite Hnext, Hd. cbn [mbind res_bind]. rewrite Hf. reflexivity.
Qed.

(** When every residual skips, the search uses up its iterations. *)
Lemma upperBoundLoop_exhausts (n : nat) (residualLo maxR residualHi : num) (r : nat -> num) :
  (forall j : nat, (1 <= j <= S n)%nat ->
     delta (doubled maxR j) = Ok (r j) /\ skips residualLo (r j)) ->
  upperBoundLoop (S n) delta residualLo maxR residualHi
  = Ok (Exhausted (doubled maxR (S n)) (r (S n))).
Proof.
  intros Hskip.
  replace (S n) with (S n + 0)%nat at 1 by lia.
  rewrite (upperBoundLoop_skips (S n) 0 residualLo maxR residualHi r Hskip).
  reflexivity.
Qed.

End SolverLoops.

(** C1.  Whenever [columnSolver] returns, the value returned is the
    sentinel [-1] or a reflux ratio [R] at which [feedTrayDelta], called
    with the same arguments, is within the tolerance: [|delta| < TOL]. *)
Theorem columnSolver_returns_sentinel_or_converged
    (fuel : nat) (feedRate xFeed xDistillate xBottoms pressure : num)
    (feedTray totalTrays : Z) (lightAntConsts heavyAntConsts : AntoineConstants) (r : num) :
  columnSolver fuel feedRate xFeed xDistillate xBottoms pressure feedTray totalTrays
    lightAntConsts heavyAntConsts = Ok r ->
  r = Fin (-1) \/
  exists d : num,
    feedTrayDelta fuel r feedRate xFeed xDistillate xBottoms pressure feedTray totalTrays
      lightAntConsts heavyAntConsts = Ok d /\
    (Num.abs d <? TOL)%num = true.
Proof.
  unfold columnSolver. intros H.
  bind_inv H as minR0 HminR. bind_inv H as x0 Hlo.
  destruct (Num.abs x0 <? TOL)%num eqn:Htol.
  - injection H as <-. right. exists x0. split; assumption.
  - bind_inv H as found Hfound. destruct found as [m | m rh | m rh].
    + injection H as <-. right.
      apply upperBoundLoop_Returned in Hfound. exact Hfound.
    + destruct (negb (Num.isFinite rh) || (Num.sign rh === Num.sign x0)%num).
      * injection H as <-. left; reflexivity.
      * apply refineLoop_result in H. exact H.
    + destruct (negb (Num.isFinite rh) || (Num.sign rh === Num.sign x0)%num).
      * injection H as <-. left; reflexivity.
      * apply refineLoop_result in H. exact H.
Qed.

Lemma columnSolver_returns_sentinel_or_converged_witness :
  Fin (-1) = Fin (-1) \/
  exists d : num,
    feedTrayDelta 1 (Fin (-1)) (Fin 1000) (Fin 0.5) (Fin 0.95) (Fin 0.05) NaN 5 10
      propaneConstants butaneConstants = Ok d /\
    (Num.abs d <? TOL)%num = true.
Proof.
  apply (columnSolver_returns_sentinel_or_converged
           1 (Fin 1000) (Fin 0.5) (Fin 0.95) (Fin 0.05) NaN 5 10
           propaneConstants butaneConstants (Fin (-1))).
  reflexivity.
Defined.

(** C7.  In the upper-bound search of [columnSolver], a residual that is
    not finite never stops the search, and neither does one beyond the
    tolerance with the sign of the residual at the lower bound: after [n]
    such residuals the trial reflux ratio is the floored minimum doubled
    [n] times, and the next residual decides.  When all 100 residuals are
    of that kind the cap is exhausted, the last residual evaluated is not
    finite or same-signed, and [columnSolver] returns the sentinel [-1].
    When the residual after [n < 100] of them is finite, [columnSolver]
    returns the ratio doubled [n + 1] times if that residual is within the
    tolerance, and starts its bisection with that ratio as upper bound if
    it has the other sign. *)
Theorem upper_bound_search_sentinel
    (fuel : nat) (feedRate xFeed xDistillate xBottoms pressure : num)
    (feedTray totalTrays : Z) (lightAntConsts heavyAntConsts : AntoineConstants)
    (minR0 residualLo : num) (r : nat -> num) :
  let delta := fun guessR =>
    feedTrayDelta fuel guessR feedRate xFeed xDistillate xBottoms pressure
      feedTray totalTrays lightAntConsts heavyAntConsts in
  let minR := Num.max (Fin 1e-8) minR0 in
  minimumRefluxRatio fuel xFeed xDistillate pressure lightAntConsts heavyAntConsts
  = Ok minR0 ->
  delta minR = Ok residualLo ->
  (Num.abs residualLo <? TOL)%num = false ->
  ((forall j : nat, (1 <= j <= MAXITERATIONS)%nat ->
      delta (doubled minR j) = Ok (r j) /\ skips residualLo (r j)) ->
   columnSolver fuel feedRate xFeed xDistillate xBottoms pressure feedTray totalTrays
     lightAntConsts heavyAntConsts = Ok (Fin (-1))) /\
  (forall (n : nat) (d : num),
      (n < MAXITERATIONS)%nat ->
      (forall j : nat, (1 <= j <= n)%nat ->
         delta (doubled minR j) = Ok (r j) /\ skips residualLo (r j)) ->
      delta (doubled minR (S n)) = Ok d ->
      Num.isFinite d = true ->
      ((Num.abs d <? TOL)%num = true ->
       columnSolver fuel feedRate xFeed xDistillate xBottoms pressure feedTray totalTrays
         lightAntConsts heavyAntConsts = Ok (doubled minR (S n))) /\
      ((Num.abs d <? TOL)%num = false ->
       (Num.sign d === Num.sign residualLo)%num = false ->
       columnSolver fuel feedRate xFeed xDistillate xBottoms pressure feedTray totalTrays
         lightAntConsts heavyAntConsts
       = refineLoop MAXITERATIONS delta minR (doubled minR (S n))
           ((minR + doubled minR (S n)) / Fin 2)%num)).
Proof.
  intros delta minR HminR Hlo Htol.
  assert (Hsolver :
            columnSolver fuel feedRate xFeed xDistillate xBottoms pressure feedTray totalTrays
              lightAntConsts heavyAntConsts
            = (found ← upperBoundLoop MAXITERATIONS delta residualLo minR residualLo;
               match found with
               | Returned maxR => Ok maxR
               | Broke maxR residualHi | Exhausted maxR residualHi =>
                   if negb (Num.isFinite residualHi)
                      || (Num.sign residualHi === Num.sign residualLo)%num
                   then Ok (Fin (-1))
                   else refineLoop MAXITERATIONS delta minR maxR
                          ((minR + maxR) / Fin 2)%num
               end)).
  { unfold columnSolver. rewrite HminR. cbn [mbind res_bind]. cbv beta zeta.
    fold minR. fold delta.
    assert (Hlo' := Hlo). unfold delta in Hlo' at 1. cbv beta in Hlo'.
    rewrite Hlo'. cbn [mbind res_bind]. rewrite Htol. reflexivity. }
  split.
  - intros Hskip. rewrite Hsolver.
    change (upperBoundLoop MAXITERATIONS delta residualLo minR residualLo)
      with (upperBoundLoop (S 99) delta residualLo minR residualLo).
    rewrite (upperBoundLoop_exhausts delta 99 residualLo minR residualLo r Hskip).
    cbn [mbind res_bind].
    destruct (Hskip MAXITERATIONS) as [_ Hlast]; [unfold MAXITERATIONS; lia |].
    change (r (S 99)) with (r MAXITERATIONS).
    rewrite (skips_sentinel_test _ _ Hlast). reflexivity.
  - intros n d Hn Hskip Hd Hf.
    assert (Hloop : upperBoundLoop MAXITERATIONS delta residualLo minR residualLo
                    = if (Num.abs d <? TOL)%num then Ok (Returned (doubled minR (S n)))
                      else if negb (Num.sign d === Num.sign residualLo)%num
                           then Ok (Broke (doubled minR (S n)) d)
                           else upperBoundLoop (MAXITERATIONS - S n) delta residualLo
                                  (doubled minR (S n)) d).
    { replace MAXITERATIONS with (n + S (MAXITERATIONS - S n))%nat at 1 by lia.
      apply upperBoundLoop_stops with (r := r); assumption. }
    split.
    + intros Hconv. rewrite Hsolver, Hloop, Hconv. reflexivity.
    + intros Hbeyond Hsign. rewrite Hsolver, Hloop, Hbeyond, Hsign.
      cbn [negb mbind res_bind]. rewrite Hf, Hsign. reflexivity.
Qed.

(** ** The tray array *)

Lemma arraySet_of_nat (trays : trayArray) (n : nat) (v : Tray) :
  (n < length trays)%nat ->
  arraySet trays (Z.of_nat n + 1 - 1) v = <[n := Some v]> trays.
Proof.
  intros Hn. unfold arraySet.
  replace (Z.of_nat n + 1 - 1)%Z with (Z.of_nat n) by lia.
  destruct (Z.ltb_spec (Z.of_nat n) 0); [lia |].
  rewrite Nat2Z.id.
  destruct (Nat.ltb_spec n (length trays)); [reflexivity | lia].
Qed.

Lemma arraySet_length_ge (trays : trayArray) (i : Z) (v : Tray) :
  (length trays <= length (arraySet trays i v))%nat.
Proof.
  unfold arraySet. destruct (i <? 0)%Z; [lia |].
  destruct (Z.to_nat i <? length trays)%nat.
  - rewrite length_insert. lia.
  - rewrite length_app. lia.
Qed.

Lemma arraySet_lookup_eq (trays : trayArray) (i : Z) (v : Tray) :
  (0 <= i)%Z -> arraySet trays i v !! Z.to_nat i = Some (Some v).
Proof.
  intros Hi. unfold arraySet.
  destruct (Z.ltb_spec i 0); [lia |].
  destruct (Nat.ltb_spec (Z.to_nat i) (length trays)) as [Hlt | Hge].
  - apply list_lookup_insert_eq. exact Hlt.
  - rewrite lookup_app_r by exact Hge.
    rewrite lookup_app_r by (rewrite length_replicate; lia).
    rewrite length_replicate.
    replace (Z.to_nat i - length trays - (Z.to_nat i - length trays))%nat with 0%nat by lia.
    reflexivity.
Qed.

Lemma arraySet_lookup_ne (trays : trayArray) (i : Z) (v : Tray) (j : nat) :
  (j < length trays)%nat -> j <> Z.to_nat i ->
  arraySet trays i v !! j = trays !! j.
Proof.
  intros Hj Hne. unfold arraySet.
  destruct (i <? 0)%Z; [reflexivity |].
  destruct (Z.to_nat i <? length trays)%nat.
  - apply list_lookup_insert_ne. congruence.
  - apply lookup_app_l. exact Hj.
Qed.

Section Marches.

Variable fuel : nat.
Variables xDistillate xBottoms pressure refluxRatio boilUp : num.
Variables lightAntConsts heavyAntConsts : AntoineConstants.

(** The first loop of [generateColumnData], started at the index
    [n + 1] on an array with room for its [count] writes: the slots
    [n .. n + count - 1] hold the trays numbered [n + 1 .. n + count] and
    the other slots are untouched. *)
Lemma rectifyingTrays_slots (count : nat) :
  forall (n : nat) (s s' : columnData),
    (n + count <= length (cd_trays s))%nat ->
    rectifyingTrays count fuel (Z.of_nat n + 1) xDistillate pressure refluxRatio boilUp
      lightAntConsts heavyAntConsts s = Ok s' ->
    length (cd_trays s') = length (cd_trays s) /\
    (forall j : nat, (n <= j < n + count)%nat ->
       exists t : Tray, cd_trays s' !! j = Some (Some t) /\ trayNumber t = (Z.of_nat j + 1)%Z) /\
    (forall j : nat, ~ (n <= j < n + count)%nat -> cd_trays s' !! j = cd_trays s !! j).
Proof.
  induction count as [| count IH]; intros n s s' Hroom H; simpl in H.
  - injection H as <-. split; [reflexivity |]. split; [intros j Hj; lia | reflexivity].
  - bind_inv H as liq Hliq. bind_inv H as temp Htemp.
    rewrite arraySet_of_nat in H by lia.
    replace (Z.of_nat n + 1 + 1)%Z with (Z.of_nat (S n) + 1)%Z in H by lia.
    apply IH in H; [| simpl; rewrite length_insert; lia].
    simpl in H. rewrite length_insert in H.
    destruct H as (Hlen & Hin & Hout).
    split; [exact Hlen |]. split.
    + intros j Hj. destruct (decide (j = n)) as [-> | Hne].
      * rewrite Hout by lia. rewrite list_lookup_insert_eq by lia.
        eexists; split; [reflexivity | reflexivity].
      * apply Hin. lia.
    + intros j Hj. rewrite Hout by lia.
      apply list_lookup_insert_ne. lia.
Qed.

(** The second loop, started at the index [n + 1] with [count <= n + 1]:
    the slots [n - count + 1 .. n] hold the trays numbered
    [n - count + 2 .. n + 1], the other slots are untouched, and the tray
    written first holds the liquid composition given by the stripping
    operating line at the incoming vapor composition. *)
Lemma strippingTrays_slots (count : nat) :
  forall (n : nat) (s s' : columnData),
    (n < length (cd_trays s))%nat -> (count <= n + 1)%nat ->
    strippingTrays count fuel (Z.of_nat n + 1) xBottoms pressure refluxRatio boilUp
      lightAntConsts heavyAntConsts s = Ok s' ->
    length (cd_trays s') = length (cd_trays s) /\
    (forall j : nat, (n + 1 - count <= j <= n)%nat ->
       exists t : Tray, cd_trays s' !! j = Some (Some t) /\ trayNumber t = (Z.of_nat j + 1)%Z) /\
    (forall j : nat, ~ (n + 1 - count <= j <= n)%nat -> cd_trays s' !! j = cd_trays s !! j) /\
    ((0 < count)%nat ->
       exists t : Tray, cd_trays s' !! n = Some (Some t) /\
         liqComp t = strippingOperatingLine boilUp xBottoms (cd_vapComp s)).
Proof.
  induction count as [| count IH]; intros n s s' Hn Hcount H; simpl in H.
  - injection H as <-. split; [reflexivity |].
    split; [intros j Hj; lia |]. split; [reflexivity | lia].
  - bind_inv H as vap Hvap. bind_inv H as temp Htemp.
    rewrite arraySet_of_nat in H by lia.
    destruct count as [| count].
    + simpl in H. injection H as <-. simpl. rewrite length_insert.
      split; [reflexivity |]. split; [| split].
      * intros j Hj. assert (j = n) as -> by lia.
        rewrite list_lookup_insert_eq by lia.
        eexists; split; reflexivity.
      * intros j Hj. apply list_lookup_insert_ne. lia.
      * intros _. rewrite list_lookup_insert_eq by lia.
        eexists; split; reflexivity.
    + destruct n as [| n]; [lia |].
      replace (Z.of_nat (S n) + 1 - 1)%Z with (Z.of_nat n + 1)%Z in H by lia.
      apply IH in H; [| simpl; rewrite length_insert; lia | lia].
      simpl in H. rewrite length_insert in H.
      destruct H as (Hlen & Hin & Hout & _).
      split; [exact Hlen |]. split; [| split].
      * intros j Hj. destruct (decide (j = S n)) as [-> | Hne].
        -- rewrite Hout by lia. rewrite list_lookup_insert_eq by lia.
           eexists; split; reflexivity.
        -- apply Hin. lia.
      * intros j Hj. rewrite Hout by lia.
        apply list_lookup_insert_ne. lia.
      * intros _. rewrite Hout by lia. rewrite list_lookup_insert_eq by lia.
        eexists; split; reflexivity.
Qed.

End Marches.

(** Only [new Array] throws. *)
Lemma bind_noThrow {X Y : Type} (c : res X) (k : X -> res Y) :
  c <> RangeError -> (forall x, k x <> RangeError) -> (x ← c; k x) <> RangeError.
Proof.
  intros Hc Hk. destruct c as [x | |]; simpl; [apply Hk | discriminate | congruence].
Qed.

Lemma bisectionLoop_noThrow (fuel : nat) (residual : num -> num) (s : bisection) :
  bisectionLoop fuel residual s <> RangeError.
Proof.
  revert s. induction fuel as [| fuel IH]; intros s; simpl; [discriminate |].
  destruct (bisectionStep residual s); [apply IH | discriminate].
Qed.

Lemma liqMolFraction_noThrow (fuel : nat) (pressure y : num) (l h : AntoineConstants) :
  liqMolFraction fuel pressure y l h <> RangeError.
Proof.
  apply bind_noThrow; [apply bisectionLoop_noThrow | discriminate].
Qed.

Lemma vapMolFraction_noThrow (fuel : nat) (pressure x : num) (l h : AntoineConstants) :
  vapMolFraction fuel pressure x l h <> RangeError.
Proof.
  apply bind_noThrow; [apply bisectionLoop_noThrow | discriminate].
Qed.

Lemma rectifyingTrays_noThrow (count fuel : nat) (i : Z) (xD P R S : num)
    (l h : AntoineConstants) (s : columnData) :
  rectifyingTrays count fuel i xD P R S l h s <> RangeError.
Proof.
  revert i s. induction count as [| count IH]; intros i s; simpl; [discriminate |].
  apply bind_noThrow; [apply liqMolFraction_noThrow | intros liq].
  apply bind_noThrow; [apply bisectionLoop_noThrow | intros temp]. apply IH.
Qed.

Lemma strippingTrays_noThrow (count fuel : nat) (i : Z) (xB P R S : num)
    (l h : AntoineConstants) (s : columnData) :
  strippingTrays count fuel i xB P R S l h s <> RangeError.
Proof.
  revert i s. induction count as [| count IH]; intros i s; simpl; [discriminate |].
  apply bind_noThrow; [apply vapMolFraction_noThrow | intros vap].
  apply bind_noThrow; [apply bisectionLoop_noThrow | intros temp]. apply IH.
Qed.

(** The array [generateColumnData] returns for
    [1 <= feedTray <= totalTrays]: [totalTrays + 1] slots, none of them
    empty, the slot [i - 1] holding the tray numbered [i], and the last
    tray holding the liquid composition the stripping operating line gives
    at the bottoms composition. *)
Lemma generateColumnData_slots
    (fuel : nat) (feedRate xFeed xDistillate xBottoms pressure : num)
    (feedTray totalTrays : Z) (refluxRatio : num)
    (lightAntConsts heavyAntConsts : AntoineConstants) (trays : trayArray) :
  (1 <= feedTray <= totalTrays)%Z ->
  generateColumnData fuel feedRate xFeed xDistillate xBottoms pressure feedTray totalTrays
    refluxRatio lightAntConsts heavyAntConsts = Ok trays ->
  length trays = Z.to_nat (totalTrays + 1) /\
  (forall i : Z, (1 <= i <= totalTrays + 1)%Z ->
     exists t : Tray, trays !! Z.to_nat (i - 1) = Some (Some t) /\ trayNumber t = i) /\
  (exists t : Tray,
     trays !! Z.to_nat totalTrays = Some (Some t) /\
     trayNumber t = (totalTrays + 1)%Z /\
     let '(distillateRate, bottomsRate) := productRates feedRate xFeed xDistillate xBottoms in
     liqComp t = strippingOperatingLine
                   (boilUpRatio refluxRatio distillateRate bottomsRate) xBottoms xBottoms).
Proof.
  intros Hrange H. unfold generateColumnData in H.
  destruct (productRates feedRate xFeed xDistillate xBottoms) as [distillateRate bottomsRate].
  set (S := boilUpRatio refluxRatio distillateRate bottomsRate) in *.
  bind_inv H as trays0 Hnew. bind_inv H as s1 Hrect. bind_inv H as s2 Hstrip.
  injection H as <-.
  unfold newArray in Hnew.
  destruct ((totalTrays + 1 <? 0) || (4294967295 <? totalTrays + 1))%Z; [discriminate |].
  injection Hnew as <-.
  change 1%Z with (Z.of_nat 0 + 1)%Z in Hrect.
  apply rectifyingTrays_slots in Hrect; [| simpl; rewrite length_replicate; lia].
  simpl in Hrect. rewrite length_replicate in Hrect.
  destruct Hrect as (Hlen1 & Hin1 & Hout1).
  replace (totalTrays + 1)%Z with (Z.of_nat (Z.to_nat totalTrays) + 1)%Z in Hstrip at 2 by lia.
  apply strippingTrays_slots in Hstrip; simpl; [| lia | lia].
  simpl in Hstrip. rewrite Hlen1 in Hstrip.
  destruct Hstrip as (Hlen2 & Hin2 & Hout2 & Hlast).
  split; [exact Hlen2 |]. split.
  - intros i Hi.
    destruct (Z_lt_le_dec feedTray i) as [Hstripped | Hrectified].
    + destruct (Hin2 (Z.to_nat (i - 1))) as (t & Ht & Hnum); [lia |].
      exists t. split; [exact Ht | lia].
    + rewrite Hout2 by lia.
      destruct (Hin1 (Z.to_nat (i - 1))) as (t & Ht & Hnum); [lia |].
      exists t. split; [exact Ht | lia].
  - destruct Hlast as (t & Ht & Hliq); [lia |].
    destruct (Hin2 (Z.to_nat totalTrays)) as (t' & Ht' & Hnum); [lia |].
    rewrite Ht in Ht'. injection Ht' as <-.
    exists t. split; [exact Ht |]. split; [lia | exact Hliq].
Qed.

(** ** The rectifying march of [generateColumnData] *)

Section RectifyingMarch.

Variable fuel : nat.
Variables xDistillate xBottoms pressure refluxRatio boilUp : num.
Variables lightAntConsts heavyAntConsts : AntoineConstants.

(** The liquid compositions of the first loop of [generateColumnData]
    are those of the loop of [rectifyingSection]. *)
Lemma rectifyingTrays_liqComp (count : nat) :
  forall (i : Z) (s s' : columnData),
    rectifyingTrays count fuel i xDistillate pressure refluxRatio boilUp
      lightAntConsts heavyAntConsts s = Ok s' ->
    rectifyingLoop count fuel refluxRatio pressure xDistillate
      lightAntConsts heavyAntConsts (cd_liqComp s) = Ok (cd_liqComp s').
Proof.
  induction count as [| count IH]; intros i s s' H; simpl in H |- *.
  - injection H as <-. reflexivity.
  - bind_inv H as liq Hliq. bind_inv H as temp Htemp.
    rewrite Hliq. simpl. apply IH in H. exact H.
Qed.

(** The last tray the first loop writes holds the last liquid
    composition, whether or not the array had room for it. *)
Lemma rectifyingTrays_last (count : nat) :
  forall (i : Z) (s s' : columnData),
    (1 <= i)%Z ->
    rectifyingTrays (S count) fuel i xDistillate pressure refluxRatio boilUp
      lightAntConsts heavyAntConsts s = Ok s' ->
    exists t : Tray,
      cd_trays s' !! Z.to_nat (i + Z.of_nat count - 1) = Some (Some t) /\
      trayNumber t = (i + Z.of_nat count)%Z /\
      liqComp t = cd_liqComp s'.
Proof.
  induction count as [| count IH]; intros i s s' Hi H.
  - simpl in H. bind_inv H as liq Hliq. bind_inv H as temp Htemp.
    injection H as <-. cbn [cd_trays cd_liqComp].
    replace (i + Z.of_nat 0 - 1)%Z with (i - 1)%Z by lia.
    rewrite arraySet_lookup_eq by lia.
    eexists. split; [reflexivity |]. split; [simpl; lia | reflexivity].
  - cbn [rectifyingTrays] in H. bind_inv H as liq Hliq. bind_inv H as temp Htemp.
    apply IH in H; [| lia].
    destruct H as (t & Ht & Hnum & Hl).
    exists t. split; [| split; [lia | exact Hl]].
    rewrite <- Ht. f_equal. lia.
Qed.

(** The second loop leaves alone the slots below the ones it writes. *)
Lemma strippingTrays_below (count : nat) :
  forall (i : Z) (s s' : columnData) (j : nat),
    (j < length (cd_trays s))%nat ->
    (Z.of_nat j < i - Z.of_nat count)%Z ->
    strippingTrays count fuel i xBottoms pressure refluxRatio boilUp
      lightAntConsts heavyAntConsts s = Ok s' ->
    cd_trays s' !! j = cd_trays s !! j.
Proof.
  induction count as [| count IH]; intros i s s' j Hj Hlow H; simpl in H.
  - injection H as <-. reflexivity.
  - bind_inv H as vap Hvap. bind_inv H as temp Htemp.
    apply IH with (j := j) in H; simpl.
    + rewrite H. simpl. apply arraySet_lookup_ne; [exact Hj | lia].
    + eapply Nat.lt_le_trans; [exact Hj | apply arraySet_length_ge].
    + lia.
Qed.

End RectifyingMarch.

(** At a finite reflux ratio other than [-1], the rectifying operating
    line maps the distillate composition to itself. *)
Lemma rectifyingOperatingLine_distillate (R xD : R) :
  R <> -1 ->
  rectifyingOperatingLine (Fin R) (Fin xD) (Fin xD) = Fin xD.
Proof.
  intros HR. unfold rectifyingOperatingLine.
  assert (HR1 : R + 1 <> 0) by lra.
  autorewrite with fin. f_equal. field. exact HR1.
Qed.

(** C9 (as amended).  For every reflux ratio, pressure and distillate
    composition and every [feedTray >= 1], the tray numbered [feedTray] of
    the array [generateColumnData] returns holds the liquid composition
    that the loop body of [rectifyingSection] gives when it is run
    [feedTray] times from the liquid composition [x_D].  That is the
    result of [rectifyingSection] for the same arguments whenever
    [rectifyingOperatingLine(R, x_D, x_D)], the vapor composition
    [generateColumnData] computes for tray 1, evaluates to [x_D] itself,
    the composition [rectifyingSection] starts from. *)
Theorem generateColumnData_feed_tray_liquid
    (fuel : nat) (feedRate xFeed xDistillate xBottoms pressure refluxRatio : num)
    (feedTray totalTrays : Z) (lightAntConsts heavyAntConsts : AntoineConstants)
    (trays : trayArray) :
  (1 <= feedTray)%Z ->
  generateColumnData fuel feedRate xFeed xDistillate xBottoms pressure feedTray totalTrays
    refluxRatio lightAntConsts heavyAntConsts = Ok trays ->
  exists t : Tray,
    trays !! Z.to_nat (feedTray - 1) = Some (Some t) /\
    trayNumber t = feedTray /\
    rectifyingLoop (Z.to_nat feedTray) fuel refluxRatio pressure xDistillate
      lightAntConsts heavyAntConsts xDistillate = Ok (liqComp t) /\
    (rectifyingOperatingLine refluxRatio xDistillate xDistillate = xDistillate ->
     rectifyingSection fuel refluxRatio pressure xDistillate feedTray
       lightAntConsts heavyAntConsts = Ok (liqComp t)).
Proof.
  intros Hfeed H. unfold generateColumnData in H.
  destruct (productRates feedRate xFeed xDistillate xBottoms) as [distillateRate bottomsRate].
  bind_inv H as trays0 Hnew. bind_inv H as s1 Hrect. bind_inv H as s2 Hstrip.
  injection H as <-.
  destruct (Z.to_nat feedTray) as [| count] eqn:Hcount; [lia |].
  pose proof (rectifyingTrays_liqComp _ _ _ _ _ _ _ _ _ _ _ Hrect) as Hliq.
  apply rectifyingTrays_last in Hrect; [| lia].
  destruct Hrect as (t & Ht & Hnum & Hl).
  replace (1 + Z.of_nat count - 1)%Z with (feedTray - 1)%Z in Ht by lia.
  cbn [cd_liqComp] in Hliq. rewrite <- Hl in Hliq.
  exists t. split; [| split; [lia | split; [exact Hliq |]]].
  - destruct (Z_le_gt_dec (totalTrays + 1 - feedTray) 0) as [Hnone | Hsome].
    + replace (Z.to_nat (totalTrays + 1 - feedTray)) with 0%nat in Hstrip by lia.
      simpl in Hstrip. injection Hstrip as <-. exact Ht.
    + apply strippingTrays_below with (j := Z.to_nat (feedTray - 1)) in Hstrip;
        cbn [cd_trays] in *.
      * rewrite Hstrip. exact Ht.
      * apply lookup_lt_Some in Ht. exact Ht.
      * lia.
  - intros Hline. unfold rectifyingSection.
    replace (Z.to_nat (feedTray - 1)) with count by lia.
    cbn [rectifyingLoop] in Hliq. cbv zeta in Hliq. rewrite Hline in Hliq.
    exact Hliq.
Qed.

(** C9, counterexample.  In binary64, at the reflux ratio 1.7 and the
    distillate composition 0.95, the vapor composition that
    [generateColumnData] computes for tray 1,
    [rectifyingOperatingLine(R, x_D, x_D)], is 0.9499999999999997, two
    units in the last place below [x_D].  The first equilibrium solve of
    [generateColumnData] is for that vapor composition, the first solve of
    [rectifyingSection] is for [x_D] itself; at 114.7 psia the products
    [vaporMolFrac * pressure] with which [liqMolFraction] ends differ as
    well. *)
Lemma generateColumnData_first_vapor_rounds :
  Binary64.rectifyingOperatingLine 1.7 0.95 0.95 = 0.9499999999999997%float /\
  (Binary64.rectifyingOperatingLine 1.7 0.95 0.95 <? 0.95)%float = true /\
  (Binary64.rectifyingOperatingLine 1.7 0.95 0.95 * 114.7 <? 0.95 * 114.7)%float = true.
Proof.
  repeat split; vm_compute; reflexivity.
Qed.

(** ** The bisection loop of the equilibrium solves *)

(** More fuel does not change a result. *)
Lemma bisectionLoop_more_fuel (residual : num -> num) (n m : nat) :
  forall (s : bisection) (v : num),
    (n <= m)%nat ->
    bisectionLoop n residual s = Ok v -> bisectionLoop m residual s = Ok v.
Proof.
  revert m. induction n as [| n IH]; intros m s v Hle H; simpl in H; [discriminate |].
  destruct m as [| m]; [lia |]. simpl.
  destruct (bisectionStep residual s) as [s' |]; [| exact H].
  apply IH; [lia | exact H].
Qed.

Lemma Rdiv_le_one (u v : R) : 0 < v -> u <= v -> u / v <= 1.
Proof.
  intros Hv Huv. apply Rmult_le_reg_r with v; [exact Hv |].
  unfold Rdiv. rewrite Rmult_assoc, Rinv_l by lra. lra.
Qed.

Lemma Rdiv_ge_one (u v : R) : 0 < v -> v <= u -> 1 <= u / v.
Proof.
  intros Hv Huv. apply Rmult_le_reg_r with v; [exact Hv |].
  unfold Rdiv. rewrite Rmult_assoc, Rinv_l by lra. lra.
Qed.

Lemma Rabs_half (u : R) : Rabs (u / 2) = Rabs u / 2.
Proof.
  unfold Rabs. destruct (Rcase_abs (u / 2)), (Rcase_abs u); lra.
Qed.

Section BisectionTermination.

(** The residual of the loop is, on the finite temperatures of an
    interval [[lo, hi]], a continuous real function [f]. *)
Variable residual : num -> num.
Variable f : R -> R.
Variables lo hi : R.

Hypothesis residual_fin : forall T : R, lo <= T <= hi -> residual (Fin T) = Fin (f T).
Hypothesis f_continuous : forall T : R, lo <= T <= hi -> continuity_pt f T.

(** The loop invariant: [minT] and [maxT] are finite and in the
    interval, the residual is not positive at [minT] and not negative at
    [maxT], and [tempGuess] is their mean. *)
Record bracketed (s : bisection) (mn mx : R) : Prop := mkBracketed {
  br_min : minT s = Fin mn;
  br_max : maxT s = Fin mx;
  br_guess : tempGuess s = Fin ((mx + mn) / 2);
  br_min_in : lo <= mn <= hi;
  br_max_in : lo <= mx <= hi;
  br_min_sign : f mn <= 0;
  br_max_sign : 0 <= f mx
}.

Lemma bracketed_residual (s : bisection) (mn mx : R) :
  bracketed s mn mx -> residual (tempGuess s) = Fin (f ((mx + mn) / 2)).
Proof.
  intros Hb. rewrite (br_guess _ _ _ Hb). apply residual_fin.
  pose proof (br_min_in _ _ _ Hb). pose proof (br_max_in _ _ _ Hb). lra.
Qed.

Lemma bisectionStep_exit (s : bisection) (mn mx : R) :
  bracketed s mn mx ->
  bisectionStep residual s = None ->
  Rabs (f ((mx + mn) / 2)) <= 0.001.
Proof.
  intros Hb. unfold bisectionStep.
  rewrite (bracketed_residual _ _ _ Hb). unfold TOL. simpl.
  destruct (Rlt_dec 0.001 (Rabs (f ((mx + mn) / 2)))) as [Hgt | Hle].
  - destruct (Rlt_dec 0 (f ((mx + mn) / 2))); discriminate.
  - intros _. lra.
Qed.

Lemma bisectionStep_bracketed (s s' : bisection) (mn mx : R) :
  bracketed s mn mx ->
  bisectionStep residual s = Some s' ->
  exists mn' mx' : R,
    bracketed s' mn' mx' /\ Rabs (mx' - mn') = Rabs (mx - mn) / 2.
Proof.
  intros Hb. unfold bisectionStep.
  rewrite (bracketed_residual _ _ _ Hb). unfold TOL. simpl.
  pose proof (br_min_in _ _ _ Hb) as Hmn. pose proof (br_max_in _ _ _ Hb) as Hmx.
  pose proof (br_min_sign _ _ _ Hb) as Hfmn. pose proof (br_max_sign _ _ _ Hb) as Hfmx.
  destruct (Rlt_dec 0.001 (Rabs (f ((mx + mn) / 2)))) as [_ | _]; [| discriminate].
  rewrite (br_min _ _ _ Hb), (br_max _ _ _ Hb), (br_guess _ _ _ Hb).
  destruct (Rlt_dec 0 (f ((mx + mn) / 2))) as [Hpos | Hneg];
    intros H; injection H as <-.
  - exists mn, ((mx + mn) / 2). split.
    + constructor; cbn [minT maxT tempGuess];
        try reflexivity; try assumption; try lra.
      destruct (Req_dec_T 2 0); [lra | f_equal; lra].
    + rewrite <- Rabs_half. f_equal. lra.
  - exists ((mx + mn) / 2), mx. split.
    + constructor; cbn [minT maxT tempGuess];
        try reflexivity; try assumption; try lra.
      destruct (Req_dec_T 2 0); [lra | reflexivity].
    + rewrite <- Rabs_half. f_equal. lra.
Qed.

Section Modulus.

(** A modulus of uniform continuity of [f] for the tolerance. *)
Variable delta : R.
Hypothesis delta_modulus :
  forall x y : R, lo <= x <= hi -> lo <= y <= hi ->
    Rabs (x - y) < delta -> Rabs (f x - f y) < 0.001.

Lemma bisectionStep_narrow (s : bisection) (mn mx : R) :
  bracketed s mn mx ->
  Rabs (mx - mn) / 2 < delta ->
  bisectionStep residual s = None.
Proof.
  intros Hb Hw. unfold bisectionStep.
  rewrite (bracketed_residual _ _ _ Hb). unfold TOL. simpl.
  pose proof (br_min_in _ _ _ Hb) as Hmn. pose proof (br_max_in _ _ _ Hb) as Hmx.
  pose proof (br_min_sign _ _ _ Hb) as Hfmn. pose proof (br_max_sign _ _ _ Hb) as Hfmx.
  set (g := (mx + mn) / 2) in *.
  assert (Hg : lo <= g <= hi) by (unfold g; lra).
  assert (Hgmn : Rabs (g - mn) < delta).
  { replace (g - mn) with ((mx - mn) / 2) by (unfold g; lra).
    rewrite Rabs_half. exact Hw. }
  assert (Hgmx : Rabs (g - mx) < delta).
  { replace (g - mx) with (- ((mx - mn) / 2)) by (unfold g; lra).
    rewrite Rabs_Ropp, Rabs_half. exact Hw. }
  apply (delta_modulus g mn Hg Hmn) in Hgmn.
  apply (delta_modulus g mx Hg Hmx) in Hgmx.
  destruct (Rlt_dec 0.001 (Rabs (f g))) as [Hbig | _]; [| reflexivity].
  exfalso. revert Hbig Hgmn Hgmx. unfold Rabs.
  destruct (Rcase_abs (f g)), (Rcase_abs (f g - f mn)), (Rcase_abs (f g - f mx)); lra.
Qed.

Lemma bisectionLoop_converges (n : nat) :
  forall (s : bisection) (mn mx : R),
    bracketed s mn mx ->
    Rabs (mx - mn) / 2 < delta * 2 ^ n ->
    exists T : R,
      bisectionLoop (S n) residual s = Ok (Fin T) /\
      lo <= T <= hi /\ (mn <> mx -> lo < T < hi) /\ Rabs (f T) <= 0.001.
Proof.
  induction n as [| n IH]; intros s mn mx Hb Hw;
    pose proof (br_min_in _ _ _ Hb) as Hmn; pose proof (br_max_in _ _ _ Hb) as Hmx.
  - simpl in Hw. rewrite Rmult_1_r in Hw.
    exists ((mx + mn) / 2). simpl.
    rewrite (bisectionStep_narrow _ _ _ Hb Hw), (br_guess _ _ _ Hb).
    split; [reflexivity |]. split; [lra |]. split; [intros; lra |].
    apply (bisectionStep_exit s); [exact Hb | exact (bisectionStep_narrow _ _ _ Hb Hw)].
  - cbn [bisectionLoop].
    destruct (bisectionStep residual s) as [s' |] eqn:Hstep.
    + destruct (bisectionStep_bracketed _ _ _ _ Hb Hstep) as (mn' & mx' & Hb' & Hw').
      destruct (IH s' mn' mx' Hb') as (T & HT & Hin & Hstrict & HfT).
      { rewrite Hw'. simpl in Hw. lra. }
      exists T. split; [exact HT |]. split; [exact Hin |]. split; [| exact HfT].
      intros Hne. apply Hstrict. intros Heq.
      rewrite Heq, Rminus_diag, Rabs_R0 in Hw'.
      assert (Rabs (mx - mn) = 0) by lra.
      apply Hne. symmetry. apply Rminus_diag_uniq. 
      destruct (Req_dec (mx - mn) 0) as [Hz | Hnz]; [exact Hz |].
      apply Rabs_no_R0 in Hnz. contradiction.
    + exists ((mx + mn) / 2). rewrite (br_guess _ _ _ Hb).
      split; [reflexivity |]. split; [lra |]. split; [intros; lra |].
      apply (bisectionStep_exit s); assumption.
Qed.

End Modulus.

(** From a state that satisfies the invariant the loop exits, at a
    temperature of the interval where the residual is within the
    tolerance. *)
Theorem bisectionLoop_terminates (s : bisection) (mn mx : R) :
  bracketed s mn mx ->
  exists (fuel : nat) (T : R),
    bisectionLoop fuel residual s = Ok (Fin T) /\
    lo <= T <= hi /\ (mn <> mx -> lo < T < hi) /\ Rabs (f T) <= 0.001.
Proof.
  intros Hb.
  assert (Htol : 0 < 0.001) by lra.
  destruct (Heine_cor2 f_continuous (mkposreal 0.001 Htol)) as [delta Hdelta].
  simpl in Hdelta.
  destruct (Pow_x_infinity 2) with (b := Rabs (mx - mn) / 2 / delta + 1) as [N HN].
  { rewrite Rabs_pos_eq; lra. }
  specialize (HN N (le_n N)).
  rewrite Rabs_pos_eq in HN by (apply pow_le; lra).
  destruct (bisectionLoop_converges delta Hdelta N s mn mx Hb) as (T & HT).
  - pose proof (cond_pos delta) as Hd.
    assert (Hq : Rabs (mx - mn) / 2 / delta < 2 ^ N) by lra.
    apply (Rmult_lt_compat_r delta) in Hq; [| exact Hd].
    unfold Rdiv in Hq at 1. rewrite Rmult_assoc, Rinv_l, Rmult_1_r in Hq by lra.
    lra.
  - exists (S N), T. exact HT.
Qed.

End BisectionTermination.

(** ** The Antoine equation on finite temperatures *)

(** The vapor pressure in psia at the temperature [T] in degrees
    Fahrenheit, where the Antoine expression is defined. *)
Definition antoine (c : AntoineConstants) (T : R) : R :=
  Rpower 10 (A c - B c / (kelvin T + C c)) * 14.503773773.

Lemma vaporPressure_antoine (T : R) (c : AntoineConstants) :
  kelvin T + C c <> 0 -> vaporPressure (Fin T) c = Fin (antoine c T).
Proof. apply vaporPressure_fin. Qed.

Lemma antoine_pos (c : AntoineConstants) (T : R) : 0 < antoine c T.
Proof.
  unfold antoine, Rpower. pose proof (exp_pos ((A c - B c / (kelvin T + C c)) * ln 10)). lra.
Qed.

Lemma kelvin_le (T1 T2 : R) : T1 <= T2 -> kelvin T1 <= kelvin T2.
Proof. unfold kelvin. lra. Qed.

Lemma antoine_exponent_le (c : AntoineConstants) (T1 T2 : R) :
  0 < B c -> 0 < kelvin T1 + C c -> T1 <= T2 ->
  A c - B c / (kelvin T1 + C c) <= A c - B c / (kelvin T2 + C c).
Proof.
  intros HB Hd Hle. apply kelvin_le in Hle.
  assert (Hinv : / (kelvin T2 + C c) <= / (kelvin T1 + C c))
    by (apply Rinv_le_contravar; lra).
  unfold Rdiv. nra.
Qed.

Lemma antoine_exponent_lt (c : AntoineConstants) (T1 T2 : R) :
  0 < B c -> 0 < kelvin T1 + C c -> T1 < T2 ->
  A c - B c / (kelvin T1 + C c) < A c - B c / (kelvin T2 + C c).
Proof.
  intros HB Hd Hlt.
  assert (Hk : kelvin T1 < kelvin T2) by (unfold kelvin; lra).
  assert (Hinv : / (kelvin T2 + C c) < / (kelvin T1 + C c))
    by (apply Rinv_lt_contravar; nra).
  unfold Rdiv. nra.
Qed.

(** Above a temperature where the Antoine denominator is positive, the
    vapor pressure increases with the temperature. *)
Lemma antoine_le (c : AntoineConstants) (T1 T2 : R) :
  0 < B c -> 0 < kelvin T1 + C c -> T1 <= T2 -> antoine c T1 <= antoine c T2.
Proof.
  intros HB Hd Hle. unfold antoine.
  apply Rmult_le_compat_r; [lra |].
  apply Rle_Rpower; [lra |]. apply antoine_exponent_le; assumption.
Qed.

Lemma antoine_lt (c : AntoineConstants) (T1 T2 : R) :
  0 < B c -> 0 < kelvin T1 + C c -> T1 < T2 -> antoine c T1 < antoine c T2.
Proof.
  intros HB Hd Hlt. unfold antoine.
  apply Rmult_lt_compat_r; [lra |].
  apply Rpower_lt; [lra |]. apply antoine_exponent_lt; assumption.
Qed.

Lemma continuity_pt_constant (k x0 : R) : continuity_pt (fun _ : R => k) x0.
Proof. apply continuity_pt_const. intros x y. reflexivity. Qed.

Lemma continuity_pt_identity (x0 : R) : continuity_pt (fun x : R => x) x0.
Proof. apply derivable_continuous_pt. apply derivable_pt_id. Qed.

Lemma kelvin_continuous (T : R) : continuity_pt kelvin T.
Proof.
  unfold kelvin.
  apply (continuity_pt_plus (fun T => (T - 32) * 5 / 9) (fun _ => 273.15));
    [| apply continuity_pt_constant].
  apply (continuity_pt_mult (fun T => (T - 32) * 5) (fun _ => / 9));
    [| apply continuity_pt_constant].
  apply (continuity_pt_mult (fun T => T - 32) (fun _ => 5));
    [| apply continuity_pt_constant].
  apply (continuity_pt_minus (fun T => T) (fun _ => 32));
    [apply continuity_pt_identity | apply continuity_pt_constant].
Qed.

Lemma antoine_continuous (c : AntoineConstants) (T : R) :
  kelvin T + C c <> 0 -> continuity_pt (antoine c) T.
Proof.
  intros Hd. unfold antoine, Rpower.
  apply (continuity_pt_mult
           (fun T => exp ((A c - B c / (kelvin T + C c)) * ln 10))
           (fun _ => 14.503773773)); [| apply continuity_pt_constant].
  apply (continuity_pt_comp (fun T => (A c - B c / (kelvin T + C c)) * ln 10) exp);
    [| apply derivable_continuous_pt, derivable_pt_exp].
  apply (continuity_pt_mult (fun T => A c - B c / (kelvin T + C c)) (fun _ => ln 10));
    [| apply continuity_pt_constant].
  apply (continuity_pt_minus (fun _ => A c) (fun T => B c / (kelvin T + C c)));
    [apply continuity_pt_constant |].
  apply (continuity_pt_div (fun _ => B c) (fun T => kelvin T + C c));
    [apply continuity_pt_constant | | exact Hd].
  apply (continuity_pt_plus kelvin (fun _ => C c));
    [apply kelvin_continuous | apply continuity_pt_constant].
Qed.

(** What a finite boiling point says about the Antoine equation: the
    denominator is not zero there and the vapor pressure is the
    pressure. *)
Lemma boilingPoint_finite (p a : R) (c : AntoineConstants) :
  0 < p -> B c <> 0 ->
  boilingPointTemperature (Fin p) c = Fin a ->
  kelvin a + C c = B c / (A c - ln (p / 14.503773773) / ln 10) /\
  A c - ln (p / 14.503773773) / ln 10 <> 0 /\
  antoine c a = p.
Proof.
  intros Hp HB. unfold boilingPointTemperature.
  rewrite div_fin by lra. cbn [Num.log10].
  destruct (Rlt_dec 0 (p / 14.503773773)) as [_ | Hn];
    [| exfalso; apply Hn; apply Rdiv_lt_0_compat; lra].
  set (L := ln (p / 14.503773773) / ln 10). rewrite sub_fin.
  unfold Num.div at 2. destruct (Req_dec_T (A c - L) 0) as [Hz | Hnz].
  - unfold Num.bySign.
    destruct (Rlt_dec 0 (B c)); [| destruct (Rlt_dec (B c) 0)]; simpl;
      repeat (unfold Num.bySign;
              match goal with
              | |- context [Rlt_dec ?u ?v] => destruct (Rlt_dec u v); simpl
              | |- context [Req_dec_T ?u ?v] => destruct (Req_dec_T u v); simpl
              end); try discriminate; lra.
  - autorewrite with fin. intros H. injection H as <-.
    assert (Hk : kelvin ((B c / (A c - L) - C c - 273.15) * 9 / 5 + 32) + C c
                 = B c / (A c - L)) by (unfold kelvin; field; exact Hnz).
    split; [exact Hk |]. split; [exact Hnz |].
    unfold antoine. rewrite Hk.
    replace (A c - B c / (B c / (A c - L))) with L by (field; split; assumption).
    unfold L, Rpower.
    replace (ln (p / 14.503773773) / ln 10 * ln 10) with (ln (p / 14.503773773))
      by (field; pose proof ln_10_pos; lra).
    rewrite exp_ln by (apply Rdiv_lt_0_compat; lra). field. lra.
Qed.

(** ** The residuals on finite arguments *)

Definition residualX (p x : R) (l h : AntoineConstants) (T : R) : R :=
  p - (x * antoine l T + (1 - x) * antoine h T).

Definition residualY (p y : R) (l h : AntoineConstants) (T : R) : R :=
  y * p / antoine l T + (1 - y) * p / antoine h T - 1.

Lemma equationFromX_fin (p x T : R) (l h : AntoineConstants) :
  kelvin T + C l <> 0 -> kelvin T + C h <> 0 ->
  binaryequilibriumEquationFromX (Fin T) (Fin p) (Fin x) l h = Fin (residualX p x l h T).
Proof.
  intros Hl Hh. unfold binaryequilibriumEquationFromX.
  rewrite !vaporPressure_antoine by assumption. reflexivity.
Qed.

Lemma equationFromY_fin (p y T : R) (l h : AntoineConstants) :
  kelvin T + C l <> 0 -> kelvin T + C h <> 0 ->
  binaryequilibriumEquationFromY (Fin T) (Fin p) (Fin y) l h = Fin (residualY p y l h T).
Proof.
  intros Hl Hh. unfold binaryequilibriumEquationFromY.
  rewrite !vaporPressure_antoine by assumption.
  pose proof (antoine_pos l T). pose proof (antoine_pos h T).
  autorewrite with fin. reflexivity.
Qed.

Lemma residualX_continuous (p x : R) (l h : AntoineConstants) (T : R) :
  kelvin T + C l <> 0 -> kelvin T + C h <> 0 ->
  continuity_pt (residualX p x l h) T.
Proof.
  intros Hl Hh. unfold residualX.
  apply (continuity_pt_minus (fun _ => p)
           (fun T => x * antoine l T + (1 - x) * antoine h T));
    [apply continuity_pt_constant |].
  apply (continuity_pt_plus (fun T => x * antoine l T) (fun T => (1 - x) * antoine h T)).
  - apply (continuity_pt_mult (fun _ => x) (antoine l));
      [apply continuity_pt_constant | apply antoine_continuous; exact Hl].
  - apply (continuity_pt_mult (fun _ => 1 - x) (antoine h));
      [apply continuity_pt_constant | apply antoine_continuous; exact Hh].
Qed.

Lemma residualY_continuous (p y : R) (l h : AntoineConstants) (T : R) :
  kelvin T + C l <> 0 -> kelvin T + C h <> 0 ->
  continuity_pt (residualY p y l h) T.
Proof.
  intros Hl Hh. unfold residualY.
  pose proof (antoine_pos l T). pose proof (antoine_pos h T).
  apply (continuity_pt_minus
           (fun T => y * p / antoine l T + (1 - y) * p / antoine h T) (fun _ => 1));
    [| apply continuity_pt_constant].
  apply (continuity_pt_plus (fun T => y * p / antoine l T)
           (fun T => (1 - y) * p / antoine h T)).
  - apply (continuity_pt_div (fun _ => y * p) (antoine l));
      [apply continuity_pt_constant | apply antoine_continuous; exact Hl | lra].
  - apply (continuity_pt_div (fun _ => (1 - y) * p) (antoine h));
      [apply continuity_pt_constant | apply antoine_continuous; exact Hh | lra].
Qed.

(** ** Termination of the equilibrium solves *)

(** The bracket of the equilibrium solves at the pressure [p] is well
    formed: the boiling points [a] of the light compound and [b] of the
    heavy compound are finite, [a] is not above [b], and from [a] on both
    Antoine denominators [T_K + C] are positive, with positive [B]. *)
Record validBracket (p : R) (l h : AntoineConstants) (a b : R) : Prop := mkValidBracket {
  vb_pressure : 0 < p;
  vb_light_B : 0 < B l;
  vb_heavy_B : 0 < B h;
  vb_light : boilingPointTemperature (Fin p) l = Fin a;
  vb_heavy : boilingPointTemperature (Fin p) h = Fin b;
  vb_order : a <= b;
  vb_light_den : 0 < kelvin a + C l;
  vb_heavy_den : 0 < kelvin a + C h
}.

Section ValidBracket.

Variables (p : R) (l h : AntoineConstants) (a b : R).
Hypothesis Hvalid : validBracket p l h a b.

Lemma vb_denominators (T : R) :
  a <= T -> 0 < kelvin T + C l /\ 0 < kelvin T + C h.
Proof.
  intros HT. apply kelvin_le in HT.
  pose proof (vb_light_den _ _ _ _ _ Hvalid). pose proof (vb_heavy_den _ _ _ _ _ Hvalid).
  lra.
Qed.

Lemma vb_light_at_a : antoine l a = p.
Proof.
  apply (boilingPoint_finite p a l);
    [apply Hvalid | pose proof (vb_light_B _ _ _ _ _ Hvalid); lra | apply Hvalid].
Qed.

Lemma vb_heavy_at_b : antoine h b = p.
Proof.
  apply (boilingPoint_finite p b h);
    [apply Hvalid | pose proof (vb_heavy_B _ _ _ _ _ Hvalid); lra | apply Hvalid].
Qed.

(** On the bracket the light compound is at least at the pressure and
    the heavy compound at most. *)
Lemma vb_light_ge (T : R) : a <= T -> p <= antoine l T.
Proof.
  intros HT. rewrite <- vb_light_at_a.
  apply antoine_le; [apply Hvalid | apply Hvalid | exact HT].
Qed.

Lemma vb_light_gt (T : R) : a < T -> p < antoine l T.
Proof.
  intros HT. rewrite <- vb_light_at_a.
  apply antoine_lt; [apply Hvalid | apply Hvalid | exact HT].
Qed.

Lemma vb_heavy_le (T : R) : a <= T <= b -> antoine h T <= p.
Proof.
  intros [HaT HTb]. rewrite <- vb_heavy_at_b.
  apply antoine_le; [apply Hvalid | apply (vb_denominators T HaT) | exact HTb].
Qed.

Lemma bracket_valid :
  bracket (Fin p) l h
  = {| minT := Fin b; maxT := Fin a; tempGuess := Fin ((a + b) / 2) |}.
Proof.
  unfold bracket. rewrite (vb_light _ _ _ _ _ Hvalid), (vb_heavy _ _ _ _ _ Hvalid).
  rewrite add_fin, div_fin by lra. reflexivity.
Qed.

Lemma equilibriumTemperatureFromX_converges (x : R) :
  0 <= x <= 1 ->
  exists (fuel : nat) (T : R),
    equilibriumTemperatureFromX fuel (Fin p) (Fin x) l h = Ok (Fin T) /\
    a <= T <= b /\ (a <> b -> a < T < b) /\ Rabs (residualX p x l h T) <= 0.001.
Proof.
  intros Hx. unfold equilibriumTemperatureFromX. rewrite bracket_valid.
  pose proof (vb_order _ _ _ _ _ Hvalid) as Hab.
  destruct (bisectionLoop_terminates
              (fun tempGuess => binaryequilibriumEquationFromX tempGuess (Fin p) (Fin x) l h)
              (residualX p x l h) a b) with
    (s := {| minT := Fin b; maxT := Fin a; tempGuess := Fin ((a + b) / 2) |})
    (mn := b) (mx := a) as (fuel & T & HT & Hin & Hstrict & Hres).
  - intros T [HaT _]. destruct (vb_denominators T HaT).
    apply equationFromX_fin; lra.
  - intros T [HaT _]. destruct (vb_denominators T HaT).
    apply residualX_continuous; lra.
  - constructor; cbn [minT maxT tempGuess]; try reflexivity; try lra.
    + unfold residualX. rewrite vb_heavy_at_b.
      pose proof (vb_light_ge b Hab). nra.
    + unfold residualX. rewrite vb_light_at_a.
      assert (Haa : a <= a <= b) by lra. pose proof (vb_heavy_le a Haa). nra.
  - exists fuel, T. split; [exact HT |]. split; [exact Hin |]. split; [| exact Hres].
    intros Hne. apply Hstrict. congruence.
Qed.

Lemma equilibriumTemperatureFromY_converges (y : R) :
  0 <= y <= 1 ->
  exists (fuel : nat) (T : R),
    equilibriumTemperatureFromY fuel (Fin p) (Fin y) l h = Ok (Fin T) /\
    a <= T <= b /\ (a <> b -> a < T < b) /\ Rabs (residualY p y l h T) <= 0.001.
Proof.
  intros Hy. unfold equilibriumTemperatureFromY. rewrite bracket_valid.
  pose proof (vb_order _ _ _ _ _ Hvalid) as Hab.
  pose proof (vb_pressure _ _ _ _ _ Hvalid) as Hp.
  destruct (bisectionLoop_terminates
              (fun tempGuess => binaryequilibriumEquationFromY tempGuess (Fin p) (Fin y) l h)
              (residualY p y l h) a b) with
    (s := {| minT := Fin b; maxT := Fin a; tempGuess := Fin ((a + b) / 2) |})
    (mn := b) (mx := a) as (fuel & T & HT & Hin & Hstrict & Hres).
  - intros T [HaT _]. destruct (vb_denominators T HaT).
    apply equationFromY_fin; lra.
  - intros T [HaT _]. destruct (vb_denominators T HaT).
    apply residualY_continuous; lra.
  - constructor; cbn [minT maxT tempGuess]; try reflexivity; try lra.
    + unfold residualY. rewrite vb_heavy_at_b.
      pose proof (vb_light_ge b Hab) as Hl.
      assert (Hq : p / antoine l b <= 1).
      { apply Rdiv_le_one; lra. }
      replace (y * p / antoine l b + (1 - y) * p / p - 1)
        with (y * (p / antoine l b - 1)) by (field; lra).
      nra.
    + unfold residualY. rewrite vb_light_at_a.
      assert (Haa : a <= a <= b) by lra. pose proof (vb_heavy_le a Haa) as Hh.
      pose proof (antoine_pos h a) as Hpos.
      assert (Hq : 1 <= p / antoine h a).
      { apply Rdiv_ge_one; lra. }
      replace (y * p / p + (1 - y) * p / antoine h a - 1)
        with ((1 - y) * (p / antoine h a - 1)) by (field; lra).
      nra.
  - exists fuel, T. split; [exact HT |]. split; [exact Hin |]. split; [| exact Hres].
    intros Hne. apply Hstrict. congruence.
Qed.

End ValidBracket.


(** ** Propane and butane at one bar *)

(** One bar in psia, the pressure at which [Math.log10] of the pressure
    in bar is zero. *)
Definition oneBar : R := 14.503773773.

(** The boiling points of propane and butane at one bar, in degrees
    Fahrenheit. *)
Definition propaneBoilingPoint : R := (1149.36 / 4.53678 - 24.906 - 273.15) * 9 / 5 + 32.
Definition butaneBoilingPoint : R := (1175.581 / 4.35576 - -2.071 - 273.15) * 9 / 5 + 32.

Lemma log10_oneBar : Num.log10 (Fin oneBar / Fin 14.503773773)%num = Fin 0.
Proof.
  unfold oneBar. rewrite div_fin by lra.
  replace (14.503773773 / 14.503773773) with 1 by (field; lra).
  cbn [Num.log10]. destruct (Rlt_dec 0 1) as [_ | Hn]; [| lra].
  rewrite ln_1. f_equal. unfold Rdiv. apply Rmult_0_l.
Qed.

Lemma boilingPoint_propane_oneBar :
  boilingPointTemperature (Fin oneBar) propaneConstants = Fin propaneBoilingPoint.
Proof.
  unfold boilingPointTemperature. cbv zeta. rewrite log10_oneBar.
  unfold propaneConstants, propaneBoilingPoint. cbn [A B C].
  autorewrite with fin. f_equal. lra.
Qed.

Lemma boilingPoint_butane_oneBar :
  boilingPointTemperature (Fin oneBar) butaneConstants = Fin butaneBoilingPoint.
Proof.
  unfold boilingPointTemperature. cbv zeta. rewrite log10_oneBar.
  unfold butaneConstants, butaneBoilingPoint. cbn [A B C].
  autorewrite with fin. f_equal. lra.
Qed.

Lemma validBracket_oneBar :
  validBracket oneBar propaneConstants butaneConstants
    propaneBoilingPoint butaneBoilingPoint.
Proof.
  constructor.
  - unfold oneBar. lra.
  - simpl. lra.
  - simpl. lra.
  - apply boilingPoint_propane_oneBar.
  - apply boilingPoint_butane_oneBar.
  - unfold propaneBoilingPoint, butaneBoilingPoint. lra.
  - unfold kelvin, propaneBoilingPoint. simpl. lra.
  - unfold kelvin, propaneBoilingPoint. simpl. lra.
Qed.


(** ** Bounds on powers of ten *)

(** Turns the [INR] of a numeral in [H] into the numeral. *)
Ltac inr_numerals H :=
  rewrite ?INR_IZR_INZ in H;
  repeat match type of H with
    | context [Z.of_nat ?n] =>
        let z := eval vm_compute in (Z.of_nat n) in
        change (Z.of_nat n) with z in H
    end.

Lemma ln_le (x y : R) : 0 < x -> x <= y -> ln x <= ln y.
Proof.
  intros Hx [Hlt | ->]; [left; apply ln_increasing; assumption | right; reflexivity].
Qed.

Lemma exp_le (x y : R) : x <= y -> exp x <= exp y.
Proof.
  intros [Hlt | ->]; [left; apply exp_increasing; assumption | right; reflexivity].
Qed.

Lemma pow_le_IZR (u v : Z) (m n : nat) :
  (u ^ Z.of_nat m <=? v ^ Z.of_nat n)%Z = true -> IZR u ^ m <= IZR v ^ n.
Proof.
  intros H. rewrite !pow_IZR. apply IZR_le. apply Z.leb_le. exact H.
Qed.

(** [10 ** e <= v] follows from [e <= m/n] and [10^m <= v^n]. *)
Lemma Rpower10_upper (e v : R) (m n : nat) :
  0 < v -> (0 < n)%nat -> e * INR n <= INR m -> 10 ^ m <= v ^ n ->
  Rpower 10 e <= v.
Proof.
  intros Hv Hn He Hpow.
  rewrite <- (exp_ln v) by exact Hv. unfold Rpower. apply exp_le.
  apply ln_le in Hpow; [| apply pow_lt; lra].
  rewrite !ln_pow in Hpow by lra.
  pose proof ln_10_pos as H10. apply lt_0_INR in Hn.
  apply Rmult_le_reg_l with (INR n); [exact Hn |]. nra.
Qed.

(** [v <= 10 ** e] follows from [m/n <= e] and [v^n <= 10^m]. *)
Lemma Rpower10_lower (e v : R) (m n : nat) :
  0 < v -> (0 < n)%nat -> INR m <= e * INR n -> v ^ n <= 10 ^ m ->
  v <= Rpower 10 e.
Proof.
  intros Hv Hn He Hpow.
  rewrite <- (exp_ln v) by exact Hv. unfold Rpower. apply exp_le.
  apply ln_le in Hpow; [| apply pow_lt; lra].
  rewrite !ln_pow in Hpow by lra.
  pose proof ln_10_pos as H10. apply lt_0_INR in Hn.
  apply Rmult_le_reg_l with (INR n); [exact Hn |]. nra.
Qed.

(** Bounds on a decimal logarithm from integer powers. *)
Lemma log10_upper (x : R) (m n : nat) :
  0 < x -> x ^ n <= 10 ^ m -> ln x / ln 10 * INR n <= INR m.
Proof.
  intros Hx Hpow. apply ln_le in Hpow; [| apply pow_lt; lra].
  rewrite !ln_pow in Hpow by lra. pose proof ln_10_pos as H10.
  apply Rmult_le_reg_r with (ln 10); [exact H10 |].
  replace (ln x / ln 10 * INR n * ln 10) with (INR n * ln x) by (field; lra).
  exact Hpow.
Qed.

Lemma log10_lower (x : R) (m n : nat) :
  0 < x -> 10 ^ m <= x ^ n -> INR m <= ln x / ln 10 * INR n.
Proof.
  intros Hx Hpow. apply ln_le in Hpow; [| apply pow_lt; lra].
  rewrite !ln_pow in Hpow by lra. pose proof ln_10_pos as H10.
  apply Rmult_le_reg_r with (ln 10); [exact H10 |].
  replace (ln x / ln 10 * INR n * ln 10) with (INR n * ln x) by (field; lra).
  exact Hpow.
Qed.

(** ** An equilibrium solve that does not terminate *)

(** Whatever the temperature, the vapor pressure of a compound with a
    positive [B] is finite and not negative; it is zero where the Antoine
    denominator is zero. *)
Lemma vaporPressure_value (T : R) (c : AntoineConstants) :
  0 < B c ->
  exists v : R,
    vaporPressure (Fin T) c = Fin v /\
    (kelvin T + C c <> 0 -> v = antoine c T) /\
    (kelvin T + C c = 0 -> v = 0).
Proof.
  intros HB. destruct (Req_dec_T (kelvin T + C c) 0) as [Hz | Hnz].
  - exists 0. split; [| split; [intros; contradiction | reflexivity]].
    unfold vaporPressure, kelvin in *. autorewrite with fin.
    unfold Num.div. destruct (Req_dec_T _ 0) as [_ | Hn]; [| contradiction].
    unfold Num.bySign. destruct (Rlt_dec 0 (B c)) as [_ | Hn]; [| contradiction].
    simpl. f_equal. lra.
  - exists (antoine c T). split; [| split; [reflexivity | intros; contradiction]].
    apply vaporPressure_antoine. exact Hnz.
Qed.

(** 30000 bar in psia. *)
Definition highPressure : R := 435113.21319.

Lemma log10_highPressure :
  Num.log10 (Fin highPressure / Fin 14.503773773)%num = Fin (ln 30000 / ln 10) /\
  4.47 <= ln 30000 / ln 10 <= 4.48.
Proof.
  split.
  - unfold highPressure. rewrite div_fin by lra.
    replace (435113.21319 / 14.503773773) with 30000 by lra.
    cbn [Num.log10]. destruct (Rlt_dec 0 30000) as [_ | Hn]; [reflexivity | lra].
  - assert (Hlo : INR 447 <= ln 30000 / ln 10 * INR 100).
    { apply log10_lower; [lra |]. apply pow_le_IZR. vm_compute. reflexivity. }
    assert (Hhi : ln 30000 / ln 10 * INR 100 <= INR 448).
    { apply log10_upper; [lra |]. apply pow_le_IZR. vm_compute. reflexivity. }
    inr_numerals Hlo. inr_numerals Hhi. lra.
Qed.

(** The boiling points of propane and butane at 30000 bar, as
    [boilingPointTemperature] computes them: the pressure is between the
    Antoine limits [10 ** A] of the two compounds. *)
Definition highLight : R :=
  (1149.36 / (4.53678 - ln 30000 / ln 10) - 24.906 - 273.15) * 9 / 5 + 32.
Definition highHeavy : R :=
  (1175.581 / (4.35576 - ln 30000 / ln 10) - -2.071 - 273.15) * 9 / 5 + 32.

(** The Antoine denominator of propane. *)
Definition propaneDenominator (T : R) : R := kelvin T + 24.906.

Lemma bracket_highPressure :
  bracket (Fin highPressure) propaneConstants butaneConstants
  = {| minT := Fin highHeavy; maxT := Fin highLight;
       tempGuess := Fin ((highLight + highHeavy) / 2) |}.
Proof.
  destruct log10_highPressure as [Hlog [Hlo Hhi]].
  unfold bracket, boilingPointTemperature. cbv zeta. rewrite Hlog.
  unfold propaneConstants, butaneConstants. cbn [A B C].
  autorewrite with fin. reflexivity.
Qed.

Lemma highLight_denominator :
  17211 <= propaneDenominator highLight <= 20243.
Proof.
  destruct log10_highPressure as [_ [Hlo Hhi]].
  unfold propaneDenominator, kelvin, highLight.
  set (d := 4.53678 - ln 30000 / ln 10).
  assert (Hd : 0.05678 <= d <= 0.06678) by (unfold d; lra).
  assert (Hq : 1149.36 / d * d = 1149.36) by (field; lra).
  set (q := 1149.36 / d) in *.
  replace ((q - 24.906 - 273.15) * 9 / 5 + 32 - 32) with ((q - 24.906 - 273.15) * 9 / 5) by lra.
  replace ((q - 24.906 - 273.15) * 9 / 5 * 5 / 9 + 273.15 + 24.906) with q by lra.
  nra.
Qed.

Lemma highHeavy_denominator :
  -10264 <= propaneDenominator highHeavy <= -9435.
Proof.
  destruct log10_highPressure as [_ [Hlo Hhi]].
  unfold propaneDenominator, kelvin, highHeavy.
  set (d := 4.35576 - ln 30000 / ln 10).
  assert (Hd : -0.12424 <= d <= -0.11424) by (unfold d; lra).
  assert (Hq : 1175.581 / d * d = 1175.581) by (field; lra).
  set (q := 1175.581 / d) in *.
  replace (((q - -2.071 - 273.15) * 9 / 5 + 32 - 32) * 5 / 9 + 273.15 + 24.906)
    with (q + 26.977) by lra.
  nra.
Qed.

(** The residual of the solve from the liquid composition 1 at 30000
    bar. *)
Definition highResidual (tempGuess : num) : num :=
  binaryequilibriumEquationFromX tempGuess (Fin highPressure) (Fin 1)
    propaneConstants butaneConstants.

(** At or right of the temperature where the denominator of propane is
    zero, up to 5500 K above it, the residual is positive and above the
    tolerance. *)
Lemma highResidual_right (T : R) :
  0 <= propaneDenominator T <= 5500 ->
  exists v : R, highResidual (Fin T) = Fin v /\ 0.001 < v.
Proof.
  intros [Hlo Hhi].
  destruct (vaporPressure_value T propaneConstants) as (vl & Hvl & Hreg & Hsing); [simpl; lra |].
  destruct (vaporPressure_value T butaneConstants) as (vh & Hvh & _); [simpl; lra |].
  exists (highPressure - (1 * vl + (1 - 1) * vh)). split.
  { unfold highResidual, binaryequilibriumEquationFromX. rewrite Hvl, Hvh. reflexivity. }
  unfold propaneDenominator in *. cbn [C propaneConstants] in Hreg, Hsing.
  unfold highPressure.
  destruct (Req_dec (kelvin T + 24.906) 0) as [Hz | Hnz].
  - rewrite (Hsing Hz). lra.
  - rewrite (Hreg Hnz). unfold antoine. cbn [A B C propaneConstants].
    set (u := kelvin T + 24.906) in *.
    assert (Hu : 0 < u) by lra.
    assert (Hq : 1149.36 / u * u = 1149.36) by (field; lra).
    set (q := 1149.36 / u) in *.
    assert (Hpow : Rpower 10 (4.53678 - q) <= 25000).
    { apply (Rpower10_upper _ _ 433 100); [lra | lia | |].
      - assert (Hm : INR 433 = 433) by (rewrite INR_IZR_INZ; reflexivity).
        assert (Hn : INR 100 = 100) by (rewrite INR_IZR_INZ; reflexivity).
        rewrite Hm, Hn. nra.
      - apply pow_le_IZR. vm_compute. reflexivity. }
    lra.
Qed.

(** Left of that temperature the residual is negative and beyond the
    tolerance. *)
Lemma highResidual_left (T : R) :
  propaneDenominator T < 0 ->
  exists v : R, highResidual (Fin T) = Fin v /\ v < -0.001.
Proof.
  intros Hneg.
  destruct (vaporPressure_value T propaneConstants) as (vl & Hvl & Hreg & _); [simpl; lra |].
  destruct (vaporPressure_value T butaneConstants) as (vh & Hvh & _); [simpl; lra |].
  exists (highPressure - (1 * vl + (1 - 1) * vh)). split.
  { unfold highResidual, binaryequilibriumEquationFromX. rewrite Hvl, Hvh. reflexivity. }
  unfold propaneDenominator in *. cbn [C propaneConstants] in Hreg.
  unfold highPressure.
  rewrite Hreg by lra. unfold antoine. cbn [A B C propaneConstants].
  set (u := kelvin T + 24.906) in *.
  assert (Hq : 1149.36 / u * u = 1149.36) by (field; lra).
  set (q := 1149.36 / u) in *.
  assert (Hpow : 31000 <= Rpower 10 (4.53678 - q)).
  { apply (Rpower10_lower _ _ 9 2); [lra | lia | |].
    - assert (Hm : INR 9 = 9) by (rewrite INR_IZR_INZ; reflexivity).
      assert (Hn : INR 2 = 2) by (rewrite INR_IZR_INZ; reflexivity).
      rewrite Hm, Hn. nra.
    - apply pow_le_IZR. vm_compute. reflexivity. }
  lra.
Qed.

(** The invariant of the diverging loop: [minT] is left of the
    temperature where the denominator of propane is zero, [maxT] is not,
    and [tempGuess] lies between them, at most 5500 K right of that
    temperature. *)
Definition highInvariant (s : bisection) : Prop :=
  exists mn mx g : R,
    minT s = Fin mn /\ maxT s = Fin mx /\ tempGuess s = Fin g /\
    propaneDenominator mn < 0 /\ 0 <= propaneDenominator mx /\
    mn <= g <= mx /\ propaneDenominator g <= 5500 /\
    (propaneDenominator mx <= 5500 \/ 0 <= propaneDenominator g).

Lemma highInvariant_bracket :
  highInvariant (bracket (Fin highPressure) propaneConstants butaneConstants).
Proof.
  rewrite bracket_highPressure.
  pose proof highLight_denominator as Hl. pose proof highHeavy_denominator as Hh.
  exists highHeavy, highLight, ((highLight + highHeavy) / 2).
  cbn [minT maxT tempGuess]. unfold propaneDenominator, kelvin in *.
  repeat split; try reflexivity; lra.
Qed.

Lemma highInvariant_step (s : bisection) :
  highInvariant s ->
  exists s' : bisection, bisectionStep highResidual s = Some s' /\ highInvariant s'.
Proof.
  intros (mn & mx & g & Hmn & Hmx & Hg & Hleft & Hright & Hbetween & Hcap & Hfirst).
  unfold bisectionStep. rewrite Hg, Hmn, Hmx.
  destruct (Rle_lt_dec 0 (propaneDenominator g)) as [Hpos | Hneg].
  - destruct (highResidual_right g) as (v & Hv & Hbig); [lra |].
    rewrite Hv. unfold TOL. cbn [Num.abs Num.gtb Num.ltb].
    destruct (Rlt_dec 0.001 (Rabs v)) as [_ | Hn];
      [| exfalso; apply Hn; rewrite Rabs_pos_eq; lra].
    destruct (Rlt_dec 0 v) as [_ | Hn]; [| lra].
    eexists. split; [reflexivity |].
    exists mn, g, ((mn + g) / 2). cbn [minT maxT tempGuess].
    rewrite add_fin, div_fin by lra.
    unfold propaneDenominator, kelvin in *.
    repeat split; try reflexivity; lra.
  - destruct (highResidual_left g Hneg) as (v & Hv & Hbig).
    rewrite Hv. unfold TOL. cbn [Num.abs Num.gtb Num.ltb].
    destruct (Rlt_dec 0.001 (Rabs v)) as [_ | Hn];
      [| exfalso; apply Hn; rewrite Rabs_left; lra].
    destruct (Rlt_dec 0 v) as [Hn | _]; [lra |].
    eexists. split; [reflexivity |].
    exists g, mx, ((mx + g) / 2). cbn [minT maxT tempGuess].
    rewrite add_fin, div_fin by lra.
    unfold propaneDenominator, kelvin in *.
    repeat split; try reflexivity; lra.
Qed.

Lemma highInvariant_diverges (fuel : nat) :
  forall s : bisection, highInvariant s -> bisectionLoop fuel highResidual s = OutOfFuel.
Proof.
  induction fuel as [| fuel IH]; intros s Hs; simpl; [reflexivity |].
  destruct (highInvariant_step s Hs) as (s' & Hstep & Hs').
  rewrite Hstep. apply IH. exact Hs'.
Qed.


(** The same loop on any residual that is beyond the tolerance on both
    sides of the temperature where the denominator of propane is zero,
    positive at and right of it, not positive left of it. *)
Section HighPressure.

Variable residual : num -> num.

Hypothesis residual_right :
  forall T : R, 0 <= propaneDenominator T <= 5500 ->
    (Num.abs (residual (Fin T)) >? TOL)%num = true /\
    (residual (Fin T) >? Fin 0)%num = true.

Hypothesis residual_left :
  forall T : R, propaneDenominator T < 0 ->
    (Num.abs (residual (Fin T)) >? TOL)%num = true /\
    (residual (Fin T) >? Fin 0)%num = false.

Lemma highInvariant_keeps (s : bisection) :
  highInvariant s ->
  exists s' : bisection, bisectionStep residual s = Some s' /\ highInvariant s'.
Proof.
  intros (mn & mx & g & Hmn & Hmx & Hg & Hleft & Hright & Hbetween & Hcap & Hfirst).
  unfold bisectionStep. rewrite Hg, Hmn, Hmx.
  destruct (Rle_lt_dec 0 (propaneDenominator g)) as [Hpos | Hneg].
  - destruct (residual_right g) as [Hbeyond Hsign]; [lra |].
    rewrite Hbeyond, Hsign.
    eexists. split; [reflexivity |].
    exists mn, g, ((mn + g) / 2). cbn [minT maxT tempGuess].
    rewrite add_fin, div_fin by lra.
    unfold propaneDenominator, kelvin in *.
    repeat split; try reflexivity; lra.
  - destruct (residual_left g Hneg) as [Hbeyond Hsign].
    rewrite Hbeyond, Hsign.
    eexists. split; [reflexivity |].
    exists g, mx, ((mx + g) / 2). cbn [minT maxT tempGuess].
    rewrite add_fin, div_fin by lra.
    unfold propaneDenominator, kelvin in *.
    repeat split; try reflexivity; lra.
Qed.

Lemma highInvariant_never_exits (fuel : nat) :
  forall s : bisection, highInvariant s -> bisectionLoop fuel residual s = OutOfFuel.
Proof.
  induction fuel as [| fuel IH]; intros s Hs; simpl; [reflexivity |].
  destruct (highInvariant_keeps s Hs) as (s' & Hstep & Hs').
  rewrite Hstep. apply IH. exact Hs'.
Qed.

End HighPressure.

(** A positive finite value over a finite value that is not negative. *)
Lemma div_pos_nonneg (u v : R) :
  0 < u -> 0 <= v ->
  (v = 0 /\ (Fin u / Fin v)%num = PInf) \/ (0 < v /\ (Fin u / Fin v)%num = Fin (u / v)).
Proof.
  intros Hu Hv. unfold Num.div. destruct (Req_dec_T v 0) as [Hz | Hnz].
  - left. split; [exact Hz |]. unfold Num.bySign.
    destruct (Rlt_dec 0 u) as [_ | Hn]; [reflexivity | lra].
  - right. split; [lra | reflexivity].
Qed.

(** The residual of the solve from the vapor composition 0.95 at 30000
    bar. *)
Definition highResidualY (tempGuess : num) : num :=
  binaryequilibriumEquationFromY tempGuess (Fin highPressure) (Fin 0.95)
    propaneConstants butaneConstants.

Lemma highResidualY_right (T : R) :
  0 <= propaneDenominator T <= 5500 ->
  (Num.abs (highResidualY (Fin T)) >? TOL)%num = true /\
  (highResidualY (Fin T) >? Fin 0)%num = true.
Proof.
  intros [Hlo Hhi].
  destruct (vaporPressure_value T propaneConstants) as (vl & Hvl & Hreg & Hsing); [simpl; lra |].
  destruct (vaporPressure_value T butaneConstants) as (vh & Hvh & Hregh & Hsingh);
    [simpl; lra |].
  assert (Hvl' : 0 <= vl <= 25000 * 14.503773773).
  { unfold propaneDenominator in *. cbn [C propaneConstants] in Hreg, Hsing.
    destruct (Req_dec (kelvin T + 24.906) 0) as [Hz | Hnz].
    - rewrite (Hsing Hz). lra.
    - rewrite (Hreg Hnz). split; [left; apply antoine_pos |].
      unfold antoine. cbn [A B C propaneConstants].
      set (u := kelvin T + 24.906) in *.
      assert (Hu : 0 < u) by lra.
      assert (Hq : 1149.36 / u * u = 1149.36) by (field; lra).
      set (q := 1149.36 / u) in *.
      apply Rmult_le_compat_r; [lra |].
      apply (Rpower10_upper _ _ 433 100); [lra | lia | |].
      + assert (Hm : INR 433 = 433) by (rewrite INR_IZR_INZ; reflexivity).
        assert (Hn : INR 100 = 100) by (rewrite INR_IZR_INZ; reflexivity).
        rewrite Hm, Hn. nra.
      + apply pow_le_IZR. vm_compute. reflexivity. }
  assert (Hvh' : 0 <= vh).
  { destruct (Req_dec (kelvin T + C butaneConstants) 0) as [Hz | Hnz].
    - rewrite (Hsingh Hz). lra.
    - rewrite (Hregh Hnz). left. apply antoine_pos. }
  unfold highResidualY, binaryequilibriumEquationFromY. cbv zeta. rewrite Hvl, Hvh.
  rewrite sub_fin, !mul_fin.
  assert (Hu1 : 0 < 0.95 * highPressure) by (unfold highPressure; lra).
  assert (Hu2 : 0 < (1 - 0.95) * highPressure) by (unfold highPressure; lra).
  destruct (div_pos_nonneg _ vl Hu1 (proj1 Hvl')) as [[_ ->] | [Hl ->]];
    destruct (div_pos_nonneg _ vh Hu2 Hvh') as [[_ ->] | [Hh ->]];
    try (split; reflexivity).
  rewrite add_fin, sub_fin.
  assert (Hq1 : 1.14 <= 0.95 * highPressure / vl).
  { apply Rmult_le_reg_r with vl; [exact Hl |].
    unfold Rdiv. rewrite Rmult_assoc, Rinv_l by lra. unfold highPressure. lra. }
  assert (Hq2 : 0 < (1 - 0.95) * highPressure / vh) by (apply Rdiv_lt_0_compat; lra).
  unfold TOL. cbn [Num.abs]. split; apply gtb_fin.
  - rewrite Rabs_pos_eq by lra. lra.
  - lra.
Qed.

Lemma highResidualY_left (T : R) :
  propaneDenominator T < 0 ->
  (Num.abs (highResidualY (Fin T)) >? TOL)%num = true /\
  (highResidualY (Fin T) >? Fin 0)%num = false.
Proof.
  intros Hneg. unfold propaneDenominator in Hneg.
  assert (Hl : kelvin T + C propaneConstants <> 0) by (simpl; lra).
  assert (Hh : kelvin T + C butaneConstants <> 0) by (simpl; lra).
  unfold highResidualY. rewrite (equationFromY_fin _ _ _ _ _ Hl Hh).
  unfold residualY.
  assert (Hvl : 31000 * 14.503773773 <= antoine propaneConstants T).
  { unfold antoine. cbn [A B C propaneConstants].
    set (u := kelvin T + 24.906) in *.
    assert (Hq : 1149.36 / u * u = 1149.36) by (field; lra).
    set (q := 1149.36 / u) in *.
    apply Rmult_le_compat_r; [lra |].
    apply (Rpower10_lower _ _ 9 2); [lra | lia | |].
    - assert (Hm : INR 9 = 9) by (rewrite INR_IZR_INZ; reflexivity).
      assert (Hn : INR 2 = 2) by (rewrite INR_IZR_INZ; reflexivity).
      rewrite Hm, Hn. nra.
    - apply pow_le_IZR. vm_compute. reflexivity. }
  assert (Hvh : 21000 * 14.503773773 <= antoine butaneConstants T).
  { unfold antoine. cbn [A B C butaneConstants].
    set (u := kelvin T + -2.071) in *.
    assert (Hu : u < 0) by (unfold u; lra).
    assert (Hq : 1175.581 / u * u = 1175.581) by (field; lra).
    set (q := 1175.581 / u) in *.
    apply Rmult_le_compat_r; [lra |].
    apply (Rpower10_lower _ _ 13 3); [lra | lia | |].
    - assert (Hm : INR 13 = 13) by (rewrite INR_IZR_INZ; reflexivity).
      assert (Hn : INR 3 = 3) by (rewrite INR_IZR_INZ; reflexivity).
      rewrite Hm, Hn. nra.
    - apply pow_le_IZR. vm_compute. reflexivity. }
  set (vl := antoine propaneConstants T) in *.
  set (vh := antoine butaneConstants T) in *.
  assert (Hq1 : 0.95 * highPressure / vl <= 0.92).
  { apply Rmult_le_reg_r with vl; [lra |].
    unfold Rdiv. rewrite Rmult_assoc, Rinv_l by lra. unfold highPressure. lra. }
  assert (Hq2 : (1 - 0.95) * highPressure / vh <= 0.072).
  { apply Rmult_le_reg_r with vh; [lra |].
    unfold Rdiv. rewrite Rmult_assoc, Rinv_l by lra. unfold highPressure. lra. }
  unfold TOL. cbn [Num.abs]. split.
  - apply gtb_fin. rewrite Rabs_left by lra. lra.
  - apply gtb_fin_false. lra.
Qed.

(** At 30000 bar the solve from the vapor composition 0.95 never exits
    its loop either. *)
Lemma equilibriumTemperatureFromY_diverges (fuel : nat) :
  equilibriumTemperatureFromY fuel (Fin highPressure) (Fin 0.95)
    propaneConstants butaneConstants = OutOfFuel.
Proof.
  apply (highInvariant_never_exits highResidualY highResidualY_right highResidualY_left).
  apply highInvariant_bracket.
Qed.

(** ** The direction of a bisection step *)

(** The loop variables after [k] runs of the loop body, when the loop has
    not exited before. *)
Fixpoint bisectionState (k : nat) (residual : num -> num) (s : bisection) : option bisection :=
  match k with
  | O => Some s
  | S k' =>
      match bisectionStep residual s with
      | None => None
      | Some s' => bisectionState k' residual s'
      end
  end.

(** [maxT] is below [tempGuess], which is below [minT]. *)
Definition ordered (s : bisection) : Prop :=
  exists mn mx g : R,
    minT s = Fin mn /\ maxT s = Fin mx /\ tempGuess s = Fin g /\ mx < g < mn.

Lemma bisectionStep_ordered (residual : num -> num) (s s' : bisection) :
  ordered s ->
  bisectionStep residual s = Some s' ->
  ordered s' /\
  exists g g' : R,
    tempGuess s = Fin g /\ tempGuess s' = Fin g' /\
    ((residual (tempGuess s) >? Fin 0)%num = true -> g < g') /\
    ((residual (tempGuess s) >? Fin 0)%num = false -> g' < g).
Proof.
  intros (mn & mx & g & Hmn & Hmx & Hg & Hord). unfold bisectionStep.
  destruct (Num.abs (residual (tempGuess s)) >? TOL)%num; [| discriminate].
  rewrite Hmn, Hmx, Hg.
  destruct (residual (Fin g) >? Fin 0)%num; intros H; injection H as <-;
    cbn [minT maxT tempGuess]; (destruct (Req_dec_T 2 0) as [H2 | _]; [lra |]).
  - split.
    + exists mn, g, ((mn + g) / 2). repeat split; try reflexivity; lra.
    + exists g, ((mn + g) / 2). repeat split; try reflexivity; try discriminate.
      intros _. lra.
  - split.
    + exists g, mx, ((mx + g) / 2). repeat split; try reflexivity; lra.
    + exists g, ((mx + g) / 2). repeat split; try reflexivity; try discriminate.
      intros _. lra.
Qed.

Lemma bisectionState_ordered (residual : num -> num) (k : nat) :
  forall s s' : bisection,
    ordered s -> bisectionState k residual s = Some s' -> ordered s'.
Proof.
  induction k as [| k IH]; intros s s' Hs H; simpl in H.
  - injection H as <-. exact Hs.
  - destruct (bisectionStep residual s) as [s1 |] eqn:Hstep; [| discriminate].
    apply (IH s1); [| exact H].
    apply (bisectionStep_ordered residual s s1 Hs Hstep).
Qed.

(** A negative residual is not positive. *)
Lemma ltb_zero_not_gtb (r : num) :
  (r <? Fin 0)%num = true -> (r >? Fin 0)%num = false.
Proof.
  destruct r as [v | | |]; simpl; try discriminate; try reflexivity.
  destruct (Rlt_dec v 0), (Rlt_dec 0 v); try reflexivity; try discriminate; lra.
Qed.

(** C3 (as amended).  When the boiling point of the light compound is
    below that of the heavy compound, at every iteration of the bisection
    loop of [equilibriumTemperatureFromX] and of
    [equilibriumTemperatureFromY] where the residual at the current guess
    is beyond the tolerance: if the residual is positive the next guess
    is not smaller than the current one, and if it is negative the next
    guess is not larger; in a run that returns the next guess differs
    from the current one, so that it is strictly larger, respectively
    strictly smaller. *)
Theorem bisection_step_direction
    (pressure molFrac : num) (l h : AntoineConstants) (a b : R)
    (residual : num -> num) (k : nat) (s s' : bisection) :
  boilingPointTemperature pressure l = Fin a ->
  boilingPointTemperature pressure h = Fin b ->
  a < b ->
  residual = (fun tempGuess => binaryequilibriumEquationFromX tempGuess pressure molFrac l h) \/
  residual = (fun tempGuess => binaryequilibriumEquationFromY tempGuess pressure molFrac l h) ->
  bisectionState k residual (bracket pressure l h) = Some s ->
  bisectionStep residual s = Some s' ->
  exists g g' : R,
    tempGuess s = Fin g /\ tempGuess s' = Fin g' /\
    ((residual (tempGuess s) >? Fin 0)%num = true -> g <= g') /\
    ((residual (tempGuess s) <? Fin 0)%num = true -> g' <= g) /\
    ((exists (fuel : nat) (t : num), bisectionLoop fuel residual s = Ok t) -> g' <> g).
Proof.
  intros Ha Hb Hab _ Hstate Hstep.
  assert (Hstart : ordered (bracket pressure l h)).
  { unfold bracket. rewrite Ha, Hb. exists b, a, ((a + b) / 2).
    cbn [minT maxT tempGuess]. rewrite add_fin, div_fin by lra.
    repeat split; try reflexivity; lra. }
  pose proof (bisectionState_ordered residual k _ _ Hstart Hstate) as Hs.
  destruct (bisectionStep_ordered residual s s' Hs Hstep)
    as (_ & g & g' & Hg & Hg' & Hpos & Hneg).
  exists g, g'. split; [exact Hg |]. split; [exact Hg' |]. split; [| split].
  - intros Hgt. left. apply Hpos. exact Hgt.
  - intros Hlt. left. apply Hneg. apply ltb_zero_not_gtb. exact Hlt.
  - intros _. destruct (residual (tempGuess s) >? Fin 0)%num.
    + specialize (Hpos eq_refl). lra.
    + specialize (Hneg eq_refl). lra.
Qed.

(** The first guess of the solves at one bar. *)
Definition oneBarGuess : R := (propaneBoilingPoint + butaneBoilingPoint) / 2.

Lemma bracket_oneBar :
  bracket (Fin oneBar) propaneConstants butaneConstants
  = {| minT := Fin butaneBoilingPoint; maxT := Fin propaneBoilingPoint;
       tempGuess := Fin oneBarGuess |}.
Proof. apply (bracket_valid _ _ _ _ _ validBracket_oneBar). Qed.

(** At one bar and the liquid mole fraction 0.5 the residual at the first
    guess is negative and beyond the tolerance. *)
Lemma oneBar_first_residual :
  exists v : R,
    binaryequilibriumEquationFromX (Fin oneBarGuess) (Fin oneBar) (Fin 0.5)
      propaneConstants butaneConstants = Fin v /\ v < -0.001.
Proof.
  exists (residualX oneBar 0.5 propaneConstants butaneConstants oneBarGuess). split.
  - apply equationFromX_fin;
      unfold kelvin, oneBarGuess, propaneBoilingPoint, butaneBoilingPoint; simpl; lra.
  - unfold residualX.
    pose proof (antoine_pos butaneConstants oneBarGuess) as Hh.
    assert (Hl : 2.2 * oneBar <= antoine propaneConstants oneBarGuess).
    { unfold antoine, oneBar. apply Rmult_le_compat_r; [lra |].
      apply (Rpower10_lower _ _ 7 20); [lra | lia | | lra].
      assert (Hm : INR 7 = 7) by (rewrite INR_IZR_INZ; reflexivity).
      assert (Hn : INR 20 = 20) by (rewrite INR_IZR_INZ; reflexivity).
      rewrite Hm, Hn.
      unfold kelvin, oneBarGuess, propaneBoilingPoint, butaneBoilingPoint. simpl. lra. }
    unfold oneBar in *. lra.
Qed.

Lemma oneBar_first_step :
  bisectionStep
    (fun tempGuess => binaryequilibriumEquationFromX tempGuess (Fin oneBar) (Fin 0.5)
                        propaneConstants butaneConstants)
    (bracket (Fin oneBar) propaneConstants butaneConstants)
  = Some {| minT := Fin oneBarGuess; maxT := Fin propaneBoilingPoint;
            tempGuess := Fin ((propaneBoilingPoint + oneBarGuess) / 2) |}.
Proof.
  rewrite bracket_oneBar. unfold bisectionStep. cbn [minT maxT tempGuess].
  destruct oneBar_first_residual as (v & Hv & Hneg). rewrite Hv.
  unfold TOL. cbn [Num.abs Num.gtb Num.ltb].
  destruct (Rlt_dec 0.001 (Rabs v)) as [_ | Hn];
    [| exfalso; apply Hn; rewrite Rabs_left; lra].
  destruct (Rlt_dec 0 v) as [Hn | _]; [lra |].
  rewrite add_fin, div_fin by lra. reflexivity.
Qed.

Lemma bisection_step_direction_witness :
  let s := bracket (Fin oneBar) propaneConstants butaneConstants in
  exists g g' : R,
    tempGuess s = Fin g /\
    Fin ((propaneBoilingPoint + oneBarGuess) / 2) = Fin g' /\
    g' <= g /\ g' <> g.
Proof.
  intros s.
  destruct (bisection_step_direction (Fin oneBar) (Fin 0.5) propaneConstants butaneConstants
              propaneBoilingPoint butaneBoilingPoint
              (fun tempGuess => binaryequilibriumEquationFromX tempGuess (Fin oneBar) (Fin 0.5)
                                  propaneConstants butaneConstants)
              0
              (bracket (Fin oneBar) propaneConstants butaneConstants)
              {| minT := Fin oneBarGuess; maxT := Fin propaneBoilingPoint;
                 tempGuess := Fin ((propaneBoilingPoint + oneBarGuess) / 2) |})
    as (g & g' & Hg & Hg' & _ & Hneg & Hreturns).
  - exact boilingPoint_propane_oneBar.
  - exact boilingPoint_butane_oneBar.
  - unfold propaneBoilingPoint, butaneBoilingPoint. lra.
  - left. reflexivity.
  - reflexivity.
  - exact oneBar_first_step.
  - exists g, g'. split; [exact Hg |]. split; [exact Hg' |]. split.
    + apply Hneg. rewrite bracket_oneBar. cbn [tempGuess].
      destruct oneBar_first_residual as (v & Hv & Hv'). rewrite Hv.
      apply ltb_fin. lra.
    + apply Hreturns.
      destruct (equilibriumTemperatureFromX_converges _ _ _ _ _ validBracket_oneBar 0.5)
        as (fuel & T & HT & _); [lra |].
      exists fuel, (Fin T). exact HT.
Defined.

(** C3, counterexample.  With propane and butane at one bar and the
    liquid mole fraction 0.5, the residual at the first guess of
    [equilibriumTemperatureFromX] is negative and beyond the tolerance,
    and the next guess is strictly smaller than the first, not larger. *)
Lemma bisection_negative_residual_decreases :
  exists (s' : bisection) (v g g' : R),
    bisectionStep
      (fun tempGuess => binaryequilibriumEquationFromX tempGuess (Fin oneBar) (Fin 0.5)
                          propaneConstants butaneConstants)
      (bracket (Fin oneBar) propaneConstants butaneConstants) = Some s' /\
    binaryequilibriumEquationFromX
      (tempGuess (bracket (Fin oneBar) propaneConstants butaneConstants))
      (Fin oneBar) (Fin 0.5) propaneConstants butaneConstants = Fin v /\
    v < -0.001 /\
    tempGuess (bracket (Fin oneBar) propaneConstants butaneConstants) = Fin g /\
    tempGuess s' = Fin g' /\
    g' < g.
Proof.
  destruct oneBar_first_residual as (v & Hv & Hneg).
  eexists. exists v, oneBarGuess, ((propaneBoilingPoint + oneBarGuess) / 2).
  split; [exact oneBar_first_step |].
  rewrite bracket_oneBar. cbn [tempGuess].
  repeat split; try assumption.
  unfold oneBarGuess, propaneBoilingPoint, butaneBoilingPoint. lra.
Qed.

(** ** The range of the reflux ratios [columnSolver] tries *)

Section SolverRange.

Variable delta : num -> res num.

(** A property of reflux ratios that doubling and taking the mean
    preserve. *)
Variable Inv : num -> Prop.
Hypothesis Inv_double : forall x : num, Inv x -> Inv (x * Fin 2)%num.
Hypothesis Inv_mean : forall x y : num, Inv x -> Inv y -> Inv ((x + y) / Fin 2)%num.

Lemma upperBoundLoop_Inv (k : nat) (residualLo : num) :
  forall (maxR residualHi : num) (found : discovery),
    Inv maxR ->
    upperBoundLoop k delta residualLo maxR residualHi = Ok found ->
    match found with
    | Returned r => Inv r
    | Broke m _ | Exhausted m _ => Inv m
    end.
Proof.
  induction k as [| k IH]; intros maxR residualHi found HInv H; simpl in H.
  - injection H as <-. exact HInv.
  - bind_inv H as rh Hrh. apply Inv_double in HInv.
    destruct (negb (Num.isFinite rh)); [exact (IH _ _ _ HInv H) |].
    destruct (Num.abs rh <? TOL)%num; [injection H as <-; exact HInv |].
    destruct (negb (Num.sign rh === Num.sign residualLo)%num);
      [injection H as <-; exact HInv | exact (IH _ _ _ HInv H)].
Qed.

Lemma refineLoop_Inv (i : nat) :
  forall (minR maxR guessR r : num),
    Inv minR -> Inv maxR -> Inv guessR ->
    refineLoop i delta minR maxR guessR = Ok r ->
    r = Fin (-1) \/ Inv r.
Proof.
  induction i as [| i IH]; intros minR maxR guessR r Hmin Hmax Hguess H; simpl in H.
  - injection H as <-. left; reflexivity.
  - bind_inv H as error Herror.
    destruct (Num.abs error <? TOL)%num; [injection H as <-; right; exact Hguess |].
    destruct (error <? Fin 0)%num; apply IH in H; auto.
Qed.

End SolverRange.

(** Being at least a positive number or [+Infinity] is such a
    property. *)
Definition positive (lo : num) : Prop :=
  match lo with
  | Fin c => 0 < c
  | PInf => True
  | _ => False
  end.

Lemma leb_double (lo x : num) :
  positive lo -> (lo <=? x)%num = true -> (lo <=? x * Fin 2)%num = true.
Proof.
  destruct lo as [c | | |], x as [v | | |]; simpl; try discriminate; try contradiction;
    intros Hc; unfold Num.bySign;
    repeat match goal with
      | |- context [Rle_dec ?u ?w] => destruct (Rle_dec u w)
      | |- context [Rlt_dec ?u ?w] => destruct (Rlt_dec u w)
      end; simpl; intros; try reflexivity; try discriminate; lra.
Qed.

Lemma leb_mean (lo x y : num) :
  positive lo -> (lo <=? x)%num = true -> (lo <=? y)%num = true ->
  (lo <=? (x + y) / Fin 2)%num = true.
Proof.
  destruct lo as [c | | |], x as [v | | |], y as [w | | |]; simpl;
    try discriminate; try contradiction; intros Hc;
    repeat match goal with
      | |- context [Req_dec_T ?u ?w] => destruct (Req_dec_T u w)
      | |- context [Rle_dec ?u ?w] => destruct (Rle_dec u w)
      | |- context [Rlt_dec ?u ?w] => destruct (Rlt_dec u w)
      end; simpl; intros; try reflexivity; try discriminate; lra.
Qed.

(** Being NaN is another. *)
Lemma NaN_double (x : num) : x = NaN -> (x * Fin 2)%num = NaN.
Proof. intros ->. reflexivity. Qed.

Lemma NaN_mean (x y : num) : x = NaN -> y = NaN -> ((x + y) / Fin 2)%num = NaN.
Proof. intros -> ->. reflexivity. Qed.

(** [Math.max(1e-8, m)] is NaN, or positive and at least [1e-8] and
    [m]. *)
Lemma max_floor (m : num) :
  Num.max (Fin 1e-8) m = NaN \/
  (positive (Num.max (Fin 1e-8) m) /\
   (Fin 1e-8 <=? Num.max (Fin 1e-8) m)%num = true /\
   (m <=? Num.max (Fin 1e-8) m)%num = true).
Proof.
  destruct m as [v | | |]; simpl; [right | right | right | left; reflexivity].
  - unfold Rmax. destruct (Rle_dec 1e-8 v); simpl;
      repeat match goal with
        | |- context [Rle_dec ?u ?w] => destruct (Rle_dec u w)
        end; repeat split; try reflexivity; try lra.
  - repeat split; reflexivity.
  - destruct (Rle_dec 1e-8 1e-8); repeat split; try reflexivity; lra.
Qed.

Lemma leb_refl_positive (x : num) : positive x -> (x <=? x)%num = true.
Proof.
  destruct x as [v | | |]; simpl; try contradiction; try reflexivity.
  intros _. destruct (Rle_dec v v); [reflexivity | lra].
Qed.

Lemma leb_trans (x y z : num) :
  (x <=? y)%num = true -> (y <=? z)%num = true -> (x <=? z)%num = true.
Proof.
  destruct x as [u | | |], y as [v | | |], z as [w | | |]; simpl;
    try discriminate; try reflexivity;
    repeat match goal with
      | |- context [Rle_dec ?a ?b] => destruct (Rle_dec a b)
      end; intros; try reflexivity; try discriminate; lra.
Qed.

(** What [columnSolver] returns: the sentinel, a reflux ratio at least
    the floored minimum reflux ratio, or NaN when that minimum is NaN. *)
Lemma columnSolver_range
    (fuel : nat) (feedRate xFeed xDistillate xBottoms pressure : num)
    (feedTray totalTrays : Z) (lightAntConsts heavyAntConsts : AntoineConstants)
    (m r : num) :
  minimumRefluxRatio fuel xFeed xDistillate pressure lightAntConsts heavyAntConsts = Ok m ->
  columnSolver fuel feedRate xFeed xDistillate xBottoms pressure feedTray totalTrays
    lightAntConsts heavyAntConsts = Ok r ->
  r = Fin (-1) \/
  (Num.max (Fin 1e-8) m <=? r)%num = true \/
  (r = NaN /\ Num.max (Fin 1e-8) m = NaN).
Proof.
  intros Hm H. unfold columnSolver in H. rewrite Hm in H.
  cbn [mbind res_bind] in H. cbv beta zeta in H.
  set (minR := Num.max (Fin 1e-8) m) in *.
  set (delta := fun guessR : num =>
         feedTrayDelta fuel guessR feedRate xFeed xDistillate xBottoms pressure
           feedTray totalTrays lightAntConsts heavyAntConsts) in *.
  assert (Hloops : forall Inv : num -> Prop,
             (forall x, Inv x -> Inv (x * Fin 2)%num) ->
             (forall x y, Inv x -> Inv y -> Inv ((x + y) / Fin 2)%num) ->
             Inv minR -> r = Fin (-1) \/ Inv r).
  { intros Inv Hdouble Hmean Hstart.
    bind_inv H as residualLo Hlo. change (delta minR = Ok residualLo) in Hlo.
    destruct (Num.abs residualLo <? TOL)%num; [injection H as <-; right; exact Hstart |].
    bind_inv H as found Hfound.
    pose proof (upperBoundLoop_Inv delta Inv Hdouble _ _ _ _ _ Hstart Hfound) as Hend.
    destruct found as [maxR | maxR residualHi | maxR residualHi];
      [injection H as <-; right; exact Hend | |];
      (destruct (negb (Num.isFinite residualHi)
                 || (Num.sign residualHi === Num.sign residualLo)%num);
       [injection H as <-; left; reflexivity |
        apply (refineLoop_Inv delta Inv Hmean) in H; auto]). }
  destruct (max_floor m) as [HNaN | (Hpos & _ & _)]; fold minR in HNaN || fold minR in Hpos.
  - destruct (Hloops (fun x => x = NaN) NaN_double NaN_mean HNaN) as [Hr | Hr]; auto.
  - destruct (Hloops (fun x => (minR <=? x)%num = true)) as [Hr | Hr]; auto.
    + intros x. apply leb_double. exact Hpos.
    + intros x y. apply leb_mean. exact Hpos.
    + apply leb_refl_positive. exact Hpos.
Qed.

(** ** NaN as a reflux ratio *)

Lemma div_NaN_r (x : num) : (x / NaN)%num = NaN.
Proof. destruct x; reflexivity. Qed.

Lemma sub_NaN_r (x : num) : (x - NaN)%num = NaN.
Proof. destruct x; reflexivity. Qed.

Lemma strippingOperatingLine_NaN (bottomsMolFrac vaporMolFraction : num) :
  strippingOperatingLine NaN bottomsMolFrac vaporMolFraction = NaN.
Proof.
  destruct bottomsMolFrac, vaporMolFraction; reflexivity.
Qed.

Lemma strippingLoop_NaN (count fuel : nat) (pressure bottomsMolFrac : num)
    (l h : AntoineConstants) :
  forall liqMolFrac vapMolFrac v : num,
    strippingLoop (S count) fuel NaN pressure bottomsMolFrac l h liqMolFrac vapMolFrac = Ok v ->
    v = NaN.
Proof.
  induction count as [| count IH]; intros liqMolFrac vapMolFrac v H;
    cbn [strippingLoop] in H; rewrite strippingOperatingLine_NaN in H;
    bind_inv H as vap Hvap.
  - injection H as <-. reflexivity.
  - exact (IH NaN vap v H).
Qed.

(** With at least one tray in the stripping section, the feed-tray delta
    at the reflux ratio NaN is NaN. *)
Lemma feedTrayDelta_NaN
    (fuel : nat) (feedRate xFeed xDistillate xBottoms pressure : num)
    (feedTray totalTrays : Z) (l h : AntoineConstants) (d : num) :
  (feedTray <= totalTrays)%Z ->
  feedTrayDelta fuel NaN feedRate xFeed xDistillate xBottoms pressure
    feedTray totalTrays l h = Ok d ->
  d = NaN.
Proof.
  intros Htrays H. unfold feedTrayDelta in H.
  destruct (productRates feedRate xFeed xDistillate xBottoms) as [distillateRate bottomsRate].
  bind_inv H as xRectifying Hrect. bind_inv H as xStripping Hstrip.
  injection H as <-.
  unfold strippingSection in Hstrip. bind_inv Hstrip as vap Hvap.
  destruct (Z.to_nat (totalTrays - feedTray + 1)) as [| count] eqn:Hcount; [lia |].
  change (boilUpRatio NaN distillateRate bottomsRate) with NaN in Hstrip.
  apply strippingLoop_NaN in Hstrip. subst xStripping. apply sub_NaN_r.
Qed.

Lemma upperBoundLoop_NaN (delta : num -> res num) (residualLo : num) (k : nat) :
  (forall d : num, delta NaN = Ok d -> d = NaN) ->
  forall found : discovery,
    upperBoundLoop k delta residualLo NaN NaN = Ok found ->
    found = Exhausted NaN NaN.
Proof.
  intros Hdelta. induction k as [| k IH]; intros found H; simpl in H.
  - injection H as <-. reflexivity.
  - bind_inv H as rh Hrh. apply Hdelta in Hrh. subst rh. simpl in H.
    apply IH. exact H.
Qed.

(** With at least one tray in the stripping section, a minimum reflux
    ratio that is NaN makes [columnSolver] return the sentinel. *)
Lemma columnSolver_NaN_minimum
    (fuel : nat) (feedRate xFeed xDistillate xBottoms pressure : num)
    (feedTray totalTrays : Z) (l h : AntoineConstants) (m r : num) :
  (feedTray <= totalTrays)%Z ->
  minimumRefluxRatio fuel xFeed xDistillate pressure l h = Ok m ->
  Num.max (Fin 1e-8) m = NaN ->
  columnSolver fuel feedRate xFeed xDistillate xBottoms pressure feedTray totalTrays l h = Ok r ->
  r = Fin (-1).
Proof.
  intros Htrays Hm HNaN H. unfold columnSolver in H.
  bind_inv H as m' Hm'. rewrite Hm in Hm'. injection Hm' as <-.
  bind_inv H as residualLo Hlo. rewrite HNaN in Hlo, H.
  apply feedTrayDelta_NaN in Hlo; [| exact Htrays]. subst residualLo.
  destruct (Num.abs NaN <? TOL)%num eqn:Htol; [discriminate Htol |].
  bind_inv H as found Hfound.
  apply upperBoundLoop_NaN in Hfound.
  - subst found.
    destruct (negb (Num.isFinite NaN) || (Num.sign NaN === Num.sign NaN)%num) eqn:Htest;
      [| discriminate Htest].
    injection H as <-. reflexivity.
  - intros d Hd. apply feedTrayDelta_NaN in Hd; [exact Hd | exact Htrays].
Qed.

(** C10 (as amended).  Whenever [columnSolver] returns, the value is
    exactly [-1], or at least [1e-8], or NaN, and NaN only when
    [totalTrays < feedTray]: it is never 0, never in the open interval
    (0, 1e-8) and never a negative value other than [-1].  Apart from the
    NaN case, the test [result <= 0] of the caller holds exactly when the
    result is the sentinel. *)
Theorem columnSolver_sentinel_or_floor
    (fuel : nat) (feedRate xFeed xDistillate xBottoms pressure : num)
    (feedTray totalTrays : Z) (l h : AntoineConstants) (r : num) :
  columnSolver fuel feedRate xFeed xDistillate xBottoms pressure feedTray totalTrays l h = Ok r ->
  (r = Fin (-1) \/
   (Fin 1e-8 <=? r)%num = true \/
   (r = NaN /\ (totalTrays < feedTray)%Z)) /\
  ((r <=? Fin 0)%num = true <-> r = Fin (-1)).
Proof.
  intros H.
  assert (Hm : exists m, minimumRefluxRatio fuel xFeed xDistillate pressure l h = Ok m).
  { unfold columnSolver in H. apply bind_Ok in H. destruct H as (m & Hm & _). eauto. }
  destruct Hm as (m & Hm).
  assert (Hcases : r = Fin (-1) \/ (Fin 1e-8 <=? r)%num = true \/
                   (r = NaN /\ (totalTrays < feedTray)%Z)).
  { destruct (columnSolver_range _ _ _ _ _ _ _ _ _ _ m r Hm H) as [Hr | [Hr | [Hr HNaN]]].
    - left; exact Hr.
    - right; left.
      destruct (max_floor m) as [HNaN | (_ & Hfloor & _)].
      + rewrite HNaN in Hr. discriminate.
      + eapply leb_trans; eassumption.
    - destruct (Z_le_gt_dec feedTray totalTrays) as [Hle | Hgt].
      + left. eapply columnSolver_NaN_minimum; eassumption.
      + right; right. split; [exact Hr | lia]. }
  split; [exact Hcases |].
  destruct Hcases as [-> | [Hr | [-> _]]].
  - split; [reflexivity |]. intros _. simpl.
    destruct (Rle_dec (-1) 0); [reflexivity | lra].
  - destruct r as [v | | |]; simpl in *; try discriminate;
      repeat match goal with
        | _ : context [Rle_dec ?a ?b] |- _ => destruct (Rle_dec a b)
        | |- context [Rle_dec ?a ?b] => destruct (Rle_dec a b)
        end; split; intros Hq; try discriminate; try lra.
    injection Hq as ->. lra.
  - split; discriminate.
Qed.

(** C6 (as amended).  For every specification with
    [feedTray <= totalTrays], a reflux ratio that [columnSolver] returns
    and that is not the sentinel is at least the minimum reflux ratio
    computed for the same specification: it is not below it, and it may
    be equal to it. *)
Theorem columnSolver_at_least_minimum
    (fuel : nat) (feedRate xFeed xDistillate xBottoms pressure : num)
    (feedTray totalTrays : Z) (l h : AntoineConstants) (m r : num) :
  (feedTray <= totalTrays)%Z ->
  minimumRefluxRatio fuel xFeed xDistillate pressure l h = Ok m ->
  columnSolver fuel feedRate xFeed xDistillate xBottoms pressure feedTray totalTrays l h = Ok r ->
  r <> Fin (-1) ->
  (m <=? r)%num = true.
Proof.
  intros Htrays Hm H Hr.
  destruct (columnSolver_range _ _ _ _ _ _ _ _ _ _ m r Hm H) as [Hs | [Hge | [_ HNaN]]].
  - contradiction.
  - destruct (max_floor m) as [HNaN | (_ & _ & Hfloor)].
    + rewrite HNaN in Hge. discriminate.
    + eapply leb_trans; eassumption.
  - exfalso. apply Hr. eapply columnSolver_NaN_minimum; eassumption.
Qed.

(** ** Equilibrium compositions on a well-formed bracket *)

Section EquilibriumCompositions.

Variables (p : R) (l h : AntoineConstants) (a b : R).
Hypothesis Hvalid : validBracket p l h a b.

(** With enough fuel [vapMolFraction] returns, from a temperature of the
    bracket where the residual is within the tolerance. *)
Lemma vapMolFraction_converges (x : R) :
  0 <= x <= 1 ->
  exists (n : nat) (T : R),
    a <= T <= b /\ (a <> b -> a < T < b) /\
    Rabs (residualX p x l h T) <= 0.001 /\
    forall fuel : nat, (n <= fuel)%nat ->
      equilibriumTemperatureFromX fuel (Fin p) (Fin x) l h = Ok (Fin T) /\
      vapMolFraction fuel (Fin p) (Fin x) l h = Ok (Fin (x * antoine l T / p)).
Proof.
  intros Hx.
  destruct (equilibriumTemperatureFromX_converges p l h a b Hvalid x Hx)
    as (n & T & HT & Hin & Hstrict & Hres).
  exists n, T. split; [exact Hin |]. split; [exact Hstrict |]. split; [exact Hres |].
  intros fuel Hfuel.
  assert (HT' : equilibriumTemperatureFromX fuel (Fin p) (Fin x) l h = Ok (Fin T)).
  { unfold equilibriumTemperatureFromX in *.
    eapply bisectionLoop_more_fuel; eassumption. }
  split; [exact HT' |].
  unfold vapMolFraction. rewrite HT'. cbn [mbind res_bind].
  destruct (vb_denominators p l h a b Hvalid T) as [Hl _]; [lra |].
  rewrite vaporPressure_antoine by lra.
  pose proof (vb_pressure _ _ _ _ _ Hvalid).
  rewrite mul_fin, div_fin by lra. reflexivity.
Qed.

Lemma liqMolFraction_converges (y : R) :
  0 <= y <= 1 ->
  exists (n : nat) (T : R),
    a <= T <= b /\ (a <> b -> a < T < b) /\
    Rabs (residualY p y l h T) <= 0.001 /\
    forall fuel : nat, (n <= fuel)%nat ->
      equilibriumTemperatureFromY fuel (Fin p) (Fin y) l h = Ok (Fin T) /\
      liqMolFraction fuel (Fin p) (Fin y) l h = Ok (Fin (y * p / antoine l T)).
Proof.
  intros Hy.
  destruct (equilibriumTemperatureFromY_converges p l h a b Hvalid y Hy)
    as (n & T & HT & Hin & Hstrict & Hres).
  exists n, T. split; [exact Hin |]. split; [exact Hstrict |]. split; [exact Hres |].
  intros fuel Hfuel.
  assert (HT' : equilibriumTemperatureFromY fuel (Fin p) (Fin y) l h = Ok (Fin T)).
  { unfold equilibriumTemperatureFromY in *.
    eapply bisectionLoop_more_fuel; eassumption. }
  split; [exact HT' |].
  unfold liqMolFraction. rewrite HT'. cbn [mbind res_bind].
  destruct (vb_denominators p l h a b Hvalid T) as [Hl _]; [lra |].
  rewrite vaporPressure_antoine by lra.
  pose proof (antoine_pos l T).
  rewrite mul_fin, div_fin by lra. reflexivity.
Qed.

(** The equilibrium liquid of a vapor composition in [[0, 1]] is in
    [[0, 1]] too, at most the vapor composition. *)
Lemma equilibrium_liquid_range (y T : R) :
  0 <= y <= 1 -> a <= T -> 0 <= y * p / antoine l T <= y.
Proof.
  intros Hy HT. pose proof (vb_light_ge p l h a b Hvalid T HT) as Hge.
  pose proof (vb_pressure _ _ _ _ _ Hvalid) as Hp.
  assert (Hq : 0 < p / antoine l T <= 1).
  { split; [apply Rdiv_lt_0_compat; lra | apply Rdiv_le_one; lra]. }
  replace (y * p / antoine l T) with (y * (p / antoine l T)) by (field; lra).
  nra.
Qed.

End EquilibriumCompositions.

(** At one bar, on the bracket, the vapor pressure of propane is
    between one and ten bar. *)
Lemma oneBar_propane_range (T : R) :
  propaneBoilingPoint <= T <= butaneBoilingPoint ->
  oneBar <= antoine propaneConstants T <= 10 * oneBar.
Proof.
  intros [HaT HTb]. split.
  - apply (vb_light_ge _ _ _ _ _ validBracket_oneBar). exact HaT.
  - apply Rle_trans with (antoine propaneConstants butaneBoilingPoint).
    + apply antoine_le; [simpl; lra | | exact HTb].
      destruct (vb_denominators _ _ _ _ _ validBracket_oneBar T HaT). assumption.
    + unfold antoine, oneBar. apply Rmult_le_compat_r; [lra |].
      apply (Rpower10_upper _ _ 1 1); [lra | lia | | lra].
      assert (Hm : INR 1 = 1) by reflexivity. rewrite Hm.
      unfold kelvin, butaneBoilingPoint. simpl. lra.
Qed.

(** When the feed-tray delta at the floored minimum reflux ratio is
    within the tolerance, [columnSolver] returns that reflux ratio. *)
Lemma columnSolver_first_return
    (fuel : nat) (feedRate xFeed xDistillate xBottoms pressure : num)
    (feedTray totalTrays : Z) (l h : AntoineConstants) (m d : num) :
  minimumRefluxRatio fuel xFeed xDistillate pressure l h = Ok m ->
  feedTrayDelta fuel (Num.max (Fin 1e-8) m) feedRate xFeed xDistillate xBottoms pressure
    feedTray totalTrays l h = Ok d ->
  (Num.abs d <? TOL)%num = true ->
  columnSolver fuel feedRate xFeed xDistillate xBottoms pressure feedTray totalTrays l h
  = Ok (Num.max (Fin 1e-8) m).
Proof.
  intros Hm Hd Htol. unfold columnSolver. rewrite Hm.
  cbn [mbind res_bind]. cbv beta zeta. rewrite Hd.
  cbn [mbind res_bind]. rewrite Htol. reflexivity.
Qed.

(** ** Concrete runs at one bar *)

Lemma equationFromX_NaN (T pressure : num) (l h : AntoineConstants) :
  binaryequilibriumEquationFromX T pressure NaN l h = NaN.
Proof.
  unfold binaryequilibriumEquationFromX. cbn [Num.mul].
  apply sub_NaN_r.
Qed.

Lemma equationFromY_NaN (T pressure : num) (l h : AntoineConstants) :
  binaryequilibriumEquationFromY T pressure NaN l h = NaN.
Proof.
  unfold binaryequilibriumEquationFromY. reflexivity.
Qed.

(** A residual that is NaN ends the loop at once. *)
Lemma bisectionLoop_NaN (fuel : nat) (residual : num -> num) (s : bisection) :
  residual (tempGuess s) = NaN ->
  bisectionLoop (S fuel) residual s = Ok (tempGuess s).
Proof.
  intros H. simpl. unfold bisectionStep. rewrite H. reflexivity.
Qed.

Lemma liqMolFraction_NaN (fuel : nat) (pressure : num) (l h : AntoineConstants) :
  liqMolFraction (S fuel) pressure NaN l h = Ok NaN.
Proof.
  unfold liqMolFraction, equilibriumTemperatureFromY.
  rewrite bisectionLoop_NaN by apply equationFromY_NaN. reflexivity.
Qed.

Lemma vapMolFraction_NaN (fuel : nat) (pressure : num) (l h : AntoineConstants) :
  vapMolFraction (S fuel) pressure NaN l h = Ok NaN.
Proof.
  unfold vapMolFraction, equilibriumTemperatureFromX.
  rewrite bisectionLoop_NaN by apply equationFromX_NaN. reflexivity.
Qed.

Lemma equilibriumTemperatureFromX_NaN (fuel : nat) (pressure : num) (l h : AntoineConstants) :
  equilibriumTemperatureFromX (S fuel) pressure NaN l h
  = Ok (tempGuess (bracket pressure l h)).
Proof.
  unfold equilibriumTemperatureFromX.
  apply bisectionLoop_NaN, equationFromX_NaN.
Qed.

(** A lean column at one bar: the run of [columnSolver] on the feed
    composition 0.00001, the distillate composition 0.0002, the bottoms
    composition 0 and a single tray returns at its first test, with the
    minimum reflux ratio itself. *)
Lemma columnSolver_lean_column :
  exists (fuel : nat) (m : R),
    1e-8 <= m /\
    minimumRefluxRatio fuel (Fin 0.00001) (Fin 0.0002) (Fin oneBar)
      propaneConstants butaneConstants = Ok (Fin m) /\
    columnSolver fuel (Fin 1000) (Fin 0.00001) (Fin 0.0002) (Fin 0) (Fin oneBar) 1 1
      propaneConstants butaneConstants = Ok (Fin m).
Proof.
  pose proof validBracket_oneBar as Hvalid.
  assert (Hne : propaneBoilingPoint <> butaneBoilingPoint)
    by (unfold propaneBoilingPoint, butaneBoilingPoint; lra).
  destruct (vapMolFraction_converges _ _ _ _ _ Hvalid 0.00001) as (n1 & T1 & Hin1 & Hs1 & _ & H1);
    [lra |].
  destruct (liqMolFraction_converges _ _ _ _ _ Hvalid 0.0002) as (n2 & T2 & Hin2 & _ & _ & H2);
    [lra |].
  destruct (vapMolFraction_converges _ _ _ _ _ Hvalid 0) as (n3 & T3 & Hin3 & _ & _ & H3);
    [lra |].
  set (fuel := (n1 + n2 + n3)%nat).
  destruct (H1 fuel) as [_ Hvap1]; [lia |].
  destruct (H2 fuel) as [_ Hliq2]; [lia |].
  destruct (H3 fuel) as [_ Hvap3]; [lia |].
  clear H1 H2 H3.
  pose proof (oneBar_propane_range T1 Hin1) as [_ Hup1].
  pose proof (vb_light_gt _ _ _ _ _ Hvalid T1 (proj1 (Hs1 Hne))) as Hlo1.
  pose proof (equilibrium_liquid_range _ _ _ _ _ Hvalid 0.0002 T2) as Hx2.
  set (pl1 := antoine propaneConstants T1) in *.
  set (x2 := 0.0002 * oneBar / antoine propaneConstants T2) in *.
  set (y1 := 0.00001 * pl1 / oneBar) in *.
  assert (Hy1 : 0.00001 < y1 <= 0.0001).
  { unfold y1, oneBar in *. lra. }
  set (sl := (0.0002 - y1) / (0.0002 - 0.00001)).
  assert (Hsl : 0.5 <= sl < 1) by (unfold sl; lra).
  set (m := sl / (1 - sl)).
  assert (Hm : 1 <= m).
  { assert (Hq : m * (1 - sl) = sl) by (unfold m; field; lra). nra. }
  assert (HminR : minimumRefluxRatio fuel (Fin 0.00001) (Fin 0.0002) (Fin oneBar)
                    propaneConstants butaneConstants = Ok (Fin m)).
  { unfold minimumRefluxRatio. rewrite Hvap1. cbn [mbind res_bind].
    fold y1. rewrite !sub_fin. rewrite div_fin by lra. fold sl.
    rewrite sub_fin, div_fin by lra. reflexivity. }
  exists fuel, m. split; [lra |]. split; [exact HminR |].
  assert (Hmax : Num.max (Fin 1e-8) (Fin m) = Fin m).
  { simpl. f_equal. apply Rmax_right. lra. }
  rewrite <- Hmax.
  apply columnSolver_first_return with (d := Fin (x2 - 0)); [exact HminR | |].
  - rewrite Hmax. unfold feedTrayDelta, productRates.
    rewrite !sub_fin, mul_fin, div_fin by lra. rewrite sub_fin.
    set (D := 1000 * (0.00001 - 0) / (0.0002 - 0)).
    assert (HD : D = 50) by (unfold D; lra).
    unfold rectifyingSection. rewrite Hliq2. cbn [mbind res_bind].
    change (Z.to_nat (1 - 1)) with 0%nat. cbn [rectifyingLoop mbind res_bind].
    unfold boilUpRatio. rewrite add_fin, mul_fin, div_fin by lra.
    set (S := (m + 1) * D / (1000 - D)).
    assert (HS : 0 < S).
    { unfold S. rewrite HD. apply Rdiv_lt_0_compat; lra. }
    unfold strippingSection. rewrite Hvap3. cbn [mbind res_bind].
    change (Z.to_nat (1 - 1 + 1)) with 1%nat. cbn [strippingLoop].
    unfold strippingOperatingLine.
    rewrite (div_fin 0 S) by lra. rewrite !add_fin, mul_fin.
    rewrite div_fin by lra.
    replace ((0 * antoine propaneConstants T3 / oneBar + 0 / S) * S / (S + 1)) with 0
      by (unfold oneBar; field; lra).
    rewrite Hvap3. cbn [mbind res_bind]. rewrite sub_fin. reflexivity.
  - unfold TOL. apply ltb_fin. destruct Hx2 as [Hx2l Hx2u]; [lra | lra |].
    rewrite Rminus_0_r, Rabs_pos_eq by lra. lra.
Qed.

(** A column whose bottoms are pure butane, at one bar with the feed on
    the only tray: the stripping march stays at the composition 0 and the
    rectifying march does not depend on the reflux ratio, so the feed-tray
    delta is the same at every positive reflux ratio, and beyond the
    tolerance. *)
Lemma feedTrayDelta_pure_bottoms :
  exists (fuel : nat) (m0 d : R),
    0.001 < d /\
    minimumRefluxRatio fuel (Fin 0.5) (Fin 0.95) (Fin oneBar)
      propaneConstants butaneConstants = Ok (Fin m0) /\
    forall rho : R, 0 < rho ->
      feedTrayDelta fuel (Fin rho) (Fin 1000) (Fin 0.5) (Fin 0.95) (Fin 0) (Fin oneBar) 1 1
        propaneConstants butaneConstants = Ok (Fin d).
Proof.
  pose proof validBracket_oneBar as Hvalid.
  assert (Hne : propaneBoilingPoint <> butaneBoilingPoint)
    by (unfold propaneBoilingPoint, butaneBoilingPoint; lra).
  destruct (vapMolFraction_converges _ _ _ _ _ Hvalid 0.5) as (n1 & T1 & Hin1 & Hs1 & _ & H1);
    [lra |].
  destruct (liqMolFraction_converges _ _ _ _ _ Hvalid 0.95) as (n2 & T2 & Hin2 & _ & _ & H2);
    [lra |].
  destruct (vapMolFraction_converges _ _ _ _ _ Hvalid 0) as (n3 & T3 & Hin3 & _ & _ & H3);
    [lra |].
  set (fuel := (n1 + n2 + n3)%nat).
  destruct (H1 fuel) as [_ Hvap1]; [lia |].
  destruct (H2 fuel) as [_ Hliq2]; [lia |].
  destruct (H3 fuel) as [_ Hvap3]; [lia |].
  clear H1 H2 H3.
  pose proof (vb_light_gt _ _ _ _ _ Hvalid T1 (proj1 (Hs1 Hne))) as Hlo1.
  pose proof (oneBar_propane_range T2 Hin2) as [Hlo2 Hup2].
  set (pl1 := antoine propaneConstants T1) in *.
  set (pl2 := antoine propaneConstants T2) in *.
  set (y1 := 0.5 * pl1 / oneBar) in *.
  set (x2 := 0.95 * oneBar / pl2) in *.
  assert (Hy1 : 0.5 < y1) by (unfold y1, oneBar in *; lra).
  assert (Hx2 : 0.09 <= x2).
  { unfold x2. apply Rmult_le_reg_r with pl2; [unfold oneBar in *; lra |].
    unfold Rdiv. rewrite Rmult_assoc, Rinv_l by (unfold oneBar in *; lra).
    unfold oneBar in *. lra. }
  set (sl := (0.95 - y1) / (0.95 - 0.5)).
  assert (Hsl : 1 - sl = (y1 - 0.5) / 0.45) by (unfold sl; lra).
  assert (Hsl' : 0 < 1 - sl) by (rewrite Hsl; lra).
  exists fuel, (sl / (1 - sl)), (x2 - 0).
  split; [lra |]. split.
  - unfold minimumRefluxRatio. rewrite Hvap1. cbn [mbind res_bind].
    fold y1. rewrite !sub_fin. rewrite div_fin by lra. fold sl.
    rewrite sub_fin, div_fin by lra. reflexivity.
  - intros rho Hrho. unfold feedTrayDelta, productRates.
    rewrite !sub_fin, mul_fin, div_fin by lra. rewrite sub_fin.
    set (D := 1000 * (0.5 - 0) / (0.95 - 0)).
    assert (HD : 526 <= D <= 527) by (unfold D; lra).
    unfold rectifyingSection. rewrite Hliq2. cbn [mbind res_bind].
    change (Z.to_nat (1 - 1)) with 0%nat. cbn [rectifyingLoop mbind res_bind].
    unfold boilUpRatio. rewrite add_fin, mul_fin, div_fin by lra.
    set (S := (rho + 1) * D / (1000 - D)).
    assert (HS : 0 < S).
    { unfold S. apply Rdiv_lt_0_compat; [nra | lra]. }
    unfold strippingSection. rewrite Hvap3. cbn [mbind res_bind].
    change (Z.to_nat (1 - 1 + 1)) with 1%nat. cbn [strippingLoop].
    unfold strippingOperatingLine.
    rewrite (div_fin 0 S) by lra. rewrite !add_fin, mul_fin.
    rewrite div_fin by lra.
    replace ((0 * antoine propaneConstants T3 / oneBar + 0 / S) * S / (S + 1)) with 0
      by (unfold oneBar; field; lra).
    rewrite Hvap3. cbn [mbind res_bind]. rewrite sub_fin. reflexivity.
Qed.

Lemma doubled_fin (m : R) (j : nat) : doubled (Fin m) j = Fin (m * 2 ^ j).
Proof.
  revert m. induction j as [| j IH]; intros m; cbn [doubled].
  - f_equal. simpl. lra.
  - rewrite mul_fin, IH. f_equal. simpl. lra.
Qed.

Lemma upper_bound_search_sentinel_witness :
  exists fuel : nat,
    columnSolver fuel (Fin 1000) (Fin 0.5) (Fin 0.95) (Fin 0) (Fin oneBar) 1 1
      propaneConstants butaneConstants = Ok (Fin (-1)).
Proof.
  destruct feedTrayDelta_pure_bottoms as (fuel & m0 & d & Hd & Hmin & Hdelta).
  exists fuel.
  assert (Hmax : Num.max (Fin 1e-8) (Fin m0) = Fin (Rmax 1e-8 m0)) by reflexivity.
  assert (Hm : 0 < Rmax 1e-8 m0).
  { apply Rlt_le_trans with 1e-8; [lra | apply Rmax_l]. }
  assert (Hbeyond : (Num.abs (Fin d) <? TOL)%num = false).
  { unfold TOL. apply ltb_fin_false. rewrite Rabs_pos_eq by lra. lra. }
  apply (proj1 (upper_bound_search_sentinel fuel (Fin 1000) (Fin 0.5) (Fin 0.95) (Fin 0)
                  (Fin oneBar) 1 1 propaneConstants butaneConstants
                  (Fin m0) (Fin d) (fun _ => Fin d) Hmin
                  ltac:(rewrite Hmax; apply Hdelta; exact Hm) Hbeyond)).
  intros j Hj. rewrite Hmax, doubled_fin. split.
  - apply Hdelta. apply Rmult_lt_0_compat; [exact Hm | apply pow_lt; lra].
  - right. split; [exact Hbeyond |]. apply sign_strictEq_refl. reflexivity.
Defined.

(** C10, counterexample.  With propane and butane at one bar, the three
    compositions equal to 0, the feed tray 1 and no tray below it
    ([totalTrays = 0]), the minimum reflux ratio is NaN, the feed-tray
    delta does not depend on the reflux ratio and is within the tolerance,
    and [columnSolver] returns NaN: a value that is neither [-1] nor at
    least [1e-8]. *)
Lemma columnSolver_returns_NaN :
  exists (fuel : nat) (r : num),
    columnSolver fuel (Fin 1000) (Fin 0) (Fin 0) (Fin 0) (Fin oneBar) 1 0
      propaneConstants butaneConstants = Ok r /\
    r <> Fin (-1) /\
    (Fin 1e-8 <=? r)%num = false.
Proof.
  destruct (vapMolFraction_converges _ _ _ _ _ validBracket_oneBar 0)
    as (n1 & T1 & _ & _ & _ & H1); [lra |].
  destruct (liqMolFraction_converges _ _ _ _ _ validBracket_oneBar 0)
    as (n2 & T2 & Hin2 & _ & _ & H2); [lra |].
  set (fuel := (n1 + n2)%nat).
  destruct (H1 fuel) as [_ Hvap]; [lia |].
  destruct (H2 fuel) as [_ Hliq]; [lia |].
  clear H1 H2.
  assert (HminR : minimumRefluxRatio fuel (Fin 0) (Fin 0) (Fin oneBar)
                    propaneConstants butaneConstants = Ok NaN).
  { unfold minimumRefluxRatio. rewrite Hvap. cbn [mbind res_bind].
    rewrite !sub_fin. unfold Num.div at 2.
    destruct (Req_dec_T (0 - 0) 0) as [_ | Hn]; [| lra].
    unfold Num.bySign.
    destruct (Rlt_dec 0 (0 - 0 * antoine propaneConstants T1 / oneBar)) as [Hn | _];
      [unfold oneBar in Hn; lra |].
    destruct (Rlt_dec (0 - 0 * antoine propaneConstants T1 / oneBar) 0) as [Hn | _];
      [unfold oneBar in Hn; lra |].
    reflexivity. }
  exists fuel, NaN. split; [| split; [discriminate | reflexivity]].
  change (Ok NaN) with (Ok (Num.max (Fin 1e-8) NaN)).
  apply columnSolver_first_return
    with (d := Fin (0 * oneBar / antoine propaneConstants T2 - 0)); [exact HminR | |].
  - change (Num.max (Fin 1e-8) NaN) with NaN.
    unfold feedTrayDelta.
    destruct (productRates (Fin 1000) (Fin 0) (Fin 0) (Fin 0)) as [distillateRate bottomsRate].
    unfold rectifyingSection. rewrite Hliq. cbn [mbind res_bind].
    change (Z.to_nat (1 - 1)) with 0%nat. cbn [rectifyingLoop mbind res_bind].
    unfold strippingSection. rewrite Hvap. cbn [mbind res_bind].
    change (Z.to_nat (0 - 1 + 1)) with 0%nat. cbn [strippingLoop mbind res_bind].
    rewrite sub_fin. reflexivity.
  - unfold TOL. apply ltb_fin.
    pose proof (antoine_pos propaneConstants T2) as Hpos.
    replace (0 * oneBar / antoine propaneConstants T2 - 0) with 0 by (field; lra).
    rewrite Rabs_R0. lra.
Qed.

(** C6, counterexample.  On the specification with the feed composition
    0.00001, the distillate composition 0.0002, the bottoms composition 0,
    propane and butane at one bar and a single tray, [columnSolver]
    returns a reflux ratio that is not the sentinel and that is the
    minimum reflux ratio itself, not a larger one. *)
Lemma columnSolver_returns_minimum :
  exists (fuel : nat) (m r : num),
    0 < 0.00001 < 0.0002 /\ (1 <= 1 <= 1)%Z /\
    minimumRefluxRatio fuel (Fin 0.00001) (Fin 0.0002) (Fin oneBar)
      propaneConstants butaneConstants = Ok m /\
    columnSolver fuel (Fin 1000) (Fin 0.00001) (Fin 0.0002) (Fin 0) (Fin oneBar) 1 1
      propaneConstants butaneConstants = Ok r /\
    r <> Fin (-1) /\
    (m <? r)%num = false.
Proof.
  destruct columnSolver_lean_column as (fuel & m & Hm & Hmin & Hsol).
  exists fuel, (Fin m), (Fin m).
  split; [lra |]. split; [lia |]. split; [exact Hmin |]. split; [exact Hsol |].
  split.
  - intros Heq. injection Heq as Heq. lra.
  - apply ltb_fin_false. lra.
Qed.

Lemma columnSolver_at_least_minimum_witness :
  exists (fuel : nat) (m r : num),
    minimumRefluxRatio fuel (Fin 0.00001) (Fin 0.0002) (Fin oneBar)
      propaneConstants butaneConstants = Ok m /\
    columnSolver fuel (Fin 1000) (Fin 0.00001) (Fin 0.0002) (Fin 0) (Fin oneBar) 1 1
      propaneConstants butaneConstants = Ok r /\
    r <> Fin (-1) /\
    (m <=? r)%num = true.
Proof.
  destruct columnSolver_lean_column as (fuel & m & Hm & Hmin & Hsol).
  assert (Hr : Fin m <> Fin (-1)) by (intros Heq; injection Heq as Heq; lra).
  exists fuel, (Fin m), (Fin m).
  split; [exact Hmin |]. split; [exact Hsol |]. split; [exact Hr |].
  apply (columnSolver_at_least_minimum fuel (Fin 1000) (Fin 0.00001) (Fin 0.0002) (Fin 0)
           (Fin oneBar) 1 1 propaneConstants butaneConstants (Fin m) (Fin m));
    [lia | exact Hmin | exact Hsol | exact Hr].
Defined.

Lemma columnSolver_sentinel_or_floor_witness :
  exists (fuel : nat) (r : num),
    columnSolver fuel (Fin 1000) (Fin 0.00001) (Fin 0.0002) (Fin 0) (Fin oneBar) 1 1
      propaneConstants butaneConstants = Ok r /\
    (r = Fin (-1) \/
     (Fin 1e-8 <=? r)%num = true \/
     (r = NaN /\ (1 < 1)%Z)) /\
    ((r <=? Fin 0)%num = true <-> r = Fin (-1)).
Proof.
  destruct columnSolver_lean_column as (fuel & m & Hm & Hmin & Hsol).
  exists fuel, (Fin m). split; [exact Hsol |].
  apply (columnSolver_sentinel_or_floor fuel (Fin 1000) (Fin 0.00001) (Fin 0.0002) (Fin 0)
           (Fin oneBar) 1 1 propaneConstants butaneConstants (Fin m)).
  exact Hsol.
Defined.

(** ** The operating lines and the material balance on finite values *)

(** The product rates of a finite feed rate, as multiples of the feed
    rate by the split fraction [(xF - xB) / (xD - xB)]. *)
Lemma productRates_split (F xF xD xB : R) :
  xB < xF < xD ->
  exists q : R,
    0 < q < 1 /\ q * (xD - xB) = xF - xB /\
    productRates (Fin F) (Fin xF) (Fin xD) (Fin xB) = (Fin (F * q), Fin (F * (1 - q))).
Proof.
  intros [HBF HFD]. exists ((xF - xB) / (xD - xB)).
  assert (Hq : (xF - xB) / (xD - xB) * (xD - xB) = xF - xB) by (field; lra).
  split; [| split; [exact Hq |]].
  - split; [apply Rdiv_lt_0_compat; lra |].
    apply Rmult_lt_reg_r with (xD - xB); [lra |]. rewrite Hq. lra.
  - unfold productRates.
    rewrite !sub_fin, mul_fin, div_fin by lra. rewrite sub_fin.
    f_equal; f_equal; field; lra.
Qed.

Lemma boilUpRatio_fin (R F xF xD xB : R) :
  0 < F -> xB < xF < xD ->
  (let '(D, Bo) := productRates (Fin F) (Fin xF) (Fin xD) (Fin xB) in
   boilUpRatio (Fin R) D Bo)
  = Fin ((R + 1) * (xF - xB) / (xD - xF)).
Proof.
  intros HF Hord.
  destruct (productRates_split F xF xD xB Hord) as (q & Hq & Hsplit & HP).
  rewrite HP. unfold boilUpRatio.
  assert (HBo : 0 < F * (1 - q)) by nra.
  rewrite add_fin, mul_fin, div_fin by lra. f_equal.
  assert (Hrest : (1 - q) * (xD - xB) = xD - xF) by lra.
  rewrite <- Hsplit, <- Hrest. field. repeat split; lra.
Qed.

Lemma rectifyingOperatingLine_fin (r xD x : R) :
  0 <= r ->
  rectifyingOperatingLine (Fin r) (Fin xD) (Fin x) = Fin ((r * x + xD) / (r + 1)).
Proof.
  intros Hr. unfold rectifyingOperatingLine.
  rewrite add_fin, !div_fin by lra. rewrite mul_fin, add_fin.
  f_equal. field. lra.
Qed.

Lemma rectifyingOperatingLine_range (r xD x : R) :
  0 <= r -> x <= xD -> x <= (r * x + xD) / (r + 1) <= xD.
Proof.
  intros Hr Hx.
  split.
  - apply Rmult_le_reg_r with (r + 1); [lra |].
    unfold Rdiv. rewrite Rmult_assoc, Rinv_l by lra. nra.
  - apply Rmult_le_reg_r with (r + 1); [lra |].
    unfold Rdiv. rewrite Rmult_assoc, Rinv_l by lra. nra.
Qed.

Lemma strippingOperatingLine_fin (s xB y : R) :
  0 < s ->
  strippingOperatingLine (Fin s) (Fin xB) (Fin y) = Fin ((s * y + xB) / (s + 1)).
Proof.
  intros Hs. unfold strippingOperatingLine.
  rewrite (div_fin xB s) by lra. rewrite !add_fin, mul_fin, div_fin by lra.
  f_equal. field. lra.
Qed.

Lemma strippingOperatingLine_range (s xB y : R) :
  0 < s -> xB <= y -> xB <= (s * y + xB) / (s + 1) <= y.
Proof.
  intros Hs Hy.
  split.
  - apply Rmult_le_reg_r with (s + 1); [lra |].
    unfold Rdiv. rewrite Rmult_assoc, Rinv_l by lra. nra.
  - apply Rmult_le_reg_r with (s + 1); [lra |].
    unfold Rdiv. rewrite Rmult_assoc, Rinv_l by lra. nra.
Qed.

(** ** The marches of [generateColumnData] return *)

Section ReturningMarches.

Variables (p : R) (l h : AntoineConstants) (a b : R).
Hypothesis Hvalid : validBracket p l h a b.

(** One equilibrium stage from a vapor composition in [[0, 1]]. *)
Lemma liqMolFraction_returns (y : R) :
  0 <= y <= 1 ->
  exists (n : nat) (x : R),
    0 <= x <= y /\
    forall fuel : nat, (n <= fuel)%nat ->
      liqMolFraction fuel (Fin p) (Fin y) l h = Ok (Fin x).
Proof.
  intros Hy.
  destruct (liqMolFraction_converges p l h a b Hvalid y Hy) as (n & T & HT & _ & _ & Hrun).
  exists n, (y * p / antoine l T). split.
  - apply (equilibrium_liquid_range p l h a b Hvalid); lra.
  - intros fuel Hfuel. apply Hrun. exact Hfuel.
Qed.

(** One equilibrium stage from a liquid composition in [[0, 1]]: the
    vapor is at least as rich, and above 1 by no more than the tolerance
    allows. *)
Lemma vapMolFraction_returns (x : R) :
  0 <= x <= 1 ->
  exists (n : nat) (y T : R),
    x <= y <= 1 + 0.001 / p /\
    forall fuel : nat, (n <= fuel)%nat ->
      equilibriumTemperatureFromX fuel (Fin p) (Fin x) l h = Ok (Fin T) /\
      vapMolFraction fuel (Fin p) (Fin x) l h = Ok (Fin y).
Proof.
  intros Hx. pose proof (vb_pressure _ _ _ _ _ Hvalid) as Hp.
  destruct (vapMolFraction_converges p l h a b Hvalid x Hx) as (n & T & Hin & _ & Hres & Hrun).
  exists n, (x * antoine l T / p), T. split; [| exact Hrun].
  pose proof (vb_light_ge p l h a b Hvalid T (proj1 Hin)) as Hl.
  pose proof (antoine_pos h T) as Hh.
  unfold residualX in Hres.
  assert (Hres' : - 0.001 <= p - (x * antoine l T + (1 - x) * antoine h T) <= 0.001).
  { revert Hres. unfold Rabs. destruct (Rcase_abs _); lra. }
  clear Hres.
  split.
  - replace x with (x * p / p) at 1 by (field; lra).
    apply Rmult_le_compat_r; [left; apply Rinv_0_lt_compat; lra | nra].
  - apply Rmult_le_reg_r with p; [exact Hp |].
    replace (x * antoine l T / p * p) with (x * antoine l T) by (field; lra).
    replace ((1 + 0.001 / p) * p) with (p + 0.001) by (field; lra).
    nra.
Qed.

Variables (refl xD xB boil : R) (boilUp : num).
Hypothesis HR : 0 <= refl.
Hypothesis HxD : 0 <= xD <= 1.
Hypothesis HxB : 0 <= xB <= 1.
Hypothesis HS : 0 < boil.
Hypothesis Htol : boil * 0.001 <= (1 - xB) * p.

(** The first loop returns from any liquid composition between 0 and
    the distillate composition, with the same state for every fuel that
    is enough. *)
Lemma rectifyingTrays_returns (count : nat) :
  forall (i : Z) (s : columnData) (x : R),
    cd_liqComp s = Fin x -> 0 <= x <= xD ->
    exists (n : nat) (s' : columnData),
      forall fuel : nat, (n <= fuel)%nat ->
        rectifyingTrays count fuel i (Fin xD) (Fin p) (Fin refl) boilUp l h s = Ok s'.
Proof.
  induction count as [| count IH]; intros i s x Hs Hx.
  - exists O, s. intros fuel _. reflexivity.
  - pose proof (rectifyingOperatingLine_range refl xD x HR (proj2 Hx)) as Hv.
    set (v := (refl * x + xD) / (refl + 1)) in *.
    destruct (liqMolFraction_returns v) as (n1 & x1 & Hx1 & Hrun1); [lra |].
    destruct (vapMolFraction_returns x1) as (n2 & y2 & T & _ & Hrun2); [lra |].
    destruct (IH (i + 1)%Z
                {| cd_vapComp := Fin v; cd_liqComp := Fin x1; cd_temp := Fin T;
                   cd_trays := arraySet (cd_trays s) (i - 1)
                                 (createTrayObject i (Fin T) (Fin x1) (Fin v) (Fin refl) boilUp) |}
                x1 eq_refl) as (n3 & s' & Hrun3); [lra |].
    exists (Nat.max n1 (Nat.max n2 n3)), s'.
    intros fuel Hfuel. cbn [rectifyingTrays]. cbv zeta.
    rewrite Hs, rectifyingOperatingLine_fin by exact HR. fold v.
    rewrite Hrun1 by lia. cbn [mbind res_bind].
    destruct (Hrun2 fuel) as [-> _]; [lia |]. cbn [mbind res_bind].
    apply Hrun3. lia.
Qed.

(** The second loop returns from any vapor composition between the
    bottoms composition and [1 + TOL/p]. *)
Lemma strippingTrays_returns (count : nat) :
  forall (i : Z) (s : columnData) (y : R),
    cd_vapComp s = Fin y -> xB <= y <= 1 + 0.001 / p ->
    exists (n : nat) (s' : columnData),
      forall fuel : nat, (n <= fuel)%nat ->
        strippingTrays count fuel i (Fin xB) (Fin p) (Fin refl) (Fin boil) l h s = Ok s'.
Proof.
  pose proof (vb_pressure _ _ _ _ _ Hvalid) as Hp.
  induction count as [| count IH]; intros i s y Hs Hy.
  - exists O, s. intros fuel _. reflexivity.
  - pose proof (strippingOperatingLine_range boil xB y HS (proj1 Hy)) as Hx.
    set (x := (boil * y + xB) / (boil + 1)) in *.
    assert (Hx1 : x <= 1).
    { unfold x. apply Rmult_le_reg_r with (boil + 1); [lra |].
      unfold Rdiv. rewrite Rmult_assoc, Rinv_l by lra.
      assert (Hq : 0.001 / p * p = 0.001) by (field; lra).
      set (q := 0.001 / p) in *.
      assert (Hbq : boil * q <= 1 - xB).
      { apply Rmult_le_reg_r with p; [exact Hp |].
        replace (boil * q * p) with (boil * 0.001) by (rewrite <- Hq; ring).
        exact Htol. }
      assert (Hby : boil * y <= boil * (1 + q)) by (apply Rmult_le_compat_l; lra).
      lra. }
    destruct (vapMolFraction_returns x) as (n1 & y1 & T & Hy1 & Hrun1); [lra |].
    destruct (IH (i - 1)%Z
                {| cd_vapComp := Fin y1; cd_liqComp := Fin x; cd_temp := Fin T;
                   cd_trays := arraySet (cd_trays s) (i - 1)
                                 (createTrayObject i (Fin T) (Fin x) (Fin y1) (Fin refl) (Fin boil)) |}
                y1 eq_refl) as (n2 & s' & Hrun2); [lra |].
    exists (Nat.max n1 n2), s'.
    intros fuel Hfuel. cbn [strippingTrays]. cbv zeta.
    rewrite Hs, strippingOperatingLine_fin by exact HS. fold x.
    destruct (Hrun1 fuel) as [Htemp Hvap]; [lia |].
    rewrite Hvap. cbn [mbind res_bind]. rewrite Htemp. cbn [mbind res_bind].
    apply Hrun2. lia.
Qed.

End ReturningMarches.

(** On a well-formed bracket, for compositions [0 <= xB < xF < xD <= 1],
    a reflux ratio [R >= 0] whose boil-up ratio
    [S = (R + 1) (xF - xB) / (xD - xF)] satisfies
    [S * TOL <= (1 - xB) * p], and an array length within the limits,
    [generateColumnData] returns, the same array for every fuel that is
    enough. *)
Lemma generateColumnData_returns
    (p : R) (l h : AntoineConstants) (a b F xF xD xB refl : R) (feedTray totalTrays : Z) :
  validBracket p l h a b ->
  0 < F ->
  0 <= xB < xF ->
  xF < xD <= 1 ->
  0 <= refl ->
  (refl + 1) * (xF - xB) / (xD - xF) * 0.001 <= (1 - xB) * p ->
  (0 <= totalTrays + 1 <= 4294967295)%Z ->
  exists (n : nat) (trays : trayArray),
    forall fuel : nat, (n <= fuel)%nat ->
      generateColumnData fuel (Fin F) (Fin xF) (Fin xD) (Fin xB) (Fin p) feedTray totalTrays
        (Fin refl) l h = Ok trays.
Proof.
  intros Hvalid HF HxB HxD Hrefl Htol Hmax.
  pose proof (vb_pressure _ _ _ _ _ Hvalid) as Hp.
  set (boil := (refl + 1) * (xF - xB) / (xD - xF)) in *.
  assert (Hboil : 0 < boil).
  { unfold boil. apply Rdiv_lt_0_compat; [nra | lra]. }
  pose proof (boilUpRatio_fin refl F xF xD xB HF ltac:(lra)) as Hratio. fold boil in Hratio.
  destruct (rectifyingTrays_returns p l h a b Hvalid refl xD (Fin boil) Hrefl ltac:(lra)
              (Z.to_nat feedTray) 1%Z
              {| cd_vapComp := Fin 0; cd_liqComp := Fin xD; cd_temp := Fin 0;
                 cd_trays := replicate (Z.to_nat (totalTrays + 1)) None |}
              xD eq_refl) as (n1 & s1 & Hrun1); [lra |].
  assert (Hq : 0 < 0.001 / p) by (apply Rdiv_lt_0_compat; lra).
  destruct (strippingTrays_returns p l h a b Hvalid refl xB boil ltac:(lra) Hboil Htol
              (Z.to_nat (totalTrays + 1 - feedTray)) (totalTrays + 1)%Z
              {| cd_vapComp := Fin xB; cd_liqComp := cd_liqComp s1;
                 cd_temp := cd_temp s1; cd_trays := cd_trays s1 |}
              xB eq_refl) as (n2 & s2 & Hrun2); [lra |].
  exists (Nat.max n1 n2), (cd_trays s2).
  intros fuel Hfuel. unfold generateColumnData.
  destruct (productRates (Fin F) (Fin xF) (Fin xD) (Fin xB)) as [D Bo].
  rewrite Hratio. unfold newArray.
  destruct (Z.ltb_spec (totalTrays + 1) 0) as [Hneg | _]; [lia |].
  destruct (Z.ltb_spec 4294967295 (totalTrays + 1)) as [Hbig | _]; [lia |].
  cbn [orb mbind res_bind]. rewrite Hrun1 by lia. cbn [mbind res_bind].
  rewrite Hrun2 by lia. reflexivity.
Qed.

(** The spec scenario at one bar: ten trays, the feed on tray 5, the
    reflux ratio 2. *)
Lemma generateColumnData_oneBar_scenario :
  exists (n : nat) (trays : trayArray),
    forall fuel : nat, (n <= fuel)%nat ->
      generateColumnData fuel (Fin 1000) (Fin 0.5) (Fin 0.95) (Fin 0.05) (Fin oneBar) 5 10
        (Fin 2) propaneConstants butaneConstants = Ok trays.
Proof.
  apply (generateColumnData_returns oneBar propaneConstants butaneConstants
           propaneBoilingPoint butaneBoilingPoint 1000 0.5 0.95 0.05 2 5 10
           validBracket_oneBar);
    try (unfold oneBar; lra); lia.
Qed.

Lemma generateColumnData_feed_tray_liquid_witness :
  exists (fuel : nat) (trays : trayArray) (t : Tray),
    generateColumnData fuel (Fin 1000) (Fin 0.5) (Fin 0.95) (Fin 0.05) (Fin oneBar) 5 10
      (Fin 2) propaneConstants butaneConstants = Ok trays /\
    trays !! Z.to_nat (5 - 1) = Some (Some t) /\
    trayNumber t = 5%Z /\
    rectifyingSection fuel (Fin 2) (Fin oneBar) (Fin 0.95) 5
      propaneConstants butaneConstants = Ok (liqComp t).
Proof.
  destruct generateColumnData_oneBar_scenario as (fuel & trays & H).
  destruct (generateColumnData_feed_tray_liquid fuel (Fin 1000) (Fin 0.5) (Fin 0.95)
              (Fin 0.05) (Fin oneBar) (Fin 2) 5 10 propaneConstants butaneConstants trays)
    as (t & Ht & Hnum & _ & Hrect); [lia | apply H; lia |].
  exists fuel, trays, t. split; [apply H; lia |]. split; [exact Ht |].
  split; [exact Hnum |]. apply Hrect.
  apply rectifyingOperatingLine_distillate. lra.
Defined.



(** * Further properties of the formula module *)

(** ** Antoine equation *)

(** X1.  [vaporPressure] inverts [boilingPointTemperature]: for a positive
    pressure and a compound with [B] not zero whose boiling point at that
    pressure is finite, the vapor pressure at the boiling point is the
    pressure itself. *)
Theorem vaporPressure_of_boilingPoint (p : R) (c : AntoineConstants) :
  0 < p ->
  B c <> 0 ->
  Num.isFinite (boilingPointTemperature (Fin p) c) = true ->
  vaporPressure (boilingPointTemperature (Fin p) c) c = Fin p.
Proof.
  intros Hp HB Hfin.
  destruct (boilingPointTemperature (Fin p) c) as [a | | |] eqn:Ha; try discriminate.
  destruct (boilingPoint_finite p a c Hp HB Ha) as (Hk & Hnz & Hp').
  rewrite vaporPressure_antoine.
  - f_equal. exact Hp'.
  - rewrite Hk. unfold Rdiv.
    apply Rmult_integral_contrapositive_currified; [exact HB |].
    apply Rinv_neq_0_compat. exact Hnz.
Qed.

Lemma vaporPressure_of_boilingPoint_witness :
  vaporPressure (boilingPointTemperature (Fin oneBar) propaneConstants) propaneConstants
  = Fin oneBar.
Proof.
  apply (vaporPressure_of_boilingPoint oneBar propaneConstants).
  - unfold oneBar. lra.
  - simpl. lra.
  - rewrite boilingPoint_propane_oneBar. reflexivity.
Defined.

(** X2.  Over exact real arithmetic, where the Antoine denominator
    [T_K + C] is positive and [B] is positive, the vapor pressure
    [vaporPressure] computes is strictly increasing in the temperature. *)
Theorem vaporPressure_increasing (T1 T2 : R) (c : AntoineConstants) :
  0 < B c ->
  0 < kelvin T1 + C c ->
  T1 < T2 ->
  (vaporPressure (Fin T1) c <? vaporPressure (Fin T2) c)%num = true.
Proof.
  intros HB Hd Hlt.
  assert (Hd2 : 0 < kelvin T2 + C c).
  { assert (kelvin T1 <= kelvin T2) by (apply kelvin_le; lra). lra. }
  rewrite !vaporPressure_antoine by lra.
  apply ltb_fin. apply antoine_lt; assumption.
Qed.

Lemma vaporPressure_increasing_witness :
  (vaporPressure (Fin 0) propaneConstants <? vaporPressure (Fin 100) propaneConstants)%num
  = true.
Proof.
  apply (vaporPressure_increasing 0 100 propaneConstants).
  - simpl. lra.
  - unfold kelvin. simpl. lra.
  - lra.
Defined.

(** X3.  For a compound with positive [B], the vapor pressure at a finite
    temperature is never NaN and never negative, also at the temperature
    where the Antoine denominator is zero: the division by zero there
    gives an infinity, not NaN, and [10 ** logP] is not negative. *)
Theorem vaporPressure_not_NaN_nor_negative (T : R) (c : AntoineConstants) :
  0 < B c ->
  Num.isNaN (vaporPressure (Fin T) c) = false /\
  (vaporPressure (Fin T) c <? Fin 0)%num = false.
Proof.
  intros HB.
  destruct (vaporPressure_value T c HB) as (v & Hv & Hreg & Hsing).
  rewrite Hv. split; [reflexivity |].
  apply ltb_fin_false.
  destruct (Req_dec (kelvin T + C c) 0) as [Hz | Hnz].
  - rewrite (Hsing Hz). lra.
  - rewrite (Hreg Hnz). left. apply antoine_pos.
Qed.

Lemma vaporPressure_not_NaN_nor_negative_witness :
  Num.isNaN (vaporPressure (Fin (-504.5008)) propaneConstants) = false /\
  (vaporPressure (Fin (-504.5008)) propaneConstants <? Fin 0)%num = false.
Proof.
  apply (vaporPressure_not_NaN_nor_negative (-504.5008) propaneConstants).
  simpl. lra.
Defined.

(** ** Equilibrium solves *)

(** The loop variables stay inside the initial bracket [(a, b)]: [maxT]
    is at least [a], [minT] at most [b], and [tempGuess] strictly
    between them. *)
Definition inside (a b : R) (s : bisection) : Prop :=
  exists mn mx g : R,
    minT s = Fin mn /\ maxT s = Fin mx /\ tempGuess s = Fin g /\
    a <= mx /\ mx < g /\ g < mn /\ mn <= b.

Lemma bisectionStep_inside (residual : num -> num) (a b : R) (s s' : bisection) :
  inside a b s -> bisectionStep residual s = Some s' -> inside a b s'.
Proof.
  intros (mn & mx & g & Hmn & Hmx & Hg & Ha & Hlo & Hhi & Hb). unfold bisectionStep.
  destruct (Num.abs (residual (tempGuess s)) >? TOL)%num; [| discriminate].
  rewrite Hmn, Hmx, Hg.
  destruct (residual (Fin g) >? Fin 0)%num; intros H; injection H as <-;
    (destruct (Req_dec_T 2 0) as [H2 | _]; [lra |]).
  - exists mn, g, ((mn + g) / 2). cbn [minT maxT tempGuess].
    repeat split; try reflexivity; lra.
  - exists g, mx, ((mx + g) / 2). cbn [minT maxT tempGuess].
    repeat split; try reflexivity; lra.
Qed.

Lemma bisectionLoop_inside (residual : num -> num) (a b : R) (fuel : nat) :
  forall (s : bisection) (t : num),
    inside a b s ->
    bisectionLoop fuel residual s = Ok t ->
    exists T : R, t = Fin T /\ a < T < b.
Proof.
  induction fuel as [| fuel IH]; intros s t Hs H; simpl in H; [discriminate |].
  destruct (bisectionStep residual s) as [s' |] eqn:Hstep.
  - apply (IH s'); [| exact H]. eapply bisectionStep_inside; eassumption.
  - injection H as <-.
    destruct Hs as (mn & mx & g & _ & _ & Hg & Ha & Hlo & Hhi & Hb).
    exists g. split; [exact Hg | lra].
Qed.

Lemma bracket_inside (pressure : num) (l h : AntoineConstants) (a b : R) :
  boilingPointTemperature pressure l = Fin a ->
  boilingPointTemperature pressure h = Fin b ->
  a < b ->
  inside a b (bracket pressure l h).
Proof.
  intros Ha Hb Hab. unfold bracket. rewrite Ha, Hb.
  exists b, a, ((a + b) / 2). cbn [minT maxT tempGuess].
  rewrite add_fin, div_fin by lra. repeat split; try reflexivity; lra.
Qed.



Lemma bisectionLoop_exit (residual : num -> num) (fuel : nat) :
  forall (s : bisection) (t : num),
    bisectionLoop fuel residual s = Ok t ->
    (Num.abs (residual t) >? TOL)%num = false.
Proof.
  induction fuel as [| fuel IH]; intros s t H; simpl in H; [discriminate |].
  destruct (bisectionStep residual s) as [s' |] eqn:Hstep; [eauto |].
  injection H as <-. unfold bisectionStep in Hstep.
  destruct (Num.abs (residual (tempGuess s)) >? TOL)%num; [| reflexivity].
  destruct (residual (tempGuess s) >? Fin 0)%num; discriminate.
Qed.

(** X5.  A temperature returned by an equilibrium solve is one where the
    residual of its equation is not beyond the tolerance: the test
    [Math.abs(residual) > TOL] is false there, for every pressure and mole
    fraction. *)
Theorem equilibrium_temperature_within_tolerance
    (fuel : nat) (pressure molFrac : num) (l h : AntoineConstants) (t : num) :
  (equilibriumTemperatureFromX fuel pressure molFrac l h = Ok t ->
   (Num.abs (binaryequilibriumEquationFromX t pressure molFrac l h) >? TOL)%num = false) /\
  (equilibriumTemperatureFromY fuel pressure molFrac l h = Ok t ->
   (Num.abs (binaryequilibriumEquationFromY t pressure molFrac l h) >? TOL)%num = false).
Proof.
  split; intros H.
  - exact (bisectionLoop_exit _ _ _ _ H).
  - exact (bisectionLoop_exit _ _ _ _ H).
Qed.

Lemma equilibrium_temperature_within_tolerance_witness :
  (Num.abs (binaryequilibriumEquationFromX
              (tempGuess (bracket (Fin oneBar) propaneConstants butaneConstants))
              (Fin oneBar) NaN propaneConstants butaneConstants) >? TOL)%num = false.
Proof.
  apply (proj1 (equilibrium_temperature_within_tolerance 1 (Fin oneBar) NaN
                  propaneConstants butaneConstants
                  (tempGuess (bracket (Fin oneBar) propaneConstants butaneConstants)))).
  apply equilibriumTemperatureFromX_NaN.
Defined.

Lemma vapMolFraction_more_fuel (n m : nat) (pressure x : num) (l h : AntoineConstants) (v : num) :
  (n <= m)%nat ->
  vapMolFraction n pressure x l h = Ok v -> vapMolFraction m pressure x l h = Ok v.
Proof.
  intros Hle H. unfold vapMolFraction in *. bind_inv H as t Ht.
  unfold equilibriumTemperatureFromX in *.
  rewrite (bisectionLoop_more_fuel _ n m _ _ Hle Ht). exact H.
Qed.

Lemma liqMolFraction_more_fuel (n m : nat) (pressure y : num) (l h : AntoineConstants) (v : num) :
  (n <= m)%nat ->
  liqMolFraction n pressure y l h = Ok v -> liqMolFraction m pressure y l h = Ok v.
Proof.
  intros Hle H. unfold liqMolFraction in *. bind_inv H as t Ht.
  unfold equilibriumTemperatureFromY in *.
  rewrite (bisectionLoop_more_fuel _ n m _ _ Hle Ht). exact H.
Qed.

(** X6.  Over exact real arithmetic, on a well-formed bracket the light
    compound is enriched in the vapor: for a liquid mole fraction [x] in
    [[0, 1]], the vapor mole
    fraction [vapMolFraction] returns is finite, at least [x] and at most
    [1 + TOL/p]; for a vapor mole fraction [y] in [[0, 1]], the liquid
    mole fraction [liqMolFraction] returns is finite and in [[0, y]]. *)
Theorem equilibrium_enrichment
    (fuel : nat) (p z : R) (l h : AntoineConstants) (a b : R) (v : num) :
  validBracket p l h a b ->
  0 <= z <= 1 ->
  (vapMolFraction fuel (Fin p) (Fin z) l h = Ok v ->
   exists y : R, v = Fin y /\ z <= y <= 1 + 0.001 / p) /\
  (liqMolFraction fuel (Fin p) (Fin z) l h = Ok v ->
   exists x : R, v = Fin x /\ 0 <= x <= z).
Proof.
  intros Hvalid Hz. pose proof (vb_pressure _ _ _ _ _ Hvalid) as Hp. split; intros H.
  - destruct (vapMolFraction_converges p l h a b Hvalid z Hz)
      as (n & T & Hin & _ & Hres & Hrun).
    destruct (Hrun (Nat.max n fuel)) as [_ Hv]; [lia |].
    apply (vapMolFraction_more_fuel fuel (Nat.max n fuel)) in H; [| lia].
    rewrite Hv in H. injection H as <-. eexists. split; [reflexivity |].
    pose proof (vb_light_ge p l h a b Hvalid T (proj1 Hin)) as Hl.
    pose proof (antoine_pos h T) as Hh.
    unfold residualX in Hres.
    assert (Hres' : - 0.001 <= p - (z * antoine l T + (1 - z) * antoine h T) <= 0.001).
    { revert Hres. unfold Rabs. destruct (Rcase_abs _); lra. }
    clear Hres.
    split.
    + replace z with (z * p / p) at 1 by (field; lra).
      apply Rmult_le_compat_r; [left; apply Rinv_0_lt_compat; lra | nra].
    + apply Rmult_le_reg_r with p; [exact Hp |].
      replace (z * antoine l T / p * p) with (z * antoine l T) by (field; lra).
      replace ((1 + 0.001 / p) * p) with (p + 0.001) by (field; lra).
      nra.
  - destruct (liqMolFraction_converges p l h a b Hvalid z Hz)
      as (n & T & Hin & _ & _ & Hrun).
    destruct (Hrun (Nat.max n fuel)) as [_ Hv]; [lia |].
    apply (liqMolFraction_more_fuel fuel (Nat.max n fuel)) in H; [| lia].
    rewrite Hv in H. injection H as <-. eexists. split; [reflexivity |].
    apply (equilibrium_liquid_range p l h a b Hvalid z T Hz (proj1 Hin)).
Qed.

Lemma equilibrium_enrichment_witness :
  exists (fuel : nat) (v : num),
    vapMolFraction fuel (Fin oneBar) (Fin 0.5) propaneConstants butaneConstants = Ok v /\
    exists y : R, v = Fin y /\ 0.5 <= y <= 1 + 0.001 / oneBar.
Proof.
  destruct (vapMolFraction_converges _ _ _ _ _ validBracket_oneBar 0.5)
    as (n & T & _ & _ & _ & Hrun); [lra |].
  destruct (Hrun n) as [_ Hv]; [lia |].
  exists n. eexists. split; [exact Hv |].
  apply (proj1 (equilibrium_enrichment n oneBar 0.5 propaneConstants butaneConstants
                  propaneBoilingPoint butaneBoilingPoint _ validBracket_oneBar
                  ltac:(lra))).
  exact Hv.
Defined.

Lemma mul_NaN_r (x : num) : (x * NaN)%num = NaN.
Proof. destruct x; reflexivity. Qed.

(** X7.  A mole fraction that is NaN does not hang the equilibrium
    solves: with fuel for one evaluation of the loop condition, both
    return the first guess, the mean of the two boiling points, and
    [liqMolFraction] and [vapMolFraction] return NaN, at every
    pressure. *)
Theorem equilibrium_of_NaN_fraction
    (fuel : nat) (pressure : num) (l h : AntoineConstants) :
  let firstGuess :=
    ((boilingPointTemperature pressure l + boilingPointTemperature pressure h) / Fin 2)%num in
  equilibriumTemperatureFromX (S fuel) pressure NaN l h = Ok firstGuess /\
  equilibriumTemperatureFromY (S fuel) pressure NaN l h = Ok firstGuess /\
  liqMolFraction (S fuel) pressure NaN l h = Ok NaN /\
  vapMolFraction (S fuel) pressure NaN l h = Ok NaN.
Proof.
  intros firstGuess. split; [| split; [| split]].
  - apply equilibriumTemperatureFromX_NaN.
  - unfold equilibriumTemperatureFromY. apply bisectionLoop_NaN, equationFromY_NaN.
  - apply liqMolFraction_NaN.
  - apply vapMolFraction_NaN.
Qed.

(** ** A pressure that is NaN *)

Section NaNPressure.

Variable fuel : nat.
Variables l h : AntoineConstants.

Lemma vapMolFraction_NaN_pressure (x : num) :
  vapMolFraction (S fuel) NaN x l h = Ok NaN.
Proof.
  unfold vapMolFraction, equilibriumTemperatureFromX.
  rewrite bisectionLoop_NaN by reflexivity. cbn [mbind res_bind].
  rewrite div_NaN_r. reflexivity.
Qed.

Lemma equationFromY_NaN_pressure (T y : num) :
  binaryequilibriumEquationFromY T NaN y l h = NaN.
Proof.
  unfold binaryequilibriumEquationFromY. rewrite mul_NaN_r. reflexivity.
Qed.

Lemma liqMolFraction_NaN_pressure (y : num) :
  liqMolFraction (S fuel) NaN y l h = Ok NaN.
Proof.
  unfold liqMolFraction, equilibriumTemperatureFromY.
  rewrite bisectionLoop_NaN by apply equationFromY_NaN_pressure.
  cbn [mbind res_bind]. rewrite mul_NaN_r. reflexivity.
Qed.

Lemma rectifyingLoop_NaN_pressure (count : nat) (refluxRatio xD : num) :
  rectifyingLoop count (S fuel) refluxRatio NaN xD l h NaN = Ok NaN.
Proof.
  induction count as [| count IH]; [reflexivity |].
  cbn [rectifyingLoop]. rewrite liqMolFraction_NaN_pressure.
  cbn [mbind res_bind]. exact IH.
Qed.

Lemma rectifyingSection_NaN_pressure (refluxRatio xD : num) (feedTray : Z) :
  rectifyingSection (S fuel) refluxRatio NaN xD feedTray l h = Ok NaN.
Proof.
  unfold rectifyingSection. rewrite liqMolFraction_NaN_pressure.
  cbn [mbind res_bind]. apply rectifyingLoop_NaN_pressure.
Qed.

Lemma strippingLoop_NaN_pressure (count : nat) (boilUp xB : num) :
  forall liq vap : num,
    exists v : num, strippingLoop count (S fuel) boilUp NaN xB l h liq vap = Ok v.
Proof.
  induction count as [| count IH]; intros liq vap.
  - exists liq. reflexivity.
  - cbn [strippingLoop]. rewrite vapMolFraction_NaN_pressure.
    cbn [mbind res_bind]. apply IH.
Qed.

Lemma feedTrayDelta_NaN_pressure
    (guessR feedRate xFeed xDistillate xBottoms : num) (feedTray totalTrays : Z) :
  feedTrayDelta (S fuel) guessR feedRate xFeed xDistillate xBottoms NaN
    feedTray totalTrays l h = Ok NaN.
Proof.
  unfold feedTrayDelta.
  destruct (productRates feedRate xFeed xDistillate xBottoms) as [distillateRate bottomsRate].
  rewrite rectifyingSection_NaN_pressure. cbn [mbind res_bind].
  unfold strippingSection. rewrite vapMolFraction_NaN_pressure. cbn [mbind res_bind].
  destruct (strippingLoop_NaN_pressure (Z.to_nat (totalTrays - feedTray + 1))
              (boilUpRatio guessR distillateRate bottomsRate) xBottoms xBottoms NaN)
    as (v & Hv).
  rewrite Hv. reflexivity.
Qed.

Lemma upperBoundLoop_all_NaN (delta : num -> res num) (k : nat) :
  delta NaN = Ok NaN ->
  upperBoundLoop k delta NaN NaN NaN = Ok (Exhausted NaN NaN).
Proof.
  intros Hdelta. induction k as [| k IH]; [reflexivity |].
  cbn [upperBoundLoop]. change (NaN * Fin 2)%num with NaN. rewrite Hdelta.
  cbn [mbind res_bind Num.isFinite negb]. exact IH.
Qed.

End NaNPressure.

(** X8.  When the pressure is NaN, [columnSolver] returns the sentinel
    [-1] as soon as it has fuel for one evaluation of each loop
    condition, whatever the other arguments: no equilibrium solve hangs
    and no other value is returned. *)
Theorem columnSolver_NaN_pressure
    (fuel : nat) (feedRate xFeed xDistillate xBottoms : num)
    (feedTray totalTrays : Z) (l h : AntoineConstants) :
  columnSolver (S fuel) feedRate xFeed xDistillate xBottoms NaN feedTray totalTrays l h
  = Ok (Fin (-1)).
Proof.
  assert (Hm : minimumRefluxRatio (S fuel) xFeed xDistillate NaN l h = Ok NaN).
  { unfold minimumRefluxRatio. rewrite vapMolFraction_NaN_pressure.
    cbn [mbind res_bind]. rewrite sub_NaN_r. reflexivity. }
  assert (Hmax : Num.max (Fin 1e-8) NaN = NaN) by reflexivity.
  assert (Htol : (Num.abs NaN <? TOL)%num = false) by reflexivity.
  assert (Htest : negb (Num.isFinite NaN) || (Num.sign NaN === Num.sign NaN)%num = true)
    by reflexivity.
  unfold columnSolver. rewrite Hm. cbn [mbind res_bind]. cbv beta zeta.
  rewrite Hmax, feedTrayDelta_NaN_pressure. cbn [mbind res_bind]. rewrite Htol.
  rewrite upperBoundLoop_all_NaN by apply feedTrayDelta_NaN_pressure.
  cbn [mbind res_bind]. rewrite Htest. reflexivity.
Qed.

(** ** Material balance *)

(** X9.  When the distillate and bottoms compositions are the same finite
    number, [productRates] divides by zero: neither rate it returns is
    finite, whatever the feed rate and composition. *)
Theorem productRates_equal_specifications (F xF x : R) :
  let '(D, Bo) := productRates (Fin F) (Fin xF) (Fin x) (Fin x) in
  Num.isFinite D = false /\ Num.isFinite Bo = false.
Proof.
  unfold productRates. rewrite !sub_fin, mul_fin.
  unfold Num.div. destruct (Req_dec_T (x - x) 0) as [_ | Hn]; [| exfalso; lra].
  unfold Num.bySign.
  destruct (Rlt_dec 0 (F * (xF - x))); [split; reflexivity |].
  destruct (Rlt_dec (F * (xF - x)) 0); split; reflexivity.
Qed.

(** X10.  Over exact real arithmetic, for a positive feed rate and
    compositions ordered [xB < xF < xD], [productRates] splits the feed
    into two positive finite rates, each smaller than the feed rate. *)
Theorem productRates_positive (F xF xD xB : R) :
  0 < F ->
  xB < xF < xD ->
  exists D Bo : R,
    productRates (Fin F) (Fin xF) (Fin xD) (Fin xB) = (Fin D, Fin Bo) /\
    0 < D < F /\ 0 < Bo < F.
Proof.
  intros HF Hord.
  destruct (productRates_split F xF xD xB Hord) as (q & Hq & _ & HP).
  exists (F * q), (F * (1 - q)). split; [exact HP |]. nra.
Qed.

Lemma productRates_positive_witness :
  exists D Bo : R,
    productRates (Fin 1000) (Fin 0.5) (Fin 0.95) (Fin 0.05) = (Fin D, Fin Bo) /\
    0 < D < 1000 /\ 0 < Bo < 1000.
Proof.
  apply (productRates_positive 1000 0.5 0.95 0.05); lra.
Defined.

(** The boil-up ratio computed from the product rates of a positive
    feed rate does not depend on that feed rate. *)
Lemma boilUpRatio_feedRate (refluxRatio : num) (F F' xF xD xB : R) :
  0 < F -> 0 < F' -> xB < xF < xD ->
  (let '(D, Bo) := productRates (Fin F) (Fin xF) (Fin xD) (Fin xB) in
   boilUpRatio refluxRatio D Bo)
  = (let '(D, Bo) := productRates (Fin F') (Fin xF) (Fin xD) (Fin xB) in
     boilUpRatio refluxRatio D Bo).
Proof.
  intros HF HF' Hord.
  destruct (productRates_split F xF xD xB Hord) as (q & Hq & Hsplit & HP).
  destruct (productRates_split F' xF xD xB Hord) as (q' & _ & Hsplit' & HP2).
  assert (q' = q) as ->.
  { apply Rmult_eq_reg_r with (xD - xB); lra. }
  rewrite HP.
  rewrite HP2.
  assert (HD : 0 < F * q) by nra. assert (HBo : 0 < F * (1 - q)) by nra.
  assert (HD' : 0 < F' * q) by nra. assert (HBo' : 0 < F' * (1 - q)) by nra.
  unfold boilUpRatio. destruct (refluxRatio + Fin 1)%num as [v | | |].
  - rewrite !mul_fin, !div_fin by lra. f_equal. field. lra.
  - simpl. unfold Num.bySign.
    destruct (Rlt_dec 0 (F * q)) as [_ | Hn]; [| lra].
    destruct (Rlt_dec 0 (F' * q)) as [_ | Hn]; [| lra]. simpl.
    destruct (Rlt_dec (F * (1 - q)) 0) as [Hn | _]; [lra |].
    destruct (Rlt_dec (F' * (1 - q)) 0) as [Hn | _]; [lra |]. reflexivity.
  - simpl. unfold Num.bySign.
    destruct (Rlt_dec 0 (F * q)) as [_ | Hn]; [| lra].
    destruct (Rlt_dec 0 (F' * q)) as [_ | Hn]; [| lra]. simpl.
    destruct (Rlt_dec (F * (1 - q)) 0) as [Hn | _]; [lra |].
    destruct (Rlt_dec (F' * (1 - q)) 0) as [Hn | _]; [lra |]. reflexivity.
  - reflexivity.
Qed.

(** X11.  Over exact real arithmetic, with the product rates of a
    positive feed rate [F] and compositions ordered [xB < xF < xD], the
    boil-up ratio at a finite
    reflux ratio [R] is [(R + 1) (xF - xB) / (xD - xF)]: the feed rate
    cancels. *)
Theorem boilUpRatio_of_productRates (R F xF xD xB : R) :
  0 < F ->
  xB < xF < xD ->
  (let '(D, Bo) := productRates (Fin F) (Fin xF) (Fin xD) (Fin xB) in
   boilUpRatio (Fin R) D Bo)
  = Fin ((R + 1) * (xF - xB) / (xD - xF)).
Proof.
  intros HF Hord.
  destruct (productRates_split F xF xD xB Hord) as (q & Hq & Hsplit & HP).
  rewrite HP. unfold boilUpRatio.
  assert (HBo : 0 < F * (1 - q)) by nra.
  rewrite add_fin, mul_fin, div_fin by lra. f_equal.
  assert (Hrest : (1 - q) * (xD - xB) = xD - xF) by lra.
  rewrite <- Hsplit, <- Hrest. field. repeat split; lra.
Qed.

Lemma boilUpRatio_of_productRates_witness :
  (let '(D, Bo) := productRates (Fin 1000) (Fin 0.5) (Fin 0.95) (Fin 0.05) in
   boilUpRatio (Fin 2) D Bo)
  = Fin ((2 + 1) * (0.5 - 0.05) / (0.95 - 0.5)).
Proof.
  apply (boilUpRatio_of_productRates 2 1000 0.5 0.95 0.05); lra.
Defined.

(** ** The solver does not depend on the feed rate *)

Lemma upperBoundLoop_ext (delta delta' : num -> res num) (k : nat) :
  (forall r : num, delta r = delta' r) ->
  forall residualLo maxR residualHi : num,
    upperBoundLoop k delta residualLo maxR residualHi
    = upperBoundLoop k delta' residualLo maxR residualHi.
Proof.
  intros Hext. induction k as [| k IH]; intros residualLo maxR residualHi; [reflexivity |].
  cbn [upperBoundLoop]. rewrite Hext.
  destruct (delta' (maxR * Fin 2)%num) as [rh | |]; cbn [mbind res_bind]; try reflexivity.
  rewrite !IH. reflexivity.
Qed.

Lemma refineLoop_ext (delta delta' : num -> res num) (i : nat) :
  (forall r : num, delta r = delta' r) ->
  forall minR maxR guessR : num,
    refineLoop i delta minR maxR guessR = refineLoop i delta' minR maxR guessR.
Proof.
  intros Hext. induction i as [| i IH]; intros minR maxR guessR; [reflexivity |].
  cbn [refineLoop]. rewrite Hext.
  destruct (delta' guessR) as [error | |]; cbn [mbind res_bind]; try reflexivity.
  rewrite !IH. reflexivity.
Qed.

Lemma res_bind_ext {X Y : Type} (f g : X -> res Y) (c : res X) :
  (forall x : X, f x = g x) -> c ≫= f = c ≫= g.
Proof.
  intros Hext. destruct c as [x | |]; [apply Hext | reflexivity | reflexivity].
Qed.

Lemma if_else_ext {X : Type} (b : bool) (u v v' : X) :
  v = v' -> (if b then u else v) = (if b then u else v').
Proof.
  intros ->. reflexivity.
Qed.

Lemma feedTrayDelta_feedRate
    (fuel : nat) (guessR : num) (F F' xF xD xB : R) (pressure : num)
    (feedTray totalTrays : Z) (l h : AntoineConstants) :
  0 < F -> 0 < F' -> xB < xF < xD ->
  feedTrayDelta fuel guessR (Fin F) (Fin xF) (Fin xD) (Fin xB) pressure feedTray totalTrays l h
  = feedTrayDelta fuel guessR (Fin F') (Fin xF) (Fin xD) (Fin xB) pressure feedTray totalTrays l h.
Proof.
  intros HF HF' Hord. unfold feedTrayDelta.
  pose proof (boilUpRatio_feedRate guessR F F' xF xD xB HF HF' Hord) as Hboil.
  destruct (productRates (Fin F) (Fin xF) (Fin xD) (Fin xB)) as [D Bo].
  destruct (productRates (Fin F') (Fin xF) (Fin xD) (Fin xB)) as [D' Bo'].
  rewrite Hboil. reflexivity.
Qed.

(** X12.  Over exact real arithmetic, the reflux ratio [columnSolver]
    returns does not depend on the feed rate: for compositions ordered
    [xB < xF < xD], two positive finite feed rates give the same result,
    and the same need of fuel. *)
Theorem columnSolver_feedRate
    (fuel : nat) (F F' xF xD xB : R) (pressure : num)
    (feedTray totalTrays : Z) (l h : AntoineConstants) :
  0 < F -> 0 < F' -> xB < xF < xD ->
  columnSolver fuel (Fin F) (Fin xF) (Fin xD) (Fin xB) pressure feedTray totalTrays l h
  = columnSolver fuel (Fin F') (Fin xF) (Fin xD) (Fin xB) pressure feedTray totalTrays l h.
Proof.
  intros HF HF' Hord.
  assert (Hext : forall r : num,
             feedTrayDelta fuel r (Fin F) (Fin xF) (Fin xD) (Fin xB) pressure
               feedTray totalTrays l h
             = feedTrayDelta fuel r (Fin F') (Fin xF) (Fin xD) (Fin xB) pressure
                 feedTray totalTrays l h).
  { intros r. apply feedTrayDelta_feedRate; assumption. }
  unfold columnSolver. cbv zeta.
  apply res_bind_ext. intros m. rewrite Hext.
  apply res_bind_ext. intros residualLo.
  apply if_else_ext.
  rewrite (upperBoundLoop_ext _ _ MAXITERATIONS Hext).
  apply res_bind_ext. intros [maxR | maxR residualHi | maxR residualHi]; cbv iota.
  - reflexivity.
  - apply if_else_ext, refineLoop_ext, Hext.
  - apply if_else_ext, refineLoop_ext, Hext.
Qed.

Lemma columnSolver_feedRate_witness :
  exists (fuel : nat) (m : R),
    columnSolver fuel (Fin 1000) (Fin 0.00001) (Fin 0.0002) (Fin 0) (Fin oneBar) 1 1
      propaneConstants butaneConstants = Ok (Fin m) /\
    columnSolver fuel (Fin 250) (Fin 0.00001) (Fin 0.0002) (Fin 0) (Fin oneBar) 1 1
      propaneConstants butaneConstants = Ok (Fin m).
Proof.
  destruct columnSolver_lean_column as (fuel & m & _ & _ & Hsol).
  exists fuel, m. split; [exact Hsol |].
  rewrite <- Hsol. symmetry.
  apply (columnSolver_feedRate fuel 1000 250 0.00001 0.0002 0 (Fin oneBar) 1 1
           propaneConstants butaneConstants); lra.
Defined.

(** ** The operating lines *)

(** X13.  Over exact real arithmetic, at a finite reflux ratio [r >= 0]
    the rectifying operating line is finite and maps a liquid composition
    [x <= xD] to a vapor composition between [x] and the distillate
    composition [xD]. *)
Theorem rectifyingOperatingLine_between (r xD x : R) :
  0 <= r ->
  x <= xD ->
  exists y : R,
    rectifyingOperatingLine (Fin r) (Fin xD) (Fin x) = Fin y /\ x <= y <= xD.
Proof.
  intros Hr Hx. exists ((r * x + xD) / (r + 1)).
  split; [apply rectifyingOperatingLine_fin; exact Hr |].
  apply rectifyingOperatingLine_range; assumption.
Qed.

Lemma rectifyingOperatingLine_between_witness :
  exists y : R,
    rectifyingOperatingLine (Fin 2) (Fin 0.95) (Fin 0.5) = Fin y /\ 0.5 <= y <= 0.95.
Proof.
  apply (rectifyingOperatingLine_between 2 0.95 0.5); lra.
Defined.

(** X14.  Over exact real arithmetic, at a finite boil-up ratio [s > 0]
    the stripping operating line is finite and maps a vapor composition
    [y >= xB] to a liquid composition between the bottoms composition
    [xB] and [y]. *)
Theorem strippingOperatingLine_between (s xB y : R) :
  0 < s ->
  xB <= y ->
  exists x : R,
    strippingOperatingLine (Fin s) (Fin xB) (Fin y) = Fin x /\ xB <= x <= y.
Proof.
  intros Hs Hy. exists ((s * y + xB) / (s + 1)).
  split; [apply strippingOperatingLine_fin; exact Hs |].
  split.
  - apply Rmult_le_reg_r with (s + 1); [lra |].
    unfold Rdiv. rewrite Rmult_assoc, Rinv_l by lra. nra.
  - apply Rmult_le_reg_r with (s + 1); [lra |].
    unfold Rdiv. rewrite Rmult_assoc, Rinv_l by lra. nra.
Qed.

Lemma strippingOperatingLine_between_witness :
  exists x : R,
    strippingOperatingLine (Fin 3) (Fin 0.05) (Fin 0.5) = Fin x /\ 0.05 <= x <= 0.5.
Proof.
  apply (strippingOperatingLine_between 3 0.05 0.5); lra.
Defined.

(** ** The rectifying section *)

Section RectifyingSection.

Variables (p : R) (l h : AntoineConstants) (a b : R).
Hypothesis Hvalid : validBracket p l h a b.
Variables (r xD : R).
Hypothesis Hr : 0 <= r.
Hypothesis HxD : 0 <= xD <= 1.

Lemma rectifyingLoop_converges (count : nat) :
  forall x : R, 0 <= x <= xD ->
    exists (n : nat) (x' : R),
      0 <= x' <= xD /\
      forall fuel : nat, (n <= fuel)%nat ->
        rectifyingLoop count fuel (Fin r) (Fin p) (Fin xD) l h (Fin x) = Ok (Fin x').
Proof.
  induction count as [| count IH]; intros x Hx.
  - exists O, x. split; [exact Hx |]. intros fuel _. reflexivity.
  - pose proof (rectifyingOperatingLine_range r xD x Hr (proj2 Hx)) as Hy.
    destruct (liqMolFraction_returns p l h a b Hvalid ((r * x + xD) / (r + 1)))
      as (n1 & x1 & Hx1 & Hrun1); [lra |].
    destruct (IH x1) as (n2 & x2 & Hx2 & Hrun2); [lra |].
    exists (Nat.max n1 n2), x2. split; [exact Hx2 |].
    intros fuel Hfuel. cbn [rectifyingLoop]. cbv zeta.
    rewrite rectifyingOperatingLine_fin by exact Hr.
    rewrite Hrun1 by lia. cbn [mbind res_bind].
    apply Hrun2. lia.
Qed.

End RectifyingSection.



(** ** The tray records of [generateColumnData] *)

(** X16.  For [totalTrays < -1] the array length [totalTrays + 1] is
    negative and [generateColumnData] throws a [RangeError] before any
    tray is solved, whatever the other arguments. *)
Theorem generateColumnData_negative_length
    (fuel : nat) (feedRate xFeed xDistillate xBottoms pressure : num)
    (feedTray totalTrays : Z) (refluxRatio : num) (l h : AntoineConstants) :
  (totalTrays < -1)%Z ->
  generateColumnData fuel feedRate xFeed xDistillate xBottoms pressure feedTray totalTrays
    refluxRatio l h = RangeError.
Proof.
  intros Hneg. unfold generateColumnData.
  destruct (productRates feedRate xFeed xDistillate xBottoms) as [distillateRate bottomsRate].
  unfold newArray. destruct (Z.ltb_spec (totalTrays + 1) 0) as [_ | Hge]; [| lia].
  reflexivity.
Qed.

Lemma generateColumnData_negative_length_witness :
  generateColumnData 0 (Fin 1000) (Fin 0.5) (Fin 0.95) (Fin 0.05) (Fin oneBar) 1 (-2)
    (Fin 2) propaneConstants butaneConstants = RangeError.
Proof.
  apply (generateColumnData_negative_length 0 (Fin 1000) (Fin 0.5) (Fin 0.95) (Fin 0.05)
           (Fin oneBar) 1 (-2) (Fin 2) propaneConstants butaneConstants).
  lia.
Defined.

(** The boil-up ratio of a run of [generateColumnData], as its first
    two lines compute it. *)
Definition columnBoilUp (feedRate xFeed xDistillate xBottoms refluxRatio : num) : num :=
  let '(distillateRate, bottomsRate) := productRates feedRate xFeed xDistillate xBottoms in
  boilUpRatio refluxRatio distillateRate bottomsRate.

(** The tray in slot [j] agrees with the run that made it: it is
    numbered [j + 1], carries the reflux and boil-up ratios of the run,
    its temperature is the bubble point of its liquid, and its
    compositions are an equilibrium pair: down to the feed tray the liquid
    is [liqMolFraction] of the vapor, below it the vapor is
    [vapMolFraction] of the liquid. *)
Definition trayConsistent (fuel : nat) (pressure R S : num) (feedTray : Z)
    (l h : AntoineConstants) (j : nat) (t : Tray) : Prop :=
  trayNumber t = (Z.of_nat j + 1)%Z /\
  refluxRatio t = R /\ boilUp t = S /\
  equilibriumTemperatureFromX fuel pressure (liqComp t) l h = Ok (temperature t) /\
  ((trayNumber t <= feedTray)%Z ->
   liqMolFraction fuel pressure (vapComp t) l h = Ok (liqComp t)) /\
  ((feedTray < trayNumber t)%Z ->
   vapMolFraction fuel pressure (liqComp t) l h = Ok (vapComp t)).

Definition traysConsistent (fuel : nat) (pressure R S : num) (feedTray : Z)
    (l h : AntoineConstants) (trays : trayArray) : Prop :=
  forall (j : nat) (t : Tray),
    trays !! j = Some (Some t) -> trayConsistent fuel pressure R S feedTray l h j t.

Lemma arraySet_lookup_Some (trays : trayArray) (i : Z) (v t : Tray) (j : nat) :
  arraySet trays i v !! j = Some (Some t) ->
  ((0 <= i)%Z /\ j = Z.to_nat i /\ t = v) \/ trays !! j = Some (Some t).
Proof.
  unfold arraySet. destruct (Z.ltb_spec i 0) as [Hneg | Hpos]; [right; assumption |].
  destruct (Nat.ltb_spec (Z.to_nat i) (length trays)) as [Hin | Hout]; intros H.
  - destruct (decide (j = Z.to_nat i)) as [-> | Hne].
    + rewrite list_lookup_insert_eq in H by exact Hin. injection H as <-.
      left. split; [exact Hpos |]. split; reflexivity.
    + rewrite list_lookup_insert_ne in H by congruence. right. exact H.
  - destruct (decide (j < length trays)%nat) as [Hj | Hj].
    + rewrite lookup_app_l in H by exact Hj. right. exact H.
    + rewrite lookup_app_r in H by lia.
      destruct (decide (j - length trays < Z.to_nat i - length trays)%nat) as [Hgap | Hlast].
      * rewrite lookup_app_l in H by (rewrite length_replicate; exact Hgap).
        rewrite lookup_replicate_2 in H by exact Hgap. discriminate.
      * rewrite lookup_app_r in H by (rewrite length_replicate; lia).
        rewrite length_replicate in H.
        destruct (j - length trays - (Z.to_nat i - length trays))%nat as [| k] eqn:Hk;
          [| discriminate].
        injection H as <-. left. split; [exact Hpos |]. split; [lia | reflexivity].
Qed.

Section TrayRecords.

Variable fuel : nat.
Variables xDistillate xBottoms pressure R S : num.
Variable feedTray : Z.
Variables l h : AntoineConstants.

Lemma rectifyingTrays_consistent (count : nat) :
  forall (i : Z) (s s' : columnData),
    ((0 < count)%nat -> (i + Z.of_nat count - 1 <= feedTray)%Z) ->
    traysConsistent fuel pressure R S feedTray l h (cd_trays s) ->
    rectifyingTrays count fuel i xDistillate pressure R S l h s = Ok s' ->
    traysConsistent fuel pressure R S feedTray l h (cd_trays s').
Proof.
  induction count as [| count IH]; intros i s s' Hi Hs H; simpl in H.
  - injection H as <-. exact Hs.
  - bind_inv H as liq Hliq. bind_inv H as temp Htemp.
    specialize (Hi ltac:(lia)).
    apply IH in H; [exact H | lia |]. cbn [cd_trays].
    intros j t Hj. apply arraySet_lookup_Some in Hj.
    destruct Hj as [(Hpos & -> & ->) | Hj]; [| apply Hs; exact Hj].
    split; [simpl; lia |]. split; [reflexivity |]. split; [reflexivity |].
    split; [exact Htemp |]. split; [intros _; exact Hliq |].
    simpl. intros Hbelow. lia.
Qed.

Lemma strippingTrays_consistent (count : nat) :
  forall (i : Z) (s s' : columnData),
    ((0 < count)%nat -> (feedTray <= i - Z.of_nat count)%Z) ->
    traysConsistent fuel pressure R S feedTray l h (cd_trays s) ->
    strippingTrays count fuel i xBottoms pressure R S l h s = Ok s' ->
    traysConsistent fuel pressure R S feedTray l h (cd_trays s').
Proof.
  induction count as [| count IH]; intros i s s' Hi Hs H; simpl in H.
  - injection H as <-. exact Hs.
  - bind_inv H as vap Hvap. bind_inv H as temp Htemp.
    specialize (Hi ltac:(lia)).
    apply IH in H; [exact H | lia |]. cbn [cd_trays].
    intros j t Hj. apply arraySet_lookup_Some in Hj.
    destruct Hj as [(Hpos & -> & ->) | Hj]; [| apply Hs; exact Hj].
    split; [simpl; lia |]. split; [reflexivity |]. split; [reflexivity |].
    split; [exact Htemp |]. split; [| intros _; exact Hvap].
    simpl. intros Habove. lia.
Qed.

End TrayRecords.

(** X17.  Every tray record in the array [generateColumnData] returns
    is consistent with the run.  The record in slot [j] is numbered
    [j + 1]; it carries the reflux ratio passed in and the boil-up ratio
    computed from the product rates; its temperature is what
    [equilibriumTemperatureFromX] returns for its liquid composition; and
    its compositions are an equilibrium pair: for a tray numbered at most
    [feedTray] (rectifying loop) the liquid is [liqMolFraction] of the
    vapor, for a tray numbered above [feedTray] (stripping loop) the vapor
    is [vapMolFraction] of the liquid. *)
Theorem generateColumnData_trays_consistent
    (fuel : nat) (feedRate xFeed xDistillate xBottoms pressure : num)
    (feedTray totalTrays : Z) (R : num) (l h : AntoineConstants) (trays : trayArray) :
  generateColumnData fuel feedRate xFeed xDistillate xBottoms pressure feedTray totalTrays
    R l h = Ok trays ->
  forall (j : nat) (t : Tray),
    trays !! j = Some (Some t) ->
    trayNumber t = (Z.of_nat j + 1)%Z /\
    refluxRatio t = R /\
    boilUp t = columnBoilUp feedRate xFeed xDistillate xBottoms R /\
    equilibriumTemperatureFromX fuel pressure (liqComp t) l h = Ok (temperature t) /\
    ((trayNumber t <= feedTray)%Z ->
     liqMolFraction fuel pressure (vapComp t) l h = Ok (liqComp t)) /\
    ((feedTray < trayNumber t)%Z ->
     vapMolFraction fuel pressure (liqComp t) l h = Ok (vapComp t)).
Proof.
  intros H j t Hj. unfold generateColumnData in H. unfold columnBoilUp.
  destruct (productRates feedRate xFeed xDistillate xBottoms) as [distillateRate bottomsRate].
  bind_inv H as trays0 Hnew. bind_inv H as s1 Hrect. bind_inv H as s2 Hstrip.
  injection H as <-.
  assert (H0 : traysConsistent fuel pressure R
                 (boilUpRatio R distillateRate bottomsRate) feedTray l h trays0).
  { unfold newArray in Hnew.
    destruct ((totalTrays + 1 <? 0) || (4294967295 <? totalTrays + 1))%Z; [discriminate |].
    injection Hnew as <-. intros k u Hk.
    apply lookup_replicate in Hk. destruct Hk as [Hk _]. discriminate. }
  apply rectifyingTrays_consistent with (feedTray := feedTray) in Hrect;
    [| lia | exact H0].
  apply strippingTrays_consistent with (feedTray := feedTray) in Hstrip;
    [| lia | exact Hrect].
  exact (Hstrip j t Hj).
Qed.

Lemma generateColumnData_trays_consistent_witness :
  exists (fuel : nat) (trays : trayArray),
    generateColumnData fuel (Fin 1000) (Fin 0.5) (Fin 0.95) (Fin 0.05) (Fin oneBar) 5 10
      (Fin 2) propaneConstants butaneConstants = Ok trays /\
    forall (j : nat) (t : Tray),
      trays !! j = Some (Some t) ->
      trayNumber t = (Z.of_nat j + 1)%Z /\
      refluxRatio t = Fin 2 /\
      equilibriumTemperatureFromX fuel (Fin oneBar) (liqComp t)
        propaneConstants butaneConstants = Ok (temperature t).
Proof.
  destruct generateColumnData_oneBar_scenario as (fuel & trays & H).
  exists fuel, trays. split; [apply H; lia |].
  intros j t Hj.
  destruct (generateColumnData_trays_consistent fuel (Fin 1000) (Fin 0.5) (Fin 0.95)
              (Fin 0.05) (Fin oneBar) 5 10 (Fin 2) propaneConstants butaneConstants
              trays (H fuel (le_n fuel)) j t Hj) as (Hnum & HR & _ & Htemp & _).
  split; [exact Hnum |]. split; [exact HR | exact Htemp].
Defined.

(** ** The stripping march of [generateColumnData] *)

(** Over exact real arithmetic, at a finite boil-up ratio other than [0]
    and [-1], the stripping operating line maps the bottoms composition to
    itself. *)
Lemma strippingOperatingLine_bottoms (S xB : R) :
  S <> 0 -> S <> -1 ->
  strippingOperatingLine (Fin S) (Fin xB) (Fin xB) = Fin xB.
Proof.
  intros HS0 HS1. unfold strippingOperatingLine.
  rewrite (div_fin xB S) by exact HS0. rewrite !add_fin, mul_fin, div_fin by lra.
  f_equal. field. split; [exact HS0 | lra].
Qed.

Section StrippingMarch.

Variable fuel : nat.
Variables xBottoms pressure R S : num.
Variables l h : AntoineConstants.

(** The liquid compositions of the second loop of [generateColumnData]
    are those of the loop of [strippingSection]. *)
Lemma strippingTrays_liqComp (count : nat) :
  forall (i : Z) (s s' : columnData),
    (0 < count)%nat ->
    strippingTrays count fuel i xBottoms pressure R S l h s = Ok s' ->
    forall liq : num,
      strippingLoop count fuel S pressure xBottoms l h liq (cd_vapComp s)
      = Ok (cd_liqComp s').
Proof.
  induction count as [| count IH]; intros i s s' Hcount H liq; [lia |].
  cbn [strippingTrays] in H. cbn [strippingLoop]. cbv zeta in H |- *.
  bind_inv H as vap Hvap. bind_inv H as temp Htemp.
  rewrite Hvap. cbn [mbind res_bind].
  destruct count as [| count].
  - cbn [strippingTrays] in H. injection H as <-. reflexivity.
  - apply IH with (liq := strippingOperatingLine S xBottoms (cd_vapComp s)) in H; [| lia].
    exact H.
Qed.

(** A run of the second loop is a run of its first [k] iterations
    followed by a run of the others. *)
Lemma strippingTrays_split (k m : nat) :
  forall (i : Z) (s s' : columnData),
    strippingTrays (k + m) fuel i xBottoms pressure R S l h s = Ok s' ->
    exists s1 : columnData,
      strippingTrays k fuel i xBottoms pressure R S l h s = Ok s1 /\
      strippingTrays m fuel (i - Z.of_nat k) xBottoms pressure R S l h s1 = Ok s'.
Proof.
  induction k as [| k IH]; intros i s s' H.
  - exists s. split; [reflexivity |].
    replace (i - Z.of_nat 0)%Z with i by lia. exact H.
  - cbn [Nat.add strippingTrays] in H. cbv zeta in H.
    bind_inv H as vap Hvap. bind_inv H as temp Htemp.
    apply IH in H. destruct H as (s1 & Hk & Hm).
    exists s1. split.
    + cbn [strippingTrays]. cbv zeta. rewrite Hvap. cbn [mbind res_bind].
      rewrite Htemp. cbn [mbind res_bind]. exact Hk.
    + replace (i - Z.of_nat (Datatypes.S k))%Z with (i - 1 - Z.of_nat k)%Z by lia.
      exact Hm.
Qed.

(** The last tray the second loop writes holds the last liquid
    composition. *)
Lemma strippingTrays_last (count : nat) :
  forall (i : Z) (s s' : columnData),
    (1 <= i - Z.of_nat count)%Z ->
    strippingTrays (Datatypes.S count) fuel i xBottoms pressure R S l h s = Ok s' ->
    exists t : Tray,
      cd_trays s' !! Z.to_nat (i - Z.of_nat count - 1) = Some (Some t) /\
      trayNumber t = (i - Z.of_nat count)%Z /\
      liqComp t = cd_liqComp s'.
Proof.
  induction count as [| count IH]; intros i s s' Hi H.
  - cbn [strippingTrays] in H. cbv zeta in H.
    bind_inv H as vap Hvap. bind_inv H as temp Htemp.
    injection H as <-. cbn [cd_trays cd_liqComp].
    replace (i - Z.of_nat 0 - 1)%Z with (i - 1)%Z by lia.
    rewrite arraySet_lookup_eq by lia.
    eexists. split; [reflexivity |]. split; [simpl; lia | reflexivity].
  - cbn [strippingTrays] in H. cbv zeta in H.
    bind_inv H as vap Hvap. bind_inv H as temp Htemp.
    apply IH in H; [| lia].
    destruct H as (t & Ht & Hnum & Hl).
    exists t. split; [| split; [lia | exact Hl]].
    rewrite <- Ht. f_equal. lia.
Qed.

(** The second loop leaves alone the slots from its start index on. *)
Lemma strippingTrays_above (count : nat) :
  forall (i : Z) (s s' : columnData) (j : nat),
    (j < length (cd_trays s))%nat ->
    (i <= Z.of_nat j)%Z ->
    strippingTrays count fuel i xBottoms pressure R S l h s = Ok s' ->
    cd_trays s' !! j = cd_trays s !! j.
Proof.
  induction count as [| count IH]; intros i s s' j Hj Hhigh H.
  - cbn [strippingTrays] in H. injection H as <-. reflexivity.
  - cbn [strippingTrays] in H. cbv zeta in H.
    bind_inv H as vap Hvap. bind_inv H as temp Htemp.
    apply IH with (j := j) in H; cbn [cd_trays] in *.
    + rewrite H. destruct (Z.ltb_spec (i - 1) 0) as [Hneg | Hpos].
      * unfold arraySet. destruct (Z.ltb_spec (i - 1) 0); [reflexivity | lia].
      * apply arraySet_lookup_ne; [exact Hj | lia].
    + eapply Nat.lt_le_trans; [exact Hj | apply arraySet_length_ge].
    + lia.
Qed.

End StrippingMarch.

(** X18.  The stripping counterpart of the feed-tray property.  Whenever
    the stripping operating line, at the boil-up ratio of the run, maps
    the bottoms composition to itself (as it does over exact real
    arithmetic for a finite boil-up ratio other than [0] and [-1]), every
    tray numbered [j] with [feedTray < j <= totalTrays + 1] and [1 <= j]
    in the array [generateColumnData] returns holds the liquid composition
    that [strippingSection] returns for the same boil-up ratio, pressure
    and bottoms composition with [j] as the feed tray. *)
Theorem generateColumnData_stripping_tray_liquid
    (fuel : nat) (feedRate xFeed xDistillate xBottoms pressure : num)
    (feedTray totalTrays : Z) (R : num) (l h : AntoineConstants)
    (trays : trayArray) (j : Z) :
  strippingOperatingLine (columnBoilUp feedRate xFeed xDistillate xBottoms R)
    xBottoms xBottoms = xBottoms ->
  (1 <= j)%Z ->
  (feedTray < j <= totalTrays + 1)%Z ->
  generateColumnData fuel feedRate xFeed xDistillate xBottoms pressure feedTray totalTrays
    R l h = Ok trays ->
  exists t : Tray,
    trays !! Z.to_nat (j - 1) = Some (Some t) /\
    trayNumber t = j /\
    strippingSection fuel (columnBoilUp feedRate xFeed xDistillate xBottoms R)
      pressure xBottoms j totalTrays l h = Ok (liqComp t).
Proof.
  intros Hline Hj Hrange H. unfold generateColumnData in H. unfold columnBoilUp in *.
  destruct (productRates feedRate xFeed xDistillate xBottoms) as [distillateRate bottomsRate].
  set (S := boilUpRatio R distillateRate bottomsRate) in *.
  bind_inv H as trays0 Hnew. bind_inv H as s1 Hrect. bind_inv H as s2 Hstrip.
  injection H as <-.
  replace (Z.to_nat (totalTrays + 1 - feedTray))
    with (Datatypes.S (Z.to_nat (totalTrays - j + 1)) + Z.to_nat (j - 1 - feedTray))%nat
    in Hstrip by lia.
  apply strippingTrays_split in Hstrip. destruct Hstrip as (s' & Hfirst & Hrest).
  pose proof (strippingTrays_liqComp _ _ _ _ _ _ _ _ _ _ _ (Nat.lt_0_succ _) Hfirst xBottoms)
    as Hloop.
  apply strippingTrays_last in Hfirst; [| lia].
  destruct Hfirst as (t & Ht & Hnum & Hl).
  replace (totalTrays + 1 - Z.of_nat (Z.to_nat (totalTrays - j + 1)) - 1)%Z
    with (j - 1)%Z in Ht by lia.
  exists t. split; [| split; [lia |]].
  - apply strippingTrays_above with (j := Z.to_nat (j - 1)) in Hrest.
    + rewrite Hrest. exact Ht.
    + apply lookup_lt_Some in Ht. exact Ht.
    + lia.
  - unfold strippingSection. cbv zeta.
    cbn [strippingLoop cd_vapComp] in Hloop. cbv zeta in Hloop.
    rewrite Hline in Hloop. rewrite Hl. exact Hloop.
Qed.

Lemma generateColumnData_stripping_tray_liquid_witness :
  exists (fuel : nat) (trays : trayArray) (t : Tray),
    generateColumnData fuel (Fin 1000) (Fin 0.5) (Fin 0.95) (Fin 0.05) (Fin oneBar) 5 10
      (Fin 2) propaneConstants butaneConstants = Ok trays /\
    trays !! Z.to_nat (7 - 1) = Some (Some t) /\
    trayNumber t = 7%Z /\
    strippingSection fuel (columnBoilUp (Fin 1000) (Fin 0.5) (Fin 0.95) (Fin 0.05) (Fin 2))
      (Fin oneBar) (Fin 0.05) 7 10 propaneConstants butaneConstants = Ok (liqComp t).
Proof.
  destruct generateColumnData_oneBar_scenario as (fuel & trays & H).
  destruct (generateColumnData_stripping_tray_liquid fuel (Fin 1000) (Fin 0.5) (Fin 0.95)
              (Fin 0.05) (Fin oneBar) 5 10 (Fin 2) propaneConstants butaneConstants trays 7)
    as (t & Ht & Hnum & Hstrip);
    [ | lia | lia | apply H; lia |].
  - unfold columnBoilUp.
    rewrite (boilUpRatio_fin 2 1000 0.5 0.95 0.05) by lra.
    apply strippingOperatingLine_bottoms.
    + apply Rgt_not_eq. apply Rdiv_lt_0_compat; lra.
    + assert (0 < (2 + 1) * (0.5 - 0.05) / (0.95 - 0.5)) by (apply Rdiv_lt_0_compat; lra).
      lra.
  - exists fuel, trays, t. split; [apply H; lia |]. split; [exact Ht |].
    split; [exact Hnum | exact Hstrip].
Defined.

(** ** Utility functions *)

Lemma combinedMolWt_pos (z wl wh : R) :
  0 < wl -> 0 < wh -> 0 <= z <= 1 -> 0 < z * wl + (1 - z) * wh.
Proof.
  intros Hl Hh Hz. destruct (Rle_lt_dec z (1 / 2)); nra.
Qed.

(** X19.  Over exact real arithmetic, for positive molecular weights and
    a composition in [[0, 1]], [massToMolar] and [molarToMass] at the same
    composition undo each other on every finite rate. *)
Theorem molar_mass_round_trip (rate z : R) (l h : AntoineConstants) :
  0 < mol_wt l ->
  0 < mol_wt h ->
  0 <= z <= 1 ->
  massToMolar (molarToMass (Fin rate) (Fin z) l h) (Fin z) l h = Fin rate /\
  molarToMass (massToMolar (Fin rate) (Fin z) l h) (Fin z) l h = Fin rate.
Proof.
  intros Hl Hh Hz.
  pose proof (combinedMolWt_pos z (mol_wt l) (mol_wt h) Hl Hh Hz) as Hw.
  unfold massToMolar, molarToMass.
  rewrite sub_fin, !mul_fin, add_fin.
  split.
  - rewrite mul_fin, div_fin by lra. f_equal. field. lra.
  - rewrite div_fin by lra. rewrite mul_fin. f_equal. field. lra.
Qed.

Lemma molar_mass_round_trip_witness :
  massToMolar (molarToMass (Fin 1000) (Fin 0.5) propaneConstants butaneConstants)
    (Fin 0.5) propaneConstants butaneConstants = Fin 1000 /\
  molarToMass (massToMolar (Fin 1000) (Fin 0.5) propaneConstants butaneConstants)
    (Fin 0.5) propaneConstants butaneConstants = Fin 1000.
Proof.
  apply (molar_mass_round_trip 1000 0.5 propaneConstants butaneConstants);
    simpl; lra.
Defined.

(** X20.  Over exact real arithmetic, for a vaporization rate [v >= 0]
    and a liquid composition in [[0, 1]], the duty [calculateDuty] returns
    is finite and lies between
    the duties of the two pure compounds, [v * hVap / 1000] at the smaller
    and at the larger of the two heats of vaporization. *)
Theorem calculateDuty_between (v z : R) (l h : AntoineConstants) :
  0 <= v ->
  0 <= z <= 1 ->
  exists d : R,
    calculateDuty (Fin v) (Fin z) l h = Fin d /\
    v * Rmin (hVap l) (hVap h) / 1000 <= d <= v * Rmax (hVap l) (hVap h) / 1000.
Proof.
  intros Hv Hz. unfold calculateDuty.
  rewrite sub_fin, !mul_fin, add_fin, mul_fin, div_fin by lra.
  eexists. split; [reflexivity |].
  pose proof (Rmin_l (hVap l) (hVap h)). pose proof (Rmin_r (hVap l) (hVap h)).
  pose proof (Rmax_l (hVap l) (hVap h)). pose proof (Rmax_r (hVap l) (hVap h)).
  assert (Hlo : Rmin (hVap l) (hVap h) <= z * hVap l + (1 - z) * hVap h) by nra.
  assert (Hhi : z * hVap l + (1 - z) * hVap h <= Rmax (hVap l) (hVap h)) by nra.
  split; apply Rmult_le_compat_r; try lra; apply Rmult_le_compat_l; assumption.
Qed.

Lemma calculateDuty_between_witness :
  exists d : R,
    calculateDuty (Fin 100) (Fin 0.5) propaneConstants butaneConstants = Fin d /\
    100 * Rmin (hVap propaneConstants) (hVap butaneConstants) / 1000 <= d
      <= 100 * Rmax (hVap propaneConstants) (hVap butaneConstants) / 1000.
Proof.
  apply (calculateDuty_between 100 0.5 propaneConstants butaneConstants); lra.
Defined.

(** ** Minimum number of trays *)

Section MinimumTrays.

Variables (p : R) (l h : AntoineConstants) (a b : R).
Hypothesis Hvalid : validBracket p l h a b.

(** Strictly inside the bracket the light compound is more volatile
    than the heavy one. *)
Lemma relative_volatility (T : R) :
  a < T <= b ->
  exists alpha : R,
    (vaporPressure (Fin T) l / vaporPressure (Fin T) h)%num = Fin alpha /\ 1 < alpha.
Proof.
  intros [HaT HTb].
  destruct (vb_denominators p l h a b Hvalid T) as [Hl Hh]; [lra |].
  rewrite !vaporPressure_antoine by lra.
  pose proof (antoine_pos h T) as Hpos.
  rewrite div_fin by lra.
  exists (antoine l T / antoine h T). split; [reflexivity |].
  pose proof (vb_light_gt p l h a b Hvalid T HaT) as Hlight.
  pose proof (vb_heavy_le p l h a b Hvalid T) as Hheavy.
  apply Rmult_lt_reg_r with (antoine h T); [exact Hpos |].
  unfold Rdiv. rewrite Rmult_assoc, Rinv_l by lra. lra.
Qed.

(** The logarithm of the average relative volatility is positive. *)
Lemma averageAlpha_log (alphaTop alphaBottom : R) :
  1 < alphaTop -> 1 < alphaBottom ->
  exists d : R,
    Num.log (Num.sqrt (Fin alphaTop * Fin alphaBottom)) = Fin d /\ 0 < d.
Proof.
  intros Htop Hbottom. rewrite mul_fin.
  assert (Hprod : 1 < alphaTop * alphaBottom) by nra.
  unfold Num.sqrt. destruct (Rlt_dec (alphaTop * alphaBottom) 0) as [Hn | _]; [lra |].
  assert (Hsqrt : 1 < sqrt (alphaTop * alphaBottom)).
  { rewrite <- sqrt_1 at 1. apply sqrt_lt_1_alt. lra. }
  unfold Num.log. destruct (Rlt_dec 0 (sqrt (alphaTop * alphaBottom))) as [_ | Hn]; [| lra].
  eexists. split; [reflexivity |].
  rewrite <- ln_1. apply ln_increasing; lra.
Qed.

Lemma minimumTrays_temperatures (xD xB : R) :
  a < b -> 0 <= xD <= 1 -> 0 <= xB <= 1 ->
  exists (n : nat) (d : R),
    0 < d /\
    forall fuel : nat, (n <= fuel)%nat ->
      minimumTrays fuel (Fin xD) (Fin xB) (Fin p) l h
      = Ok (Num.log (Fin xD / (Fin 1 - Fin xD) * (Fin 1 - Fin xB) / Fin xB) / Fin d)%num.
Proof.
  intros Hab HxD HxB.
  destruct (vapMolFraction_converges p l h a b Hvalid xD HxD)
    as (n1 & T1 & Hin1 & Hstrict1 & _ & Hrun1).
  destruct (vapMolFraction_converges p l h a b Hvalid xB HxB)
    as (n2 & T2 & Hin2 & Hstrict2 & _ & Hrun2).
  destruct (relative_volatility T1) as (alphaTop & Htop & Htop1);
    [split; [apply Hstrict1; lra | lra] |].
  destruct (relative_volatility T2) as (alphaBottom & Hbottom & Hbottom1);
    [split; [apply Hstrict2; lra | lra] |].
  destruct (averageAlpha_log alphaTop alphaBottom Htop1 Hbottom1) as (d & Hd & Hdpos).
  exists (Nat.max n1 n2), d. split; [exact Hdpos |].
  intros fuel Hfuel. unfold minimumTrays.
  destruct (Hrun1 fuel) as [-> _]; [lia |]. cbn [mbind res_bind].
  destruct (Hrun2 fuel) as [-> _]; [lia |]. cbn [mbind res_bind].
  cbv zeta. rewrite Htop, Hbottom, Hd. reflexivity.
Qed.

End MinimumTrays.

(** X21.  Over exact real arithmetic, on a valid bracket with distinct
    boiling points, for compositions [0 < xB < xD < 1], [minimumTrays]
    returns given enough fuel and the number of trays it returns is finite
    and positive. *)
Theorem minimumTrays_positive (p : R) (l h : AntoineConstants) (a b xD xB : R) :
  validBracket p l h a b ->
  a < b ->
  0 < xB < xD ->
  xD < 1 ->
  exists (n : nat) (N : R),
    0 < N /\
    forall fuel : nat, (n <= fuel)%nat ->
      minimumTrays fuel (Fin xD) (Fin xB) (Fin p) l h = Ok (Fin N).
Proof.
  intros Hvalid Hab HxB HxD.
  destruct (minimumTrays_temperatures p l h a b Hvalid xD xB Hab) as (n & d & Hd & Hrun);
    [lra | lra |].
  assert (Hq : 1 < xD / (1 - xD) * (1 - xB) / xB).
  { apply Rmult_lt_reg_r with (xB * (1 - xD)); [nra |].
    replace (xD / (1 - xD) * (1 - xB) / xB * (xB * (1 - xD))) with (xD * (1 - xB))
      by (field; lra).
    nra. }
  exists n, (ln (xD / (1 - xD) * (1 - xB) / xB) / d). split.
  - apply Rdiv_lt_0_compat; [| exact Hd].
    rewrite <- ln_1. apply ln_increasing; lra.
  - intros fuel Hfuel. rewrite (Hrun fuel Hfuel).
    rewrite !sub_fin, (div_fin xD) by lra. rewrite mul_fin, div_fin by lra.
    unfold Num.log.
    destruct (Rlt_dec 0 (xD / (1 - xD) * (1 - xB) / xB)) as [_ | Hn]; [| lra].
    rewrite div_fin by lra. reflexivity.
Qed.

Lemma minimumTrays_positive_witness :
  exists (n : nat) (N : R),
    0 < N /\
    forall fuel : nat, (n <= fuel)%nat ->
      minimumTrays fuel (Fin 0.95) (Fin 0.05) (Fin oneBar)
        propaneConstants butaneConstants = Ok (Fin N).
Proof.
  apply (minimumTrays_positive oneBar propaneConstants butaneConstants
           propaneBoilingPoint butaneBoilingPoint 0.95 0.05 validBracket_oneBar);
    unfold propaneBoilingPoint, butaneBoilingPoint; lra.
Defined.



(** ** Minimum reflux ratio *)

(** X23.  Over exact real arithmetic, on a valid bracket, for a feed
    composition [xF] in [[0, 1]] and a distillate composition [xD > xF],
    [minimumRefluxRatio] returns
    given enough fuel.  With [y >= xF] the vapor composition
    [vapMolFraction] returns for the feed, the result is
    [(xD - y) / (y - xF)] when [y > xF], and [+Infinity] when
    [y = xF]. *)
Theorem minimumRefluxRatio_closed_form
    (p : R) (l h : AntoineConstants) (a b xF xD : R) :
  validBracket p l h a b ->
  0 <= xF <= 1 ->
  xF < xD ->
  exists (n : nat) (y : R),
    xF <= y /\
    forall fuel : nat, (n <= fuel)%nat ->
      vapMolFraction fuel (Fin p) (Fin xF) l h = Ok (Fin y) /\
      (xF < y ->
       minimumRefluxRatio fuel (Fin xF) (Fin xD) (Fin p) l h
       = Ok (Fin ((xD - y) / (y - xF)))) /\
      (y = xF ->
       minimumRefluxRatio fuel (Fin xF) (Fin xD) (Fin p) l h = Ok PInf).
Proof.
  intros Hvalid HxF HxD. pose proof (vb_pressure _ _ _ _ _ Hvalid) as Hp.
  destruct (vapMolFraction_converges p l h a b Hvalid xF HxF)
    as (n & T & Hin & _ & _ & Hrun).
  exists n, (xF * antoine l T / p). split.
  - pose proof (vb_light_ge p l h a b Hvalid T (proj1 Hin)) as Hl.
    replace xF with (xF * p / p) at 1 by (field; lra).
    apply Rmult_le_compat_r; [left; apply Rinv_0_lt_compat; lra | nra].
  - intros fuel Hfuel. destruct (Hrun fuel Hfuel) as [_ Hvap].
    split; [exact Hvap |].
    unfold minimumRefluxRatio. rewrite Hvap. cbn [mbind res_bind]. cbv zeta.
    set (y := xF * antoine l T / p).
    rewrite !sub_fin, div_fin by lra. rewrite sub_fin.
    split.
    + intros Hy.
      assert (Hden : 1 - (xD - y) / (xD - xF) = (y - xF) / (xD - xF)) by (field; lra).
      assert (Hden' : 0 < (y - xF) / (xD - xF)) by (apply Rdiv_lt_0_compat; lra).
      rewrite div_fin by lra. do 2 f_equal. rewrite Hden. field. lra.
    + intros Hy. rewrite Hy.
      unfold Num.div. destruct (Req_dec_T (1 - (xD - xF) / (xD - xF)) 0) as [_ | Hn].
      * unfold Num.bySign.
        destruct (Rlt_dec 0 ((xD - xF) / (xD - xF))) as [_ | Hn]; [reflexivity |].
        exfalso. apply Hn. apply Rdiv_lt_0_compat; lra.
      * exfalso. apply Hn. field. lra.
Qed.

Lemma minimumRefluxRatio_closed_form_witness :
  exists (n : nat) (y : R),
    0.5 <= y /\
    forall fuel : nat, (n <= fuel)%nat ->
      vapMolFraction fuel (Fin oneBar) (Fin 0.5) propaneConstants butaneConstants
      = Ok (Fin y) /\
      (0.5 < y ->
       minimumRefluxRatio fuel (Fin 0.5) (Fin 0.95) (Fin oneBar)
         propaneConstants butaneConstants
       = Ok (Fin ((0.95 - y) / (y - 0.5)))) /\
      (y = 0.5 ->
       minimumRefluxRatio fuel (Fin 0.5) (Fin 0.95) (Fin oneBar)
         propaneConstants butaneConstants = Ok PInf).
Proof.
  apply (minimumRefluxRatio_closed_form oneBar propaneConstants butaneConstants
           propaneBoilingPoint butaneBoilingPoint 0.5 0.95 validBracket_oneBar); lra.
Defined.

(** ** Boundary cases of the sections *)

(** X24.  For [feedTray <= 1] the loop of [rectifyingSection] runs no
    iteration: the result is the liquid in equilibrium with the
    distillate vapor and does not depend on the reflux ratio. *)
Theorem rectifyingSection_top_tray
    (fuel : nat) (refluxRatio pressure distillateMolFrac : num) (feedTray : Z)
    (l h : AntoineConstants) :
  (feedTray <= 1)%Z ->
  rectifyingSection fuel refluxRatio pressure distillateMolFrac feedTray l h
  = liqMolFraction fuel pressure distillateMolFrac l h.
Proof.
  intros Hfeed. unfold rectifyingSection.
  replace (Z.to_nat (feedTray - 1)) with 0%nat by lia.
  destruct (liqMolFraction fuel pressure distillateMolFrac l h); reflexivity.
Qed.

Lemma rectifyingSection_top_tray_witness :
  rectifyingSection 1 (Fin 2) (Fin oneBar) (Fin 0.95) 1 propaneConstants butaneConstants
  = liqMolFraction 1 (Fin oneBar) (Fin 0.95) propaneConstants butaneConstants.
Proof.
  apply (rectifyingSection_top_tray 1 (Fin 2) (Fin oneBar) (Fin 0.95) 1
           propaneConstants butaneConstants).
  lia.
Defined.

(** ** Boiling point and pressure *)

Lemma boilingPointTemperature_fin (p : R) (c : AntoineConstants) :
  0 < p ->
  ln (p / 14.503773773) / ln 10 < A c ->
  boilingPointTemperature (Fin p) c
  = Fin ((B c / (A c - ln (p / 14.503773773) / ln 10) - C c - 273.15) * 9 / 5 + 32).
Proof.
  intros Hp HA. unfold boilingPointTemperature.
  rewrite div_fin by lra. cbn [Num.log10].
  destruct (Rlt_dec 0 (p / 14.503773773)) as [_ | Hn];
    [| exfalso; apply Hn; apply Rdiv_lt_0_compat; lra].
  rewrite sub_fin, div_fin by lra.
  rewrite !sub_fin, mul_fin, div_fin by lra. rewrite add_fin. reflexivity.
Qed.

(** X25.  Over exact real arithmetic, for a compound with [B > 0], below
    the pressure at which the Antoine expression [A - log10(P)] reaches
    zero, the boiling point [boilingPointTemperature] computes is finite
    and strictly increasing in the pressure. *)
Theorem boilingPointTemperature_increasing (p1 p2 : R) (c : AntoineConstants) :
  0 < B c ->
  0 < p1 < p2 ->
  ln (p2 / 14.503773773) / ln 10 < A c ->
  (boilingPointTemperature (Fin p1) c <? boilingPointTemperature (Fin p2) c)%num = true.
Proof.
  intros HB [Hp1 Hp12] HA.
  pose proof ln_10_pos as H10.
  assert (Hlog : ln (p1 / 14.503773773) / ln 10 < ln (p2 / 14.503773773) / ln 10).
  { apply Rmult_lt_compat_r; [apply Rinv_0_lt_compat; exact H10 |].
    apply ln_increasing; [apply Rdiv_lt_0_compat; lra |].
    apply Rmult_lt_compat_r; [apply Rinv_0_lt_compat; lra | exact Hp12]. }
  rewrite !boilingPointTemperature_fin by lra.
  apply ltb_fin.
  set (L1 := ln (p1 / 14.503773773) / ln 10) in *.
  set (L2 := ln (p2 / 14.503773773) / ln 10) in *.
  assert (Hinv : / (A c - L1) < / (A c - L2)).
  { apply Rinv_lt_contravar; [apply Rmult_lt_0_compat; lra | lra]. }
  unfold Rdiv. nra.
Qed.

Lemma boilingPointTemperature_increasing_witness :
  (boilingPointTemperature (Fin 14.503773773) propaneConstants
   <? boilingPointTemperature (Fin 145.03773773) propaneConstants)%num = true.
Proof.
  apply (boilingPointTemperature_increasing 14.503773773 145.03773773 propaneConstants).
  - simpl. lra.
  - lra.
  - replace (145.03773773 / 14.503773773) with 10 by lra.
    replace (ln 10 / ln 10) with 1 by (field; pose proof ln_10_pos; lra).
    simpl. lra.
Defined.

(** ** Exceptions *)

(** X26.  The only exception [generateColumnData] throws comes from the
    array constructor: for an array length
    [0 <= totalTrays + 1 <= 4294967295] the call does not throw, whatever
    the other arguments. *)
Theorem generateColumnData_throws_only_on_length
    (fuel : nat) (feedRate xFeed xDistillate xBottoms pressure : num)
    (feedTray totalTrays : Z) (refluxRatio : num) (l h : AntoineConstants) :
  (0 <= totalTrays + 1 <= 4294967295)%Z ->
  generateColumnData fuel feedRate xFeed xDistillate xBottoms pressure feedTray totalTrays
    refluxRatio l h <> RangeError.
Proof.
  intros Hlength. unfold generateColumnData.
  destruct (productRates feedRate xFeed xDistillate xBottoms) as [distillateRate bottomsRate].
  apply bind_noThrow.
  - unfold newArray.
    destruct (Z.ltb_spec (totalTrays + 1) 0) as [Hneg | _]; [lia |].
    destruct (Z.ltb_spec 4294967295 (totalTrays + 1)) as [Hbig | _]; [lia |].
    discriminate.
  - intros trays.
    apply bind_noThrow; [apply rectifyingTrays_noThrow | intros s1].
    apply bind_noThrow; [apply strippingTrays_noThrow | discriminate].
Qed.

Lemma generateColumnData_throws_only_on_length_witness :
  generateColumnData 3 (Fin 1000) (Fin 0.5) (Fin 0.95) (Fin 0.05) (Fin highPressure) 5 10
    (Fin 2) propaneConstants butaneConstants <> RangeError.
Proof.
  apply (generateColumnData_throws_only_on_length 3 (Fin 1000) (Fin 0.5) (Fin 0.95)
           (Fin 0.05) (Fin highPressure) 5 10 (Fin 2) propaneConstants butaneConstants).
  lia.
Defined.
